(** * binrun: a shallow embedding of [index.js] and the properties of its
      resolution pipeline.

    The development follows the source file top-down: strings and regular
    expressions as the JavaScript runtime provides them, then
    [parseRepoURL], [getLatestVersion], [getReleaseAssets], [getSystemInfo],
    [findMatchingAsset], [downloadFile], [findBinaryInDir] and [run].

    Strings are byte strings ([string]); case mapping is the ASCII one. *)

From Stdlib Require Import String Ascii List ZArith NArith Bool Lia.
Import ListNotations.
Open Scope string_scope.

(* ================================================================= *)
(** ** String primitives of the runtime *)

Module Str.

Definition code (c : ascii) : N := N_of_ascii c.

Definition is_upper (c : ascii) : bool := ((65 <=? code c) && (code c <=? 90))%N.
Definition is_lower (c : ascii) : bool := ((97 <=? code c) && (code c <=? 122))%N.
Definition is_digit (c : ascii) : bool := ((48 <=? code c) && (code c <=? 57))%N.

Definition lower (c : ascii) : ascii :=
  if is_upper c then ascii_of_N (code c + 32) else c.
Definition upper (c : ascii) : ascii :=
  if is_lower c then ascii_of_N (code c - 32) else c.

(** [String.prototype.toLowerCase] *)
Fixpoint toLowerCase (s : string) : string :=
  match s with
  | EmptyString => EmptyString
  | String c s' => String (lower c) (toLowerCase s')
  end.

(** [String.prototype.startsWith] *)
Fixpoint startsWith (s p : string) : bool :=
  match p, s with
  | EmptyString, _ => true
  | String _ _, EmptyString => false
  | String a p', String b s' => (a =? b)%char && startsWith s' p'
  end.

(** [String.prototype.includes] *)
Fixpoint includes (s sub : string) : bool :=
  startsWith s sub ||
  match s with
  | EmptyString => false
  | String _ s' => includes s' sub
  end.

(** [String.prototype.endsWith] *)
Fixpoint endsWith (s suf : string) : bool :=
  (s =? suf) ||
  match s with
  | EmptyString => false
  | String _ s' => endsWith s' suf
  end.

(** the first [n] characters *)
Fixpoint take (n : nat) (s : string) : string :=
  match n, s with
  | S n', String c s' => String c (take n' s')
  | _, _ => EmptyString
  end.

Fixpoint all (p : ascii -> bool) (s : string) : bool :=
  match s with
  | EmptyString => true
  | String c s' => p c && all p s'
  end.

Definition nonempty (s : string) : bool :=
  match s with EmptyString => false | String _ _ => true end.

End Str.

(* ================================================================= *)
(** ** Regular expressions

    A backtracking matcher for the fragment of ECMAScript regular
    expressions that [index.js] uses: literals, [.], the class [\w],
    unions of classes, sequence, alternation, greedy [?], greedy [+] over a
    class, capturing groups, [^] and [$] (no [m] flag: input start and
    input end only), and the [i] flag. *)

Module Re.

Inductive cclass : Type :=
| CLit (c : ascii)
| CAny
| CWord
| CUnion (a b : cclass).

Inductive regex : Type :=
| Eps
| Chr (c : cclass)
| Seq (a b : regex)
| Alt (a b : regex)
| Opt (a : regex)
| Plus (c : cclass)
| Grp (i : nat) (a : regex)
| Bol
| Eol.

Definition is_word (c : ascii) : bool :=
  Str.is_digit c || Str.is_upper c || Str.is_lower c || (Str.code c =? 95)%N.

Definition is_line_terminator (c : ascii) : bool :=
  ((Str.code c =? 10) || (Str.code c =? 13))%N.

Fixpoint cmatch (icase : bool) (cl : cclass) (x : ascii) : bool :=
  match cl with
  | CLit c => if icase then (Str.upper x =? Str.upper c)%char else (x =? c)%char
  | CAny => negb (is_line_terminator x)
  | CWord => is_word x
  | CUnion a b => cmatch icase a x || cmatch icase b x
  end.

(** captures: group number to captured text; an absent group is [undefined] *)
Definition caps := list (nat * string).

Fixpoint cap (i : nat) (cs : caps) : option string :=
  match cs with
  | [] => None
  | (j, t) :: cs' => if Nat.eqb i j then Some t else cap i cs'
  end.

(** a successful match: the text after the match and the captures *)
Definition answer := option (string * caps).

(** continuation: at-input-start flag, remaining text, captures so far *)
Definition kont := bool -> string -> caps -> answer.

Section Matcher.
Variable icase : bool.

(** [cl+], greedy: consume as much as possible, give back one by one *)
Fixpoint plus_loop (cl : cclass) (s : string) (cs : caps) (k : kont) : answer :=
  match s with
  | EmptyString => None
  | String x s' =>
      if cmatch icase cl x then
        match plus_loop cl s' cs k with
        | Some r => Some r
        | None => k false s' cs
        end
      else None
  end.

Fixpoint bt (r : regex) (bol : bool) (s : string) (cs : caps) (k : kont) : answer :=
  match r with
  | Eps => k bol s cs
  | Chr cl =>
      match s with
      | String x s' => if cmatch icase cl x then k false s' cs else None
      | EmptyString => None
      end
  | Seq a b => bt a bol s cs (fun bol' s' cs' => bt b bol' s' cs' k)
  | Alt a b =>
      match bt a bol s cs k with
      | Some r => Some r
      | None => bt b bol s cs k
      end
  | Opt a =>
      match bt a bol s cs k with
      | Some r => Some r
      | None => k bol s cs
      end
  | Plus cl => plus_loop cl s cs k
  | Grp i a =>
      bt a bol s cs (fun bol' s' cs' =>
        k bol' s' ((i, Str.take (String.length s - String.length s') s) :: cs'))
  | Bol => if bol then k bol s cs else None
  | Eol => match s with EmptyString => k bol s cs | String _ _ => None end
  end.

Definition accept : kont := fun _ s cs => Some (s, cs).

(** leftmost match: try every start offset in turn; the result is the
    offset of the match, the text after it and the captures *)
Fixpoint search_from (r : regex) (bol : bool) (off : nat) (s : string)
  : option (nat * string * caps) :=
  match bt r bol s [] accept with
  | Some (rest, cs) => Some (off, rest, cs)
  | None =>
      match s with
      | EmptyString => None
      | String _ s' => search_from r false (S off) s'
      end
  end.

Definition exec (r : regex) (s : string) : option (nat * string * caps) :=
  search_from r true 0 s.

(** [RegExp.prototype.test] *)
Definition test (r : regex) (s : string) : bool :=
  match exec r s with Some _ => true | None => false end.

(** [s.replace(r, "")] for a non-global [r] *)
Definition remove_first (r : regex) (s : string) : string :=
  match exec r s with
  | Some (off, rest, _) => Str.take off s ++ rest
  | None => s
  end.
End Matcher.

(** the literal text [p] *)
Fixpoint lits (p : string) : regex :=
  match p with
  | EmptyString => Eps
  | String c p' => Seq (Chr (CLit c)) (lits p')
  end.

(** [a|b|...] *)
Fixpoint alts (rs : list regex) : regex :=
  match rs with
  | [] => Eps
  | [r] => r
  | r :: rs' => Alt r (alts rs')
  end.

End Re.

(* ================================================================= *)
(** ** Errors

    [index.js] throws [Error] objects that differ in their message only;
    the constructors are the kinds of the error taxonomy, one per message. *)

Inductive error : Type :=
| InvalidReference (input : string)   (* "Invalid GitHub repository format: ..." *)
| RepositoryNotFound                  (* "Repository o/r not found or has no releases" *)
| ReleaseNotFound                     (* "Release v not found for o/r" *)
| ApiError (status : Z)               (* "GitHub API returned status code ..." *)
| MalformedResponse                   (* "Failed to parse GitHub API response: ..." *)
| NetworkError                        (* the request's "error" event *)
| UnsupportedPlatform (p : string)    (* "Unsupported platform: ..." *)
| UnsupportedArchitecture (a : string)(* "Unsupported architecture: ..." *)
| RegExpSyntaxError                   (* thrown by [new RegExp] *)
| TypeError                           (* property access or call on a non-object *)
| NoMatchingAsset                     (* "No matching binary found for ..." *)
| TooManyRedirects                    (* "Too many redirects" *)
| DownloadFailed (status : Z)         (* "Failed to download: server returned ..." *)
| StreamError                         (* the "error" event of a stream *)
| ArchiveExtractionFailed             (* thrown by the tar or zip library *)
| BinaryNotFound                      (* "Could not find binary in extracted archive" *)
| FsError                             (* a rejected [fs.promises] call *)
| ChildProcessError                   (* the child's "error" event *)
| NonZeroExit (code : Z).             (* "Process exited with code ..." *)

Inductive res (A : Type) : Type :=
| Ok (a : A)
| Err (e : error).
Arguments Ok {A} a.
Arguments Err {A} e.

(* ================================================================= *)
(** ** [parseRepoURL] *)

Record RepositoryReference : Type := mkRef {
  owner : string;
  repo : string;
  version : string
}.

(** [[\w.-]] *)
Definition name_class : Re.cclass :=
  Re.CUnion Re.CWord (Re.CUnion (Re.CLit ".") (Re.CLit "-")).

(** [/^github\.com\/([\w.-]+)\/([\w.-]+)(?:@([\w.-]+))?$/], from its end:
    [(?:@([\w.-]+))?$], then [\/([\w.-]+)] before it, then the whole *)
Definition version_tail : Re.regex :=
  Re.Seq (Re.Opt (Re.Seq (Re.Chr (Re.CLit "@")) (Re.Grp 3 (Re.Plus name_class)))) Re.Eol.

Definition repo_tail : Re.regex :=
  Re.Seq (Re.Chr (Re.CLit "/")) (Re.Seq (Re.Grp 2 (Re.Plus name_class)) version_tail).

Definition repo_regex : Re.regex :=
  Re.Seq Re.Bol
 (Re.Seq (Re.lits "github.com/")
 (Re.Seq (Re.Grp 1 (Re.Plus name_class)) repo_tail)).

Definition parseRepoURL (input : string) : res RepositoryReference :=
  match Re.exec false repo_regex input with
  | None => Err (InvalidReference input)
  | Some (_, _, m) =>
      match Re.cap 1 m, Re.cap 2 m with
      | Some o, Some r =>
          Ok (mkRef o r (match Re.cap 3 m with Some v => v | None => "latest" end))
      | _, _ => Err (InvalidReference input)
      end
  end.

(* ================================================================= *)
(** ** [new RegExp(source, flags)]

    [findMatchingAsset] builds its patterns at run time from template
    literals.  The constructor is modelled for the pattern characters such a
    source can contain here: ordinary characters, [.], [( | )], [?], [^] and
    [$].  A source using other syntax characters is outside the fragment and
    is reported as a syntax error. *)

Module RegExp.
Import Re.

(** the alternatives completed so far and the terms of the current one,
    both most recent first *)
Record frame : Type := mkFrame {
  alts_rev : list regex;
  cur_rev : list regex
}.

Definition seq_of (cur : list regex) : regex :=
  fold_left (fun acc t => Seq t acc) cur Eps.

Definition disj_of (fr : frame) : regex :=
  fold_left (fun acc a => Alt a acc) (alts_rev fr) (seq_of (cur_rev fr)).

Definition push_term (t : regex) (fr : frame) : frame :=
  mkFrame (alts_rev fr) (t :: cur_rev fr).

Definition unsupported (c : ascii) : bool :=
  existsb (fun d => (c =? d)%char) ["*"; "+"; "["; "]"; "{"; "}"; "\"]%char.

(** one pass over the source, with the stack of the enclosing groups (each
    with its number) and the number of the next group *)
Fixpoint parse (src : string) (fr : frame) (stack : list (nat * frame)) (next : nat)
  : option regex :=
  match src with
  | EmptyString =>
      match stack with
      | [] => Some (disj_of fr)
      | _ :: _ => None
      end
  | String c src' =>
      if (c =? "(")%char then
        parse src' (mkFrame [] []) ((next, fr) :: stack) (S next)
      else if (c =? ")")%char then
        match stack with
        | [] => None
        | (i, outer) :: stack' =>
            parse src' (push_term (Grp i (disj_of fr)) outer) stack' next
        end
      else if (c =? "|")%char then
        parse src' (mkFrame (seq_of (cur_rev fr) :: alts_rev fr) []) stack next
      else if (c =? "?")%char then
        match cur_rev fr with
        | [] | Bol :: _ | Eol :: _ | Opt _ :: _ => None
        | t :: ts => parse src' (mkFrame (alts_rev fr) (Opt t :: ts)) stack next
        end
      else if (c =? ".")%char then parse src' (push_term (Chr CAny) fr) stack next
      else if (c =? "^")%char then parse src' (push_term Bol fr) stack next
      else if (c =? "$")%char then parse src' (push_term Eol fr) stack next
      else if unsupported c then None
      else parse src' (push_term (Chr (CLit c)) fr) stack next
  end.

Definition compile (src : string) : option regex :=
  parse src (mkFrame [] []) [] 1.

End RegExp.

(* ================================================================= *)
(** ** [getSystemInfo] *)

Record SystemInfo : Type := mkSys {
  osName : string;
  archName : string;
  platform : string
}.

(** [os_platform] and [os_arch] are the values of [os.platform()] and
    [os.arch()] *)
Definition getSystemInfo (os_platform os_arch : string) : res SystemInfo :=
  match
    (if os_platform =? "darwin" then Some "Darwin"
     else if os_platform =? "linux" then Some "Linux"
     else if os_platform =? "win32" then Some "Windows"
     else None)
  with
  | None => Err (UnsupportedPlatform os_platform)
  | Some osName =>
      match
        (if os_arch =? "x64" then Some "x86_64"
         else if os_arch =? "arm64" then Some "arm64"
         else if os_arch =? "ia32" then Some "386"
         else None)
      with
      | None => Err (UnsupportedArchitecture os_arch)
      | Some archName => Ok (mkSys osName archName os_platform)
      end
  end.

(* ================================================================= *)
(** ** [findMatchingAsset] *)

Record asset : Type := mkAsset {
  name : string;
  browser_download_url : string
}.

(** the asset found, spread into a new object with one flag set *)
Record MatchedAsset : Type := mkMatched {
  found : asset;
  isTar : bool;
  isZip : bool;
  isBinary : bool
}.

Definition osPattern (systemInfo : SystemInfo) : string :=
  if platform systemInfo =? "darwin" then "(Darwin|macOS)" else osName systemInfo.

(** The template literals of the source, after the escapes of the literal
    are cooked: [\.] in a template literal is the one character [.]. *)
Definition tarSource (systemInfo : SystemInfo) (repo : string) : string :=
  repo ++ "_" ++ osPattern systemInfo ++ "_" ++ archName systemInfo ++ "(.tar.gz|.tgz)$".

Definition zipSource (systemInfo : SystemInfo) (repo : string) : string :=
  repo ++ "_" ++ osPattern systemInfo ++ "_" ++ archName systemInfo ++ ".zip$".

Definition binaryExt (systemInfo : SystemInfo) : string :=
  if platform systemInfo =? "win32" then ".exe" else "".

Definition binarySource (systemInfo : SystemInfo) (repo : string) : string :=
  repo ++ "(_" ++ osPattern systemInfo ++ "_" ++ archName systemInfo ++ ")?"
       ++ binaryExt systemInfo ++ "$".

(** [assets.find((asset) => re.test(asset.name))] with the [i] flag *)
Definition findByName (re : Re.regex) (assets : list asset) : option asset :=
  find (fun a => Re.test true re (name a)) assets.

Definition findMatchingAsset (assets : list asset) (systemInfo : SystemInfo)
    (repo : string) : res MatchedAsset :=
  match RegExp.compile (tarSource systemInfo repo) with
  | None => Err RegExpSyntaxError
  | Some tarRegex =>
  match findByName tarRegex assets with
  | Some tarAsset => Ok (mkMatched tarAsset true false false)
  | None =>
  match RegExp.compile (zipSource systemInfo repo) with
  | None => Err RegExpSyntaxError
  | Some zipRegex =>
  match findByName zipRegex assets with
  | Some zipAsset => Ok (mkMatched zipAsset false true false)
  | None =>
  match RegExp.compile (binarySource systemInfo repo) with
  | None => Err RegExpSyntaxError
  | Some binaryRegex =>
  match findByName binaryRegex assets with
  | Some binaryAsset => Ok (mkMatched binaryAsset false false true)
  | None => Err NoMatchingAsset
  end end end end end end.

(* ================================================================= *)
(** ** JSON

    [JSON.parse]: a recursive-descent decoder of the JSON grammar.  Numbers
    keep their source text; a [\uXXXX] escape is decoded to the UTF-8 bytes
    of its code unit. *)

Module Json.

#[warning="-register-all"]
Inductive value : Type :=
| JNull
| JBool (b : bool)
| JNum (text : string)
| JStr (s : string)
| JArr (items : list value)
| JObj (fields : list (string * value)).

Definition dquote : ascii := ascii_of_N 34.
Definition backslash : ascii := ascii_of_N 92.

Definition is_ws (c : ascii) : bool :=
  let n := Str.code c in ((n =? 32) || (n =? 9) || (n =? 10) || (n =? 13))%N.

Fixpoint skip_ws (s : string) : string :=
  match s with
  | String c s' => if is_ws c then skip_ws s' else s
  | EmptyString => s
  end.

(** the longest prefix of characters satisfying [p], and the rest *)
Fixpoint span (p : ascii -> bool) (s : string) : string * string :=
  match s with
  | String c s' =>
      if p c then let (a, b) := span p s' in (String c a, b) else (EmptyString, s)
  | EmptyString => (EmptyString, EmptyString)
  end.

Definition hex_digit (c : ascii) : option N :=
  let n := Str.code c in
  if Str.is_digit c then Some (n - 48)%N
  else if ((97 <=? n) && (n <=? 102))%N then Some (n - 87)%N
  else if ((65 <=? n) && (n <=? 70))%N then Some (n - 55)%N
  else None.

(** the UTF-8 bytes of a code unit below 0x10000 *)
Definition utf8 (n : N) : string :=
  if (n <? 128)%N then String (ascii_of_N n) EmptyString
  else if (n <? 2048)%N then
    String (ascii_of_N (192 + n / 64)) (String (ascii_of_N (128 + n mod 64)) EmptyString)
  else
    String (ascii_of_N (224 + n / 4096))
   (String (ascii_of_N (128 + (n / 64) mod 64))
   (String (ascii_of_N (128 + n mod 64)) EmptyString)).

Definition simple_escape (c : ascii) : option ascii :=
  if (c =? dquote)%char then Some dquote
  else if (c =? backslash)%char then Some backslash
  else if (c =? "/")%char then Some "/"%char
  else if (c =? "b")%char then Some (ascii_of_N 8)
  else if (c =? "f")%char then Some (ascii_of_N 12)
  else if (c =? "n")%char then Some (ascii_of_N 10)
  else if (c =? "r")%char then Some (ascii_of_N 13)
  else if (c =? "t")%char then Some (ascii_of_N 9)
  else None.

(** the characters of a string literal after its opening quote, up to and
    including the closing quote *)
Fixpoint parse_chars (s : string) : option (string * string) :=
  match s with
  | EmptyString => None
  | String c s' =>
      if (c =? dquote)%char then Some (EmptyString, s')
      else if (Str.code c <? 32)%N then None
      else if (c =? backslash)%char then
        match s' with
        | EmptyString => None
        | String e s'' =>
            if (e =? "u")%char then
              match s'' with
              | String h1 (String h2 (String h3 (String h4 s4))) =>
                  match hex_digit h1, hex_digit h2, hex_digit h3, hex_digit h4 with
                  | Some a, Some b, Some c', Some d =>
                      match parse_chars s4 with
                      | Some (t, r) =>
                          Some (utf8 (4096 * a + 256 * b + 16 * c' + d)%N ++ t, r)
                      | None => None
                      end
                  | _, _, _, _ => None
                  end
              | _ => None
              end
            else
              match simple_escape e with
              | Some x =>
                  match parse_chars s'' with
                  | Some (t, r) => Some (String x t, r)
                  | None => None
                  end
              | None => None
              end
        end
      else
        match parse_chars s' with
        | Some (t, r) => Some (String c t, r)
        | None => None
        end
  end.

(** a number: optional minus, an integer part without a leading zero,
    an optional fraction and an optional exponent *)
Definition parse_number (s : string) : option (string * string) :=
  let (sign, s1) :=
    match s with
    | String "-"%char r => ("-", r)
    | _ => ("", s)
    end in
  let (int, s2) := span Str.is_digit s1 in
  let int_ok :=
    match int with
    | EmptyString => false
    | String "0"%char (String _ _) => false
    | _ => true
    end in
  if negb int_ok then None else
  let frac :=
    match s2 with
    | String "."%char r =>
        let (ds, r') := span Str.is_digit r in
        if Str.nonempty ds then Some ("." ++ ds, r') else None
    | _ => Some ("", s2)
    end in
  match frac with
  | None => None
  | Some (fr, s3) =>
      let exp :=
        match s3 with
        | String e r =>
            if ((e =? "e") || (e =? "E"))%char then
              let (sg, r1) :=
                match r with
                | String "+"%char r' => ("+", r')
                | String "-"%char r' => ("-", r')
                | _ => ("", r)
                end in
              let (ds, r2) := span Str.is_digit r1 in
              if Str.nonempty ds then Some (String e sg ++ ds, r2) else None
            else Some ("", s3)
        | EmptyString => Some ("", s3)
        end in
      match exp with
      | None => None
      | Some (ex, s4) => Some (sign ++ int ++ fr ++ ex, s4)
      end
  end.

Definition literal (word : string) (v : value) (s : string) : option (value * string) :=
  if Str.startsWith s word
  then Some (v, substring (String.length word) (String.length s - String.length word) s)
  else None.

Fixpoint parse_value (fuel : nat) (s : string) : option (value * string) :=
  match fuel with
  | O => None
  | S fuel' =>
      match skip_ws s with
      | EmptyString => None
      | String c r =>
          if (c =? "n")%char then literal "null" JNull (String c r)
          else if (c =? "t")%char then literal "true" (JBool true) (String c r)
          else if (c =? "f")%char then literal "false" (JBool false) (String c r)
          else if (c =? dquote)%char then
            match parse_chars r with
            | Some (t, r') => Some (JStr t, r')
            | None => None
            end
          else if (c =? "[")%char then
            match skip_ws r with
            | String "]"%char r' => Some (JArr [], r')
            | _ =>
                match parse_items fuel' r with
                | Some (vs, r') => Some (JArr vs, r')
                | None => None
                end
            end
          else if (c =? "{")%char then
            match skip_ws r with
            | String "}"%char r' => Some (JObj [], r')
            | _ =>
                match parse_members fuel' r with
                | Some (fs, r') => Some (JObj fs, r')
                | None => None
                end
            end
          else
            match parse_number (String c r) with
            | Some (t, r') => Some (JNum t, r')
            | None => None
            end
      end
  end

(** [value (, value)* ]] *)
with parse_items (fuel : nat) (s : string) : option (list value * string) :=
  match fuel with
  | O => None
  | S fuel' =>
      match parse_value fuel' s with
      | None => None
      | Some (v, r) =>
          match skip_ws r with
          | String "]"%char r' => Some ([v], r')
          | String ","%char r' =>
              match parse_items fuel' r' with
              | Some (vs, r'') => Some (v :: vs, r'')
              | None => None
              end
          | _ => None
          end
      end
  end

(** [string : value (, string : value)* }] *)
with parse_members (fuel : nat) (s : string) : option (list (string * value) * string) :=
  match fuel with
  | O => None
  | S fuel' =>
      match skip_ws s with
      | String q r =>
          if negb (q =? dquote)%char then None else
          match parse_chars r with
          | None => None
          | Some (k, r1) =>
              match skip_ws r1 with
              | String ":"%char r2 =>
                  match parse_value fuel' r2 with
                  | None => None
                  | Some (v, r3) =>
                      match skip_ws r3 with
                      | String "}"%char r' => Some ([(k, v)], r')
                      | String ","%char r' =>
                          match parse_members fuel' r' with
                          | Some (fs, r'') => Some ((k, v) :: fs, r'')
                          | None => None
                          end
                      | _ => None
                      end
                  end
              | _ => None
              end
          end
      | EmptyString => None
      end
  end.

(** [JSON.parse]; [None] when it throws a [SyntaxError] *)
Definition parse (s : string) : option value :=
  match parse_value (2 * String.length s + 2) s with
  | Some (v, r) => match skip_ws r with EmptyString => Some v | _ => None end
  | None => None
  end.

(** *** Writing JSON text, for the response bodies of examples *)

Fixpoint show_chars (s : string) : string :=
  match s with
  | EmptyString => EmptyString
  | String c s' =>
      if ((c =? dquote) || (c =? backslash))%char
      then String backslash (String c (show_chars s'))
      else String c (show_chars s')
  end.

Definition quoted (s : string) : string :=
  String dquote (show_chars s ++ String dquote EmptyString).

Fixpoint show (v : value) : string :=
  match v with
  | JNull => "null"
  | JBool true => "true"
  | JBool false => "false"
  | JNum t => t
  | JStr s => quoted s
  | JArr vs =>
      "[" ++ (fix items (l : list value) : string :=
                match l with
                | [] => ""
                | [x] => show x
                | x :: l' => show x ++ "," ++ items l'
                end) vs ++ "]"
  | JObj fs =>
      "{" ++ (fix members (l : list (string * value)) : string :=
                match l with
                | [] => ""
                | [(k, x)] => quoted k ++ ":" ++ show x
                | (k, x) :: l' => quoted k ++ ":" ++ show x ++ "," ++ members l'
                end) fs ++ "}"
  end.

End Json.

(* ================================================================= *)
(** ** JavaScript values read from a decoded response *)

Inductive jsval : Type :=
| Undefined
| J (v : Json.value).

(** the last binding of a key, as [JSON.parse] keeps it *)
Fixpoint own_property (k : string) (fields : list (string * Json.value)) : jsval :=
  match fields with
  | [] => Undefined
  | (k', v) :: fields' =>
      match own_property k fields' with
      | Undefined => if k =? k' then J v else Undefined
      | found => found
      end
  end.

(** [v.k] for a decoded [v]: [None] when the access throws a [TypeError],
    which is for [null] only; numbers, strings, booleans and arrays have no
    such property and give [undefined] *)
Definition get_property (v : Json.value) (k : string) : option jsval :=
  match v with
  | Json.JNull => None
  | Json.JObj fields => Some (own_property k fields)
  | _ => Some Undefined
  end.

(* ================================================================= *)
(** ** The file system

    A tree of directories and regular files.  A path is the list of its
    components from the root; [path.join(dir, name)] is [dir ++ [name]].
    A directory lists its entries in the order [readdir] reports them. *)

Module Fs.

Definition path := list string.

#[warning="-register-all"]
Inductive node : Type :=
| File (data : string) (mode : Z)
| Dir (entries : list (string * node)).

Definition entries_t := list (string * node).

Fixpoint assoc (k : string) (es : entries_t) : option node :=
  match es with
  | [] => None
  | (k', v) :: es' => if k =? k' then Some v else assoc k es'
  end.

(** replace the entry named [k], or add it after the others *)
Fixpoint set_entry (k : string) (v : node) (es : entries_t) : entries_t :=
  match es with
  | [] => [(k, v)]
  | (k', v') :: es' => if k =? k' then (k, v) :: es' else (k', v') :: set_entry k v es'
  end.

Fixpoint del_entry (k : string) (es : entries_t) : entries_t :=
  match es with
  | [] => []
  | (k', v') :: es' => if k =? k' then del_entry k es' else (k', v') :: del_entry k es'
  end.

Fixpoint lookup (p : path) (n : node) : option node :=
  match p with
  | [] => Some n
  | c :: p' =>
      match n with
      | File _ _ => None
      | Dir es =>
          match assoc c es with
          | Some ch => lookup p' ch
          | None => None
          end
      end
  end.

(** change what the path names: [f] sees the node there, if any, and
    answers [None] to fail, [Some None] to remove the entry and
    [Some (Some v)] to store [v]; every directory on the way must exist *)
Fixpoint alter (p : path) (f : option node -> option (option node)) (n : node)
  : option node :=
  match p with
  | [] => None
  | c :: p' =>
      match n with
      | File _ _ => None
      | Dir es =>
          match p' with
          | [] =>
              match f (assoc c es) with
              | None => None
              | Some None => Some (Dir (del_entry c es))
              | Some (Some v) => Some (Dir (set_entry c v es))
              end
          | _ :: _ =>
              match assoc c es with
              | None => None
              | Some ch =>
                  match alter p' f ch with
                  | None => None
                  | Some ch' => Some (Dir (set_entry c ch' es))
                  end
              end
          end
      end
  end.

(** [fs.promises.mkdir(p, { recursive: true })] *)
Fixpoint mkdir_p (p : path) (n : node) : option node :=
  match p with
  | [] => match n with Dir _ => Some n | File _ _ => None end
  | c :: p' =>
      match n with
      | File _ _ => None
      | Dir es =>
          let ch := match assoc c es with Some ch => ch | None => Dir [] end in
          match mkdir_p p' ch with
          | Some ch' => Some (Dir (set_entry c ch' es))
          | None => None
          end
      end
  end.

(** mode of a file created by this process: [0o666] under the usual umask *)
Definition default_mode : Z := 420.

(** [fs.promises.writeFile], and what [createWriteStream] leaves once the
    given data is written: the file is created or its contents replaced *)
Definition writeFile (p : path) (data : string) (n : node) : option node :=
  alter p (fun cur =>
    match cur with
    | Some (Dir _) => None
    | Some (File _ m) => Some (Some (File data m))
    | None => Some (Some (File data default_mode))
    end) n.

(** [fs.promises.chmod] *)
Definition chmod (p : path) (m : Z) (n : node) : option node :=
  alter p (fun cur =>
    match cur with
    | None => None
    | Some (File d _) => Some (Some (File d m))
    | Some (Dir es) => Some (Some (Dir es))
    end) n.


(** [fs.promises.readFile(p, "utf8")] *)
Definition readFile (p : path) (n : node) : option string :=
  match lookup p n with
  | Some (File d _) => Some d
  | _ => None
  end.

(** [stats.mode & 0o111] *)
Definition has_exec_bit (mode : Z) : bool := negb (Z.land mode 73 =? 0)%Z.

Inductive access_mode : Type := F_OK | X_OK.

(** [fs.promises.access(p, mode)]: [true] when it resolves.  The files of
    the cache belong to the invoking user, so [X_OK] on a file asks for the
    owner's execute bit; a directory is searchable. *)
Definition access (p : path) (m : access_mode) (n : node) : bool :=
  match lookup p n, m with
  | None, _ => false
  | Some _, F_OK => true
  | Some (File _ mode), X_OK => Z.testbit mode 6
  | Some (Dir _), X_OK => true
  end.

(** what unpacking an archive into a directory does to it: files are
    written over what is there, directories are merged *)
Fixpoint overlay (new : node) (old : option node) : node :=
  match new with
  | File d m => File d m
  | Dir es =>
      let old_es := match old with Some (Dir oes) => oes | _ => [] end in
      Dir ((fix go (l : entries_t) (acc : entries_t) : entries_t :=
              match l with
              | [] => acc
              | (k, v) :: l' => go l' (set_entry k (overlay v (assoc k acc)) acc)
              end) es old_es)
  end.

Definition unpack_into (p : path) (es : entries_t) (n : node) : option node :=
  match lookup p n with
  | Some (Dir oes) =>
      match p with
      | [] => Some (overlay (Dir es) (Some (Dir oes)))
      | _ :: _ =>
          alter p (fun cur => Some (Some (overlay (Dir es) cur))) n
      end
  | _ => None
  end.

(** *** Path text, as the marker files hold it *)

Fixpoint string_of_path (p : path) : string :=
  match p with
  | [] => ""
  | c :: p' => "/" ++ c ++ string_of_path p'
  end.

(** split at [/]; empty components are dropped *)
Fixpoint split_acc (s : string) (cur : string) : path :=
  match s with
  | EmptyString => if Str.nonempty cur then [cur] else []
  | String c s' =>
      if (c =? "/")%char
      then ((if Str.nonempty cur then [cur] else []) ++ split_acc s' "")%list
      else split_acc s' (cur ++ String c "")
  end.

(** the path a text names.  Only absolute paths name something: a relative
    path is resolved against the working directory, which is not part of the
    tree, and the empty text names nothing. *)
Definition resolve (s : string) : option path :=
  if Str.startsWith s "/" then Some (split_acc s "") else None.

End Fs.

(* ================================================================= *)
(** ** The world of one run

    The environment holds what the run only reads: the servers, the host,
    the archive libraries and the child process.  The world holds what it
    changes: the file system, the record of what was done, and the
    asynchronous file operations that were requested without being awaited.

    The calls of [fs.promises] are awaited where [index.js] makes them, so
    their effect is in the file system when the next statement runs.  The
    callback form [fs.unlink(path, callback)] returns at once and the
    runtime deletes the file later; [index.js] does not wait for its
    callback, so such a deletion is kept as pending. *)

(** the answer of [api.github.com] to a request: the request's "error"
    event, or a status and the whole body *)
Inductive reply : Type :=
| NoReply
| Reply (statusCode : Z) (body : string).

(** how piping the body to the destination ends: the write stream's
    "finish", or an "error" event of the write stream or of the response
    after some bytes were written *)
Inductive stream_end : Type :=
| Finished
| FileError (written : nat)
| ResponseError (written : nat).

Inductive response : Type :=
| NoResponse
| Response (statusCode : Z) (location : option string) (body : string) (fin : stream_end).

Record env : Type := mkEnv {
  api : string -> reply;                       (* by request path *)
  web : string -> response;                    (* by URL *)
  os_platform : string;                        (* os.platform() *)
  os_arch : string;                            (* os.arch() *)
  homedir : Fs.path;                           (* os.homedir() *)
  untar_gz : string -> option Fs.entries_t;    (* createGunzip + tar.extract *)
  unzip : string -> option Fs.entries_t;       (* AdmZip.extractAllTo *)
  child : string -> list string -> option Z    (* exit code, or the "error" event *)
}.

Inductive event : Type :=
| HttpsGet (url : string)
| Extracted (archive dir : Fs.path)
| Spawned (exe : string) (args : list string).

Record world : Type := mkWorld {
  fs : Fs.node;
  events : list event;
  pending : list Fs.path     (* [fs.unlink(p, cb)] called, its deletion still to come *)
}.

Definition set_fs (n : Fs.node) (w : world) : world :=
  mkWorld n (events w) (pending w).

Definition emit (e : event) (w : world) : world :=
  mkWorld (fs w) (events w ++ [e]) (pending w).

Definition request_unlink (p : Fs.path) (w : world) : world :=
  mkWorld (fs w) (events w) (pending w ++ [p]).


(** the outbound network calls of a record *)
Definition network_calls (es : list event) : nat :=
  List.length (filter (fun e => match e with HttpsGet _ => true | _ => false end) es).


(** a promise-returning computation: its settlement and the world then *)
Definition M (A : Type) : Type := world -> res A * world.

Definition ret {A} (a : A) : M A := fun w => (Ok a, w).
Definition throw {A} (e : error) : M A := fun w => (Err e, w).
Definition bind {A B} (m : M A) (f : A -> M B) : M B :=
  fun w => match m w with
           | (Ok a, w') => f a w'
           | (Err e, w') => (Err e, w')
           end.
(** [try { m } catch (err) { h }] *)
Definition catch {A} (m : M A) (h : M A) : M A :=
  fun w => match m w with
           | (Ok a, w') => (Ok a, w')
           | (Err _, w') => h w'
           end.

Notation "x <- m ;; k" := (bind m (fun x => k))
  (at level 61, m at next level, right associativity).
Notation "m ;;; k" := (bind m (fun _ => k))
  (at level 61, right associativity).

Definition lift {A} (r : res A) : M A := fun w => (r, w).

(** a file-system call that changes the tree *)
Definition fs_do (f : Fs.node -> option Fs.node) : M unit :=
  fun w => match f (fs w) with
           | Some n' => (Ok tt, set_fs n' w)
           | None => (Err FsError, w)
           end.

(** a file-system call that only reads *)
Definition fs_get {A} (f : Fs.node -> option A) : M A :=
  fun w => match f (fs w) with
           | Some a => (Ok a, w)
           | None => (Err FsError, w)
           end.

(** [await fs.promises.access(text, mode)] *)
Definition fs_access (text : string) (m : Fs.access_mode) : M unit :=
  fun w => match Fs.resolve text with
           | Some p => if Fs.access p m (fs w) then (Ok tt, w) else (Err FsError, w)
           | None => (Err FsError, w)
           end.

(* ================================================================= *)
(** ** [getLatestVersion] and [getReleaseAssets] *)

Definition api_host : string := "https://api.github.com".

(** the response callback of [getLatestVersion], with the "end" handler *)
Definition onLatestResponse (rp : reply) : res jsval :=
  match rp with
  | NoReply => Err NetworkError
  | Reply statusCode data =>
      if (statusCode =? 404)%Z then Err RepositoryNotFound
      else if negb (statusCode =? 200)%Z then Err (ApiError statusCode)
      else
        match Json.parse data with
        | None => Err MalformedResponse
        | Some release =>
            match get_property release "tag_name" with
            | None => Err MalformedResponse
            | Some tag => Ok tag
            end
        end
  end.

Definition latestPath (owner repo : string) : string :=
  "/repos/" ++ owner ++ "/" ++ repo ++ "/releases/latest".

Definition getLatestVersion (E : env) (owner repo : string) : M jsval :=
  fun w =>
    let path := latestPath owner repo in
    (onLatestResponse (api E path), emit (HttpsGet (api_host ++ path)) w).

(** the response callback of [getReleaseAssets], with the "end" handler *)
Definition onAssetsResponse (rp : reply) : res jsval :=
  match rp with
  | NoReply => Err NetworkError
  | Reply statusCode data =>
      if (statusCode =? 404)%Z then Err ReleaseNotFound
      else if negb (statusCode =? 200)%Z then Err (ApiError statusCode)
      else
        match Json.parse data with
        | None => Err MalformedResponse
        | Some release =>
            match get_property release "assets" with
            | None => Err MalformedResponse
            | Some assets => Ok assets
            end
        end
  end.

Definition assetsPath (owner repo version : string) : string :=
  if version =? "latest"
  then "/repos/" ++ owner ++ "/" ++ repo ++ "/releases/latest"
  else "/repos/" ++ owner ++ "/" ++ repo ++ "/releases/tags/" ++ version.

Definition getReleaseAssets (E : env) (owner repo version : string) : M jsval :=
  fun w =>
    let path := assetsPath owner repo version in
    (onAssetsResponse (api E path), emit (HttpsGet (api_host ++ path)) w).

(** *** From decoded values to the strings and lists the pipeline uses *)

(** [String(v)], as a template literal applies it; a number is written as
    its source text and an object as ["[object Object]"] *)
Fixpoint json_string (v : Json.value) : string :=
  match v with
  | Json.JNull => "null"
  | Json.JBool true => "true"
  | Json.JBool false => "false"
  | Json.JNum t => t
  | Json.JStr s => s
  | Json.JArr vs =>
      (fix join (l : list Json.value) : string :=
         match l with
         | [] => ""
         | [x] => match x with Json.JNull => "" | _ => json_string x end
         | x :: l' =>
             (match x with Json.JNull => "" | _ => json_string x end) ++ "," ++ join l'
         end) vs
  | Json.JObj _ => "[object Object]"
  end.

Definition js_string (v : jsval) : string :=
  match v with
  | Undefined => "undefined"
  | J x => json_string x
  end.

(** one element of [release.assets] as [findMatchingAsset] and [run] read
    it: its [name] and [browser_download_url], each as the string it is
    used as; reading them off [null] throws.  A list with a [null] element
    is refused as a whole, where the source throws once its scan reaches
    the element. *)
Definition asset_of_json (v : Json.value) : option asset :=
  match get_property v "name", get_property v "browser_download_url" with
  | Some n, Some u => Some (mkAsset (js_string n) (js_string u))
  | _, _ => None
  end.

Fixpoint assets_of_items (items : list Json.value) : option (list asset) :=
  match items with
  | [] => Some []
  | v :: items' =>
      match asset_of_json v, assets_of_items items' with
      | Some a, Some l => Some (a :: l)
      | _, _ => None
      end
  end.

(** the asset list behind [assets.find]: only an array has [find] *)
Definition asset_list (v : jsval) : res (list asset) :=
  match v with
  | J (Json.JArr items) =>
      match assets_of_items items with
      | Some l => Ok l
      | None => Err TypeError
      end
  | _ => Err TypeError
  end.

(* ================================================================= *)
(** ** [downloadFile] *)

Definition truthy_location (l : option string) : option string :=
  match l with
  | Some u => if Str.nonempty u then Some u else None
  | None => None
  end.

(** the test for a redirect: a status from 300 to 399 and a [Location]
    header; the result is the header's value *)
Definition redirectTarget (statusCode : Z) (location : option string) : option string :=
  if ((300 <=? statusCode) && (statusCode <? 400))%Z
  then truthy_location location
  else None.

(** what piping [body] into the opened destination leaves in the world,
    and how the promise settles *)
Definition pipeToFile (destPath : Fs.path) (body : string) (fin : stream_end)
    (w : world) : res unit * world :=
  match Fs.writeFile destPath "" (fs w) with
  | None =>
      (* the open fails: the write stream's "error" handler *)
      (Err StreamError, request_unlink destPath w)
  | Some _ =>
      match fin with
      | Finished =>
          match Fs.writeFile destPath body (fs w) with
          | Some n => (Ok tt, set_fs n w)
          | None => (Err StreamError, request_unlink destPath w)
          end
      | FileError written | ResponseError written =>
          (* [fs.unlink(destPath, () => {}); reject(err);] *)
          match Fs.writeFile destPath (Str.take written body) (fs w) with
          | Some n => (Err StreamError, request_unlink destPath (set_fs n w))
          | None => (Err StreamError, request_unlink destPath w)
          end
      end
  end.

(** The promise's settlement.  [redirectLimit] only ever holds [5] and the
    values below it, and [redirectLimit <= 0] is [redirectLimit = 0]. *)
Fixpoint downloadFile (E : env) (url : string) (destPath : Fs.path)
    (redirectLimit : nat) (w : world) {struct redirectLimit} : res unit * world :=
  let w := emit (HttpsGet url) w in
  match web E url with
  | NoResponse => (Err NetworkError, w)
  | Response statusCode location body fin =>
      match redirectTarget statusCode location with
      | Some target =>
          match redirectLimit with
          | O => (Err TooManyRedirects, w)
          | S limit => downloadFile E target destPath limit w
          end
      | None =>
          if negb (statusCode =? 200)%Z then (Err (DownloadFailed statusCode), w)
          else pipeToFile destPath body fin w
      end
  end.

(* ================================================================= *)
(** ** [findBinaryInDir] *)

(** [/^(readme|license|changelog|contributing)/i] *)
Definition commonNonBinary_re : Re.regex :=
  Re.Seq Re.Bol
    (Re.Grp 1 (Re.alts (map Re.lits ["readme"; "license"; "changelog"; "contributing"]))).

(** [/\.(md|txt|json|ya?ml|toml|cfg|ini|html|js|ts|css|scss|py|rb|go|rs|java|c|cpp|h|hpp)$/i] *)
Definition likelyNonBinary_re : Re.regex :=
  Re.Seq (Re.Chr (Re.CLit "."))
 (Re.Seq
    (Re.Grp 1 (Re.alts
       [Re.lits "md"; Re.lits "txt"; Re.lits "json";
        Re.Seq (Re.Chr (Re.CLit "y")) (Re.Seq (Re.Opt (Re.Chr (Re.CLit "a"))) (Re.lits "ml"));
        Re.lits "toml"; Re.lits "cfg"; Re.lits "ini"; Re.lits "html"; Re.lits "js";
        Re.lits "ts"; Re.lits "css"; Re.lits "scss"; Re.lits "py"; Re.lits "rb";
        Re.lits "go"; Re.lits "rs"; Re.lits "java"; Re.lits "c"; Re.lits "cpp";
        Re.lits "h"; Re.lits "hpp"]))
    Re.Eol).

(** [/\.exe$/i] *)
Definition exe_re : Re.regex := Re.Seq (Re.lits ".exe") Re.Eol.

(** [/^(license|copying|readme|changelog|contributing)$/i] *)
Definition exactNonBinary_re : Re.regex :=
  Re.Seq Re.Bol
 (Re.Seq
    (Re.Grp 1 (Re.alts (map Re.lits ["license"; "copying"; "readme"; "changelog"; "contributing"])))
    Re.Eol).

Definition isCommonNonBinary (file : string) : bool := Re.test true commonNonBinary_re file.
Definition isLikelyNonBinary (file : string) : bool := Re.test true likelyNonBinary_re file.

(** [file.toLowerCase().replace(/\.exe$/i, "")] *)
Definition fileBaseName (file : string) : string :=
  Re.remove_first true exe_re (Str.toLowerCase file).

(** the comparator handed to [sort] *)
Definition compareFiles (repoName a b : string) : Z :=
  let aMatchesRepo := Str.includes (Str.toLowerCase a) (Str.toLowerCase repoName) in
  let bMatchesRepo := Str.includes (Str.toLowerCase b) (Str.toLowerCase repoName) in
  if aMatchesRepo && negb bMatchesRepo then (-1)%Z
  else if negb aMatchesRepo && bMatchesRepo then 1%Z
  else
    let aIsCommonNonBinary := isCommonNonBinary a in
    let bIsCommonNonBinary := isCommonNonBinary b in
    if aIsCommonNonBinary && negb bIsCommonNonBinary then 1%Z
    else if negb aIsCommonNonBinary && bIsCommonNonBinary then (-1)%Z
    else 0%Z.

(** [Array.prototype.sort] is stable: equal elements keep their order *)
Fixpoint insert_sorted {A} (cmp : A -> A -> Z) (x : A) (l : list A) : list A :=
  match l with
  | [] => [x]
  | y :: l' => if (cmp x y <=? 0)%Z then x :: l else y :: insert_sorted cmp x l'
  end.

Definition stable_sort {A} (cmp : A -> A -> Z) (l : list A) : list A :=
  fold_right (insert_sorted cmp) [] l.

(** what [stat] tells of a directory entry; for a directory, the scan of
    it that the loop may start *)
Inductive entry_kind : Type :=
| IsDirectory (descend : Fs.path -> nat -> option Fs.path -> option Fs.path)
| IsFile (mode : Z).

(** the first three disjuncts of the [if] on an accepted candidate: the
    name is the repository name, contains it, or is an [.exe] name
    containing it *)
Definition matchesRepoName (repoName file : string) : bool :=
  let base := fileBaseName file in
  let repoNameLower := Str.toLowerCase repoName in
  (base =? repoNameLower)
  || Str.includes base repoNameLower
  || (Str.endsWith file ".exe" && Str.includes base repoNameLower).

(** the fourth disjunct: a name without a dot, other than two fixed ones *)
Definition plainName (file : string) : bool :=
  negb (Str.includes file ".") && negb (file =? "LICENSE") && negb (file =? "COPYING").

(** the condition of the [if] on an accepted candidate *)
Definition goodMatch (repoName file : string) : bool :=
  matchesRepoName repoName file || plainName file.

(** [if (!binaryPath) { binaryPath = filePath; }] *)
Definition keep_if_unset (binaryPath : option Fs.path) (filePath : Fs.path) : option Fs.path :=
  match binaryPath with
  | None => Some filePath
  | Some _ => binaryPath
  end.

(** how one round of a [for] loop ends *)
Inductive ctl : Type := Next | Break.

(** one round of the loop of [searchDir]: the new [binaryPath] and whether
    the loop goes on *)
Definition visit (repoName : string) (currentDir : Fs.path) (depth : nat)
    (file : string) (k : entry_kind) (binaryPath : option Fs.path)
  : ctl * option Fs.path :=
  match binaryPath with
  | Some _ => (Break, binaryPath)
  | None =>
      let filePath := (currentDir ++ [file])%list in
      match k with
      | IsDirectory descend => (Next, descend filePath (S depth) binaryPath)
      | IsFile mode =>
          if Fs.has_exec_bit mode then
            if negb (isLikelyNonBinary file) && negb (isCommonNonBinary file) then
              if goodMatch repoName file then (Break, Some filePath)
              else (Next, keep_if_unset binaryPath filePath)
            else (Next, binaryPath)
          else (Next, binaryPath)
      end
  end.

Fixpoint scan (repoName : string) (currentDir : Fs.path) (depth : nat)
    (sortedFiles : list (string * entry_kind)) (binaryPath : option Fs.path)
  : option Fs.path :=
  match sortedFiles with
  | [] => binaryPath
  | (file, k) :: rest =>
      match visit repoName currentDir depth file k binaryPath with
      | (Break, bp) => bp
      | (Next, bp) => scan repoName currentDir depth rest bp
      end
  end.

Definition sortFiles (repoName : string) (files : list (string * entry_kind))
  : list (string * entry_kind) :=
  stable_sort (fun a b => compareFiles repoName (fst a) (fst b)) files.

(** [searchDir(currentDir, depth)] on the directory [n]; the result is the
    value of the shared [binaryPath] afterwards *)
Fixpoint searchDir (repoName : string) (n : Fs.node) (currentDir : Fs.path)
    (depth : nat) (binaryPath : option Fs.path) {struct n} : option Fs.path :=
  match n with
  | Fs.File _ _ => binaryPath
  | Fs.Dir es =>
      if (3 <? depth)%nat then binaryPath
      else
        let files :=
          map (fun e : string * Fs.node =>
                 (fst e,
                  match snd e with
                  | Fs.Dir _ => IsDirectory (fun p d bp => searchDir repoName (snd e) p d bp)
                  | Fs.File _ m => IsFile m
                  end)) es in
        scan repoName currentDir depth (sortFiles repoName files) binaryPath
  end.

(** the test of the second pass on a file name *)
Definition looseCandidate (file : string) : bool :=
  (negb (Str.includes file ".") || Str.endsWith file ".exe")
  && negb (Re.test true exactNonBinary_re file).

Definition looseRepoMatch (repoName file : string) : bool :=
  (fileBaseName file =? Str.toLowerCase repoName)
  || Str.includes (Str.toLowerCase file) (Str.toLowerCase repoName).

(** [finalSearch(currentDir)] on the directory [n]: the value returned and
    the value of the shared [binaryPath] afterwards *)
Fixpoint finalSearch (repoName : string) (n : Fs.node) (currentDir : Fs.path)
    (binaryPath : option Fs.path) {struct n} : option Fs.path * option Fs.path :=
  match n with
  | Fs.File _ _ => (binaryPath, binaryPath)
  | Fs.Dir es =>
      (fix loop (files : Fs.entries_t) (binaryPath : option Fs.path)
         : option Fs.path * option Fs.path :=
         match files with
         | [] => (binaryPath, binaryPath)
         | (file, ch) :: rest =>
             let filePath := (currentDir ++ [file])%list in
             match ch with
             | Fs.Dir _ =>
                 match finalSearch repoName ch filePath binaryPath with
                 | (Some result, bp) => (Some result, bp)
                 | (None, bp) => loop rest bp
                 end
             | Fs.File _ _ =>
                 if looseCandidate file then
                   if looseRepoMatch repoName file then (Some filePath, binaryPath)
                   else loop rest (keep_if_unset binaryPath filePath)
                 else loop rest binaryPath
             end
         end) es binaryPath
  end.

(** the two passes: the path found, if any *)
Definition locate (repoName : string) (n : Fs.node) (dir : Fs.path) : option Fs.path :=
  match searchDir repoName n dir 0 None with
  | Some p => Some p
  | None => fst (finalSearch repoName n dir None)
  end.

Definition findBinaryInDir (dir : Fs.path) (repoName : string) : M string :=
  fun w =>
    match Fs.lookup dir (fs w) with
    | Some (Fs.Dir es) =>
        match locate repoName (Fs.Dir es) dir with
        | None => (Err BinaryNotFound, w)
        | Some binaryPath =>
            match Fs.chmod binaryPath 493 (fs w) with
            | Some n => (Ok (Fs.string_of_path binaryPath), set_fs n w)
            | None => (Err FsError, w)
            end
        end
    | _ => (Err FsError, w)
    end.

(* ================================================================= *)
(** ** [extractTarGz] and [extractZip] *)

Definition extractWith (unpack : string -> option Fs.entries_t)
    (archivePath extractDir : Fs.path) (repoName : string) : M string :=
  fs_do (Fs.mkdir_p extractDir) ;;;
  (fun w =>
     match Fs.readFile archivePath (fs w) with
     | None => (Err FsError, w)
     | Some data =>
         match unpack data with
         | None => (Err ArchiveExtractionFailed, w)
         | Some es =>
             match Fs.unpack_into extractDir es (fs w) with
             | Some n => (Ok tt, emit (Extracted archivePath extractDir) (set_fs n w))
             | None => (Err ArchiveExtractionFailed, w)
             end
         end
     end) ;;;
  findBinaryInDir extractDir repoName.

Definition extractTarGz (E : env) := extractWith (untar_gz E).
Definition extractZip (E : env) := extractWith (unzip E).

(* ================================================================= *)
(** ** [run] *)

Definition cacheDir (E : env) : Fs.path := (homedir E ++ [".binrun"; "cache"])%list.

Definition binDir (E : env) (owner repo actualVersion : string) : Fs.path :=
  (cacheDir E ++ [(owner ++ "_" ++ repo ++ "_" ++ actualVersion)%string])%list.

(** the [try] block on the whole-entry marker *)
Definition tryCachedBinary (cachedBinaryPathFile : Fs.path) : M string :=
  cachedPath <- fs_get (Fs.readFile cachedBinaryPathFile) ;;
  fs_access cachedPath Fs.X_OK ;;;
  ret cachedPath.

(** the [try] block on the extraction marker *)
Definition tryExtractedBinary (extractDir : Fs.path) : M string :=
  extractedBinaryPath <-
    fs_get (Fs.readFile (extractDir ++ [".extracted_binary_path"])%list) ;;
  fs_access extractedBinaryPath Fs.F_OK ;;;
  ret extractedBinaryPath.

(** [stats.size > 0] behind its [try]: a missing file needs the download,
    and so does an empty one; a directory has a size above zero *)
Definition needToDownload (binaryPath : Fs.path) (n : Fs.node) : bool :=
  match Fs.lookup binaryPath n with
  | Some (Fs.File data _) => Nat.eqb (String.length data) 0
  | Some (Fs.Dir _) => false
  | None => true
  end.

(** [fs.promises.chmod(text, 0o755)] *)
Definition chmod_text (text : string) : M unit :=
  fun w =>
    match Fs.resolve text with
    | Some p => fs_do (Fs.chmod p 493) w
    | None => (Err FsError, w)
    end.

(** the [catch] block of the whole-entry marker: download, extraction and
    search as far as they are needed, and the marker written *)
Definition resolveBinary (E : env) (repo : string) (asset : MatchedAsset)
    (binDir : Fs.path) : M string :=
  let binaryPath := (binDir ++ [name (found asset)])%list in
  let extractDir := (binDir ++ ["bin"])%list in
  let cachedBinaryPathFile := (binDir ++ [".binary_path"])%list in
  (fun w =>
     if needToDownload binaryPath (fs w)
     then downloadFile E (browser_download_url (found asset)) binaryPath 5 w
     else (Ok tt, w)) ;;;
  executablePath <-
    (if isTar asset || isZip asset then
       extractedBinaryPath <-
         catch (tryExtractedBinary extractDir)
           (fs_do (Fs.mkdir_p extractDir) ;;;
            extractedBinaryPath <-
              (if isTar asset
               then extractTarGz E binaryPath extractDir repo
               else extractZip E binaryPath extractDir repo) ;;
            fs_do (Fs.writeFile (extractDir ++ [".extracted_binary_path"])%list
                     extractedBinaryPath) ;;;
            ret extractedBinaryPath) ;;
       chmod_text extractedBinaryPath ;;;
       ret extractedBinaryPath
     else
       fs_do (Fs.chmod binaryPath 493) ;;;
       ret (Fs.string_of_path binaryPath)) ;;
  fs_do (Fs.writeFile cachedBinaryPathFile executablePath) ;;;
  ret executablePath.

(** [spawn] and the promise on the child's "close" and "error" events *)
Definition spawnAndWait (E : env) (executablePath : string) (args : list string) : M unit :=
  fun w =>
    let w := emit (Spawned executablePath args) w in
    match child E executablePath args with
    | Some 0%Z => (Ok tt, w)
    | Some code => (Err (NonZeroExit code), w)
    | None => (Err ChildProcessError, w)
    end.

(** [args] is [process.argv.slice(3)] *)
Definition run (E : env) (repoInput : string) (args : list string) : M unit :=
  ref <- lift (parseRepoURL repoInput) ;;
  actualVersion <-
    (if version ref =? "latest"
     then v <- getLatestVersion E (owner ref) (repo ref) ;; ret (js_string v)
     else ret (version ref)) ;;
  assets <- getReleaseAssets E (owner ref) (repo ref) (version ref) ;;
  systemInfo <- lift (getSystemInfo (os_platform E) (os_arch E)) ;;
  assetList <- lift (asset_list assets) ;;
  asset <- lift (findMatchingAsset assetList systemInfo (repo ref)) ;;
  fs_do (Fs.mkdir_p (cacheDir E)) ;;;
  let binDir := binDir E (owner ref) (repo ref) actualVersion in
  fs_do (Fs.mkdir_p binDir) ;;;
  executablePath <-
    catch (tryCachedBinary (binDir ++ [".binary_path"])%list)
          (resolveBinary E (repo ref) asset binDir) ;;
  spawnAndWait E executablePath args.

(* ================================================================= *)
(** ** Notions of the specification, and sample hosts and releases *)

(** a name of the reference grammar: one or more of letters, digits, [_],
    [.] and [-] *)
Definition name_char (c : ascii) : bool :=
  Re.is_word c || (c =? ".")%char || (c =? "-")%char.

Definition valid_name (s : string) : bool := Str.nonempty s && Str.all name_char s.

(** the text after the repository name: nothing, or [@] and a version *)
Definition version_suffix (version : option string) : string :=
  match version with
  | Some v => "@" ++ v
  | None => ""
  end.

(** the text [github.com/<owner>/<repo>[@<version>]] *)
Definition reference_text (owner repo : string) (version : option string) : string :=
  "github.com/" ++ owner ++ "/" ++ repo ++ version_suffix version.

(** the captures the version suffix adds to those before it *)
Definition version_capture (version : option string) (cs : Re.caps) : Re.caps :=
  match version with
  | Some v => (3, v) :: cs
  | None => cs
  end.

(** the version of the parsed reference *)
Definition version_or_latest (version : option string) : string :=
  match version with
  | Some v => v
  | None => "latest"
  end.

Definition valid_version (version : option string) : bool :=
  match version with
  | Some v => valid_name v
  | None => true
  end.

(** the URL reached from [url] over exactly [n] redirects *)
Fixpoint followRedirects (E : env) (n : nat) (url : string) : option string :=
  match n with
  | O => Some url
  | S n' =>
      match web E url with
      | Response statusCode location _ _ =>
          match redirectTarget statusCode location with
          | Some target => followRedirects E n' target
          | None => None
          end
      | NoResponse => None
      end
  end.

(** the path a marker holds names something / names something executable *)
Definition names_existing (text : string) (n : Fs.node) : bool :=
  match Fs.resolve text with
  | Some p => match Fs.lookup p n with Some _ => true | None => false end
  | None => false
  end.

Definition names_executable (text : string) (n : Fs.node) : bool :=
  match Fs.resolve text with
  | Some p =>
      match Fs.lookup p n with
      | Some (Fs.File _ mode) => Z.testbit mode 6
      | Some (Fs.Dir _) => true
      | None => false
      end
  | None => false
  end.

(** directories [ds] nested in one another, the innermost holding [leaf] *)
Fixpoint nest (ds : list string) (leaf : Fs.entries_t) : Fs.node :=
  match ds with
  | [] => Fs.Dir leaf
  | d :: ds' => Fs.Dir [(d, nest ds' leaf)]
  end.

Definition linux_x64 : SystemInfo := mkSys "Linux" "x86_64" "linux".
Definition darwin_arm64 : SystemInfo := mkSys "Darwin" "arm64" "darwin".

(** a host whose latest release is the empty JSON object *)
Definition empty_release_host : env :=
  mkEnv (fun _ => Reply 200 "{}") (fun _ => NoResponse) "linux" "x64" ["home"; "u"]
        (fun _ => None) (fun _ => None) (fun _ _ => None).

(** a host where [https://dl/5] is five redirects away from the file at
    [https://dl/0], whose transfer ends as [fin], and where [https://dl/loop]
    redirects to itself *)
Definition hops_host (fin : stream_end) : env :=
  mkEnv (fun _ => NoReply)
        (fun u =>
           if u =? "https://dl/5" then Response 302 (Some "https://dl/4") "" Finished
           else if u =? "https://dl/4" then Response 301 (Some "https://dl/3") "" Finished
           else if u =? "https://dl/3" then Response 307 (Some "https://dl/2") "" Finished
           else if u =? "https://dl/2" then Response 308 (Some "https://dl/1") "" Finished
           else if u =? "https://dl/1" then Response 303 (Some "https://dl/0") "" Finished
           else if u =? "https://dl/0" then Response 200 None "BINARY-DATA" fin
           else if u =? "https://dl/loop" then Response 302 (Some "https://dl/loop") "" Finished
           else Response 404 None "" Finished)
        "linux" "x64" ["home"; "u"]
        (fun _ => None) (fun _ => None) (fun _ _ => None).

(** a world with an empty directory [/cache] *)
Definition empty_cache_world : world :=
  mkWorld (Fs.Dir [("cache", Fs.Dir [])]) [] [].

(** an unpacked archive at [/x] whose only file is [LICENSE-MIT], not
    executable, five directories down *)
Definition license_only_world : world :=
  mkWorld
    (Fs.Dir [("x", nest ["a"; "b"; "c"; "d"; "e"] [("LICENSE-MIT", Fs.File "MIT License" 420)])])
    [] [].

(** the release [v1.2.0] of [acme/widget], with an archive for two platforms *)
Definition widget_release : string :=
  Json.show
    (Json.JObj
       [("tag_name", Json.JStr "v1.2.0");
        ("assets",
         Json.JArr
           [Json.JObj [("name", Json.JStr "widget_Darwin_arm64.tar.gz");
                       ("browser_download_url", Json.JStr "https://dl/darwin")];
            Json.JObj [("name", Json.JStr "widget_Linux_x86_64.tar.gz");
                       ("browser_download_url", Json.JStr "https://dl/linux")]])]).

(** a Darwin/arm64 host, the API serving that release, and the archive one
    redirect away; the archive unpacks to [widget], executable, and
    [README.md] *)
Definition widget_host : env :=
  mkEnv
    (fun p =>
       if p =? "/repos/acme/widget/releases/tags/v1.2.0" then Reply 200 widget_release
       else Reply 404 "")
    (fun u =>
       if u =? "https://dl/darwin" then Response 302 (Some "https://cdn/darwin") "" Finished
       else if u =? "https://cdn/darwin" then Response 200 None "TARDATA" Finished
       else Response 404 None "" Finished)
    "darwin" "arm64" ["home"; "u"]
    (fun data =>
       if data =? "TARDATA"
       then Some [("widget", Fs.File "ELF" 493); ("README.md", Fs.File "docs" 420)]
       else None)
    (fun _ => None)
    (fun _ _ => Some 0%Z).

(** a home directory without a cache *)
Definition fresh_world : world :=
  mkWorld (Fs.Dir [("home", Fs.Dir [("u", Fs.Dir [])])]) [] [].

(** the world a first run of [github.com/acme/widget@v1.2.0] leaves, with
    an empty record *)
Definition cached_world : world :=
  mkWorld (fs (snd (run widget_host "github.com/acme/widget@v1.2.0" [] fresh_world))) [] [].

(** a cache entry without its whole-entry marker: the archive is there, and
    the extraction marker names a file that is there but not executable *)
Definition unexecutable_world : world :=
  mkWorld
    (Fs.Dir
       [("home",
         Fs.Dir
           [("u",
             Fs.Dir
               [(".binrun",
                 Fs.Dir
                   [("cache",
                     Fs.Dir
                       [("acme_widget_v1.2.0",
                         Fs.Dir
                           [("widget_Darwin_arm64.tar.gz", Fs.File "TARDATA" 420);
                            ("bin",
                             Fs.Dir
                               [("widget", Fs.File "ELF" 420);
                                (".extracted_binary_path",
                                 Fs.File "/home/u/.binrun/cache/acme_widget_v1.2.0/bin/widget"
                                         420)])])])])])])])
    [] [].

(** *** Names of the documented form [<repo>_<os>_<arch><ext>] *)

(** the pattern term a character of a repository name compiles to *)
Definition name_atom (c : ascii) : Re.regex :=
  if (c =? ".")%char then Re.Chr Re.CAny else Re.Chr (Re.CLit c).

(** the terms of a name, pushed on the terms read before it *)
Fixpoint push_atoms (s : string) (cur : list Re.regex) : list Re.regex :=
  match s with
  | EmptyString => cur
  | String c s' => push_atoms s' (name_atom c :: cur)
  end.

(** the terms of a name in sequence, before the pattern [tail] *)
Fixpoint seq_atoms (s : string) (tail : Re.regex) : Re.regex :=
  match s with
  | EmptyString => tail
  | String c s' => Re.Seq (name_atom c) (seq_atoms s' tail)
  end.

(** the platforms [getSystemInfo] knows *)
Definition supported_systems : list SystemInfo :=
  [mkSys "Darwin" "x86_64" "darwin"; mkSys "Darwin" "arm64" "darwin";
   mkSys "Darwin" "386" "darwin";
   mkSys "Linux" "x86_64" "linux"; mkSys "Linux" "arm64" "linux";
   mkSys "Linux" "386" "linux";
   mkSys "Windows" "x86_64" "win32"; mkSys "Windows" "arm64" "win32";
   mkSys "Windows" "386" "win32"].

(** the names of the operating system in asset names *)
Definition os_names (systemInfo : SystemInfo) : list string :=
  if platform systemInfo =? "darwin" then ["Darwin"; "macOS"] else [osName systemInfo].

Definition archive_name (repo os arch ext : string) : string :=
  repo ++ "_" ++ os ++ "_" ++ arch ++ ext.

(** does the pattern compiled from [source], read after a repository name,
    match the rest of every archive name of the platform with one of the
    extensions [exts]? *)
Definition tail_matches (source : string) (systemInfo : SystemInfo) (exts : list string) : bool :=
  match RegExp.compile source with
  | None => false
  | Some tail =>
      forallb (fun os =>
        forallb (fun ext =>
          match Re.bt true tail false
                  ("_" ++ os ++ "_" ++ archName systemInfo ++ ext) [] (Re.accept)
          with
          | Some _ => true
          | None => false
          end) exts) (os_names systemInfo)
  end.


(* ================================================================= *)
(** ** [bin.js]

    The command line, from [process.argv.slice(2)] to the exit code.  The
    [--debug] flag only turns the log lines on, which the world does not
    record. *)

(** the test of the loop that looks for the repository argument *)
Definition isRepoArg (arg : string) : bool :=
  negb (arg =? "--debug") && Str.includes arg "github.com/".

(** [repoArg] after the loop: the first argument that passes, or [null] *)
Definition repoArgOf (args : list string) : option string := find isRepoArg args.

(** [args.filter((arg) => arg !== "--debug" && arg !== repoArg)] *)
Definition binaryArgsOf (args : list string) (repoArg : option string) : list string :=
  filter (fun arg =>
            negb (arg =? "--debug")
            && negb (match repoArg with Some r => arg =? r | None => false end)) args.

(** what goes to the error stream *)
Inductive stderr_line : Type :=
| UsageLine                 (* "Usage: binrun [--debug] github.com/username/repo[@version]" *)
| ErrorLine (e : error).    (* "Error: " and the message *)

(** [process.exit(code)], after the line written, if any *)
Inductive exit : Type := Exited (code : Z) (line : option stderr_line).

(** [run] receives [process.argv.slice(3)], which the assignment to
    [process.argv] makes the filtered arguments *)
Definition main (E : env) (args : list string) (w : world) : exit * world :=
  match repoArgOf args with
  | None => (Exited 1 (Some UsageLine), w)
  | Some repoArg =>
      match run E repoArg (binaryArgsOf args (Some repoArg)) w with
      | (Ok _, w') => (Exited 0 None, w')
      | (Err e, w') => (Exited 1 (Some (ErrorLine e)), w')
      end
  end.

(** *** What a record holds *)

Definition is_get (e : event) : bool :=
  match e with HttpsGet _ => true | _ => false end.
Definition is_extracted (e : event) : bool :=
  match e with Extracted _ _ => true | _ => false end.
Definition is_spawned (e : event) : bool :=
  match e with Spawned _ _ => true | _ => false end.

(** the computation adds events to the record, all of them passing [q] *)
Definition emits_only {A} (q : event -> bool) (m : M A) : Prop :=
  forall w, exists l, events (snd (m w)) = (events w ++ l)%list /\ forallb q l = true.

(** the cache key of a reference *)
Definition cacheKey (owner repo actualVersion : string) : string :=
  owner ++ "_" ++ repo ++ "_" ++ actualVersion.

(** lines 487 to 489 of [run] on the reply to the listing request: the
    assets decoded, the platform probed, the asset chosen *)
Definition selectAsset (E : env) (rp : reply) (repo : string) : res MatchedAsset :=
  match onAssetsResponse rp with
  | Err e => Err e
  | Ok assets =>
      match getSystemInfo (os_platform E) (os_arch E) with
      | Err e => Err e
      | Ok systemInfo =>
          match asset_list assets with
          | Err e => Err e
          | Ok assetList => findMatchingAsset assetList systemInfo repo
          end
      end
  end.

(** a Windows host asking for the same release, which has no asset for it *)
Definition windows_host : env :=
  mkEnv (api widget_host) (web widget_host) "win32" "x64" ["home"; "u"]
        (untar_gz widget_host) (unzip widget_host) (child widget_host).

(** the API serving release [v1] of [ac/me_widget], on Linux/x86_64 *)
Definition me_widget_host : env :=
  mkEnv
    (fun p =>
       if p =? "/repos/ac/me_widget/releases/tags/v1"
       then Reply 200
              (Json.show
                 (Json.JObj
                    [("assets",
                      Json.JArr
                        [Json.JObj [("name", Json.JStr "me_widget_Linux_x86_64.tar.gz");
                                    ("browser_download_url", Json.JStr "https://dl/me")]])]))
       else Reply 404 "")
    (fun _ => NoResponse)
    "linux" "x64" ["home"; "u"]
    (fun _ => None) (fun _ => None) (fun _ _ => Some 0%Z).

(** a cache that holds the entry of [ac_me/widget] at [v1] *)
Definition ac_me_world : world :=
  mkWorld
    (Fs.Dir
       [("home",
         Fs.Dir
           [("u",
             Fs.Dir
               [(".binrun",
                 Fs.Dir
                   [("cache",
                     Fs.Dir
                       [("ac_me_widget_v1",
                         Fs.Dir
                           [("widget", Fs.File "ELF of ac_me/widget" 493);
                            (".binary_path",
                             Fs.File "/home/u/.binrun/cache/ac_me_widget_v1/widget" 420)])])])])])])
    [] [].

(** the least number of characters a match of the pattern consumes *)
Fixpoint min_length (r : Re.regex) : nat :=
  match r with
  | Re.Eps | Re.Bol | Re.Eol | Re.Opt _ => 0
  | Re.Chr _ | Re.Plus _ => 1
  | Re.Seq a b => min_length a + min_length b
  | Re.Alt a b => Nat.min (min_length a) (min_length b)
  | Re.Grp _ a => min_length a
  end.

(** for a platform: the three patterns read after a repository name
    compile; what follows the name in a tar or zip match is four characters
    or more; and what follows it in a direct-binary match is four characters
    or more on Windows and may be nothing elsewhere *)
Definition tails_checked (systemInfo : SystemInfo) : bool :=
  match RegExp.compile (tarSource systemInfo ""),
        RegExp.compile (zipSource systemInfo ""),
        RegExp.compile (binarySource systemInfo "") with
  | Some t, Some z, Some b =>
      (4 <=? min_length t)%nat && (4 <=? min_length z)%nat
      && (if platform systemInfo =? "win32"
          then (4 <=? min_length b)%nat
          else match Re.bt true b false "" [] (Re.accept) with
               | Some _ => true
               | None => false
               end)
  | _, _, _ => false
  end.

(** the path names a file with the owner's execute bit, or a directory *)
Definition executable_at (p : Fs.path) (n : Fs.node) : bool :=
  match Fs.lookup p n with
  | Some (Fs.File _ mode) => Z.testbit mode 6
  | Some (Fs.Dir _) => true
  | None => false
  end.

(** a component of a path as its text can hold it: not empty, no [/] *)
Definition plain_component (c : string) : bool :=
  Str.nonempty c && Str.all (fun x => negb (x =? "/")%char) c.


(** an event that is no spawn, or a spawn with the arguments [args] *)
Definition spawns_with (args : list string) (e : event) : bool :=
  match e with
  | Spawned _ a => if list_eq_dec String.string_dec a args then true else false
  | _ => true
  end.

(** the test of the first pass on a regular file: an execute bit, and a
    name that neither of the two patterns rejects *)
Definition firstCandidate (file : string) (mode : Z) : bool :=
  Fs.has_exec_bit mode && negb (isLikelyNonBinary file) && negb (isCommonNonBinary file).

(** some regular file of the tree passes [P] on its name and mode; with
    [Some k], only the files of the first [k] directory levels count *)
Fixpoint has_file (P : string -> Z -> bool) (n : Fs.node) (levels : option nat)
    {struct n} : bool :=
  match n with
  | Fs.File _ _ => false
  | Fs.Dir es =>
      match levels with
      | Some O => false
      | _ =>
          existsb (fun e : string * Fs.node =>
                     match snd e with
                     | Fs.File _ m => P (fst e) m
                     | Fs.Dir _ => has_file P (snd e) (option_map Nat.pred levels)
                     end) es
      end
  end.

Fixpoint distinct (l : list string) : bool :=
  match l with
  | [] => true
  | x :: l' => negb (existsb (String.eqb x) l') && distinct l'
  end.

(** no directory of the tree holds two entries of one name *)
Fixpoint unique_names (n : Fs.node) : bool :=
  match n with
  | Fs.File _ _ => true
  | Fs.Dir es =>
      distinct (map fst es) && forallb (fun e : string * Fs.node => unique_names (snd e)) es
  end.

(** the group of a name under the comparator of the first pass: names
    holding the repository name come first, and within either half the
    names of documentation come last *)
Definition sortRank (repoName file : string) : nat :=
  match Str.includes (Str.toLowerCase file) (Str.toLowerCase repoName),
        isCommonNonBinary file with
  | true, false => 0
  | true, true => 1
  | false, false => 2
  | false, true => 3
  end.

Definition ranked {A} (repoName : string) (r : nat) (l : list (string * A))
  : list (string * A) :=
  filter (fun e => Nat.eqb (sortRank repoName (fst e)) r) l.

(** [p] names, below [dir], a regular file of the tree [n] that passes [P]
    on its name and mode *)
Definition file_below (P : string -> Z -> bool) (n : Fs.node) (dir p : Fs.path) : Prop :=
  exists rel file data mode,
    p = (dir ++ rel ++ [file])%list
    /\ Fs.lookup (rel ++ [file])%list n = Some (Fs.File data mode)
    /\ P file mode = true.


(* ################################################################# *)
(** * Properties *)

(* ================================================================= *)
(** ** Strings and the matcher *)

Module StrFacts.

Lemma append_nil_r s : s ++ "" = s.
Proof. induction s; simpl; congruence. Qed.

Lemma append_assoc a b c : (a ++ b) ++ c = a ++ (b ++ c).
Proof. induction a; simpl; congruence. Qed.

Lemma length_append a b : String.length (a ++ b) = String.length a + String.length b.
Proof. induction a; simpl; congruence. Qed.

(** the text a group captures: what was consumed between two positions *)
Lemma take_consumed o rest :
  Str.take (String.length (o ++ rest) - String.length rest) (o ++ rest) = o.
Proof.
  rewrite length_append.
  replace (String.length o + String.length rest - String.length rest)
    with (String.length o) by lia.
  induction o; simpl; [destruct rest; reflexivity | congruence].
Qed.

Lemma all_ext p q s : (forall c, p c = q c) -> Str.all p s = Str.all q s.
Proof. intro H. induction s; simpl; [reflexivity|]. now rewrite H, IHs. Qed.

End StrFacts.

Module ReFacts.
Import Re.

Section Matcher.
Variable icase : bool.

Lemma search_from_eq r bol off s :
  search_from icase r bol off s =
  match bt icase r bol s [] (accept) with
  | Some (rest, cs) => Some (off, rest, cs)
  | None =>
      match s with
      | EmptyString => None
      | String _ s' => search_from icase r false (S off) s'
      end
  end.
Proof. destruct s; reflexivity. Qed.

(** a greedy [cl+] on a run of class characters that ends where the
    continuation succeeds *)
Lemma plus_loop_complete cl o :
  forall rest cs k ans,
    Str.nonempty o = true ->
    Str.all (cmatch icase cl) o = true ->
    match rest with
    | EmptyString => True
    | String x _ => cmatch icase cl x = false
    end ->
    k false rest cs = Some ans ->
    plus_loop icase cl (o ++ rest) cs k = Some ans.
Proof.
  induction o as [|x o IH]; intros rest cs k ans NE A R K; [discriminate|].
  simpl in A. apply andb_prop in A. destruct A as [X A].
  simpl. rewrite X.
  destruct o as [|y o].
  - simpl. destruct rest as [|z rest]; simpl; [exact K|]. rewrite R. exact K.
  - rewrite (IH rest cs k ans); auto.
Qed.

(** what a successful [cl+] consumed *)
Lemma plus_loop_inv cl s :
  forall cs k ans,
    plus_loop icase cl s cs k = Some ans ->
    exists o rest,
      s = o ++ rest /\ Str.nonempty o = true
      /\ Str.all (cmatch icase cl) o = true
      /\ k false rest cs = Some ans.
Proof.
  induction s as [|x s IH]; intros cs k ans H; simpl in H; [discriminate|].
  destruct (cmatch icase cl x) eqn:X; [|discriminate].
  destruct (plus_loop icase cl s cs k) as [a|] eqn:P.
  - injection H as ->. destruct (IH _ _ _ P) as [o [rest [E [_ [A K]]]]].
    exists (String x o), rest. simpl. rewrite X, A, E. auto.
  - exists (String x ""), s. simpl. rewrite X. auto.
Qed.

(** a capturing group around a greedy [cl+]: it consumes the run and
    records it *)
Lemma bt_group_plus i cl s o rest bol cs k ans :
  s = o ++ rest ->
  Str.nonempty o = true ->
  Str.all (cmatch icase cl) o = true ->
  match rest with
  | EmptyString => True
  | String x _ => cmatch icase cl x = false
  end ->
  k false rest ((i, o) :: cs) = Some ans ->
  bt icase (Grp i (Plus cl)) bol s cs k = Some ans.
Proof.
  intros -> N A R K. cbn [bt].
  apply plus_loop_complete; auto.
  rewrite StrFacts.take_consumed. exact K.
Qed.

Lemma bt_group_plus_inv i cl s bol cs k ans :
  bt icase (Grp i (Plus cl)) bol s cs k = Some ans ->
  exists o rest,
    s = o ++ rest /\ Str.nonempty o = true
    /\ Str.all (cmatch icase cl) o = true
    /\ k false rest ((i, o) :: cs) = Some ans.
Proof.
  cbn [bt]. intro H.
  destruct (plus_loop_inv _ _ _ _ _ H) as [o [rest [E [N [A K]]]]].
  exists o, rest. subst s. rewrite StrFacts.take_consumed in K. auto.
Qed.
Lemma bt_seq a b bol s cs k :
  bt icase (Seq a b) bol s cs k
  = bt icase a bol s cs (fun bol' s' cs' => bt icase b bol' s' cs' k).
Proof. reflexivity. Qed.

Lemma bt_opt a bol s cs k :
  bt icase (Opt a) bol s cs k
  = match bt icase a bol s cs k with
    | Some r => Some r
    | None => k bol s cs
    end.
Proof. reflexivity. Qed.

Lemma bt_bol s cs k : bt icase Bol true s cs k = k true s cs.
Proof. reflexivity. Qed.

Lemma bt_chr_inv cl bol s cs k ans :
  bt icase (Chr cl) bol s cs k = Some ans ->
  exists x s', s = String x s' /\ cmatch icase cl x = true /\ k false s' cs = Some ans.
Proof.
  simpl. destruct s as [|x s']; [discriminate|].
  destruct (cmatch icase cl x) eqn:X; [|discriminate]. eauto.
Qed.

Lemma bt_eol_inv bol s cs k ans :
  bt icase Eol bol s cs k = Some ans -> s = "" /\ k bol "" cs = Some ans.
Proof. simpl. destruct s; [auto|discriminate]. Qed.

End Matcher.

Lemma bt_chr_same c s cs k bol :
  bt false (Chr (CLit c)) bol (String c s) cs k = k false s cs.
Proof. simpl. now rewrite Ascii.eqb_refl. Qed.

(** a literal text, matched case-sensitively, consumes itself *)
Lemma bt_lits_app p :
  forall bol s cs k,
    bt false (lits p) bol (p ++ s) cs k
    = k (if Str.nonempty p then false else bol) s cs.
Proof.
  induction p as [|c p IH]; intros bol s cs k; simpl; [reflexivity|].
  rewrite Ascii.eqb_refl, IH. destruct p; reflexivity.
Qed.

Lemma bt_lits_inv p :
  forall bol s cs k ans,
    bt false (lits p) bol s cs k = Some ans ->
    exists s', s = p ++ s' /\ k (if Str.nonempty p then false else bol) s' cs = Some ans.
Proof.
  induction p as [|c p IH]; intros bol s cs k ans H; simpl in H.
  - exists s. auto.
  - destruct s as [|x s]; [discriminate|].
    destruct (x =? c)%char eqn:X; [|discriminate].
    apply Ascii.eqb_eq in X. subst x.
    destruct (IH _ _ _ _ _ H) as [s' [E K]].
    exists s'. simpl. rewrite E. split; [reflexivity|].
    destruct p; exact K.
Qed.

End ReFacts.

(* ================================================================= *)
(** ** The reference parser *)

Section ReferenceParser.
Import Re.

Lemma cmatch_name_class x : cmatch false name_class x = name_char x.
Proof. unfold name_char. simpl. now rewrite orb_assoc. Qed.

Lemma valid_name_class s :
  valid_name s = true ->
  Str.nonempty s = true /\ Str.all (cmatch false name_class) s = true.
Proof.
  unfold valid_name. intro H. apply andb_prop in H. destruct H as [N A].
  split; [exact N|]. rewrite (StrFacts.all_ext _ name_char); auto using cmatch_name_class.
Qed.

Lemma class_valid_name s :
  Str.nonempty s = true -> Str.all (cmatch false name_class) s = true ->
  valid_name s = true.
Proof.
  intros N A. unfold valid_name. rewrite N. simpl.
  rewrite <- (StrFacts.all_ext (cmatch false name_class)); auto using cmatch_name_class.
Qed.

Lemma bt_version_tail_none cs :
  bt false version_tail false "" cs accept = Some ("", cs).
Proof. reflexivity. Qed.

Lemma bt_version_tail_some v cs :
  valid_name v = true ->
  bt false version_tail false ("@" ++ v) cs accept = Some ("", (3, v) :: cs).
Proof.
  intro V. destruct (valid_name_class v V) as [N A].
  unfold version_tail.
  change (bt false (Seq (Opt (Seq (Chr (CLit "@")) (Grp 3 (Plus name_class)))) Eol)
            false ("@" ++ v) cs accept)
    with (match bt false (Grp 3 (Plus name_class)) false v cs
                  (fun bol' s' cs' => bt false Eol bol' s' cs' accept) with
          | Some r => Some r
          | None => bt false Eol false ("@" ++ v) cs accept
          end).
  erewrite ReFacts.bt_group_plus with (o := v) (rest := "");
    [reflexivity| now rewrite StrFacts.append_nil_r | exact N | exact A | exact I |].
  reflexivity.
Qed.

Lemma bt_version_tail v cs :
  valid_version v = true ->
  bt false version_tail false (version_suffix v) cs accept = Some ("", version_capture v cs).
Proof.
  destruct v as [x|]; simpl; intro V;
    [now apply bt_version_tail_some | apply bt_version_tail_none].
Qed.

Lemma version_suffix_stops v :
  match version_suffix v with
  | EmptyString => True
  | String x _ => cmatch false name_class x = false
  end.
Proof. destruct v; simpl; auto. Qed.

Lemma bt_repo_regex o r v :
  valid_name o = true -> valid_name r = true -> valid_version v = true ->
  bt false repo_regex true (reference_text o r v) [] accept
  = Some ("", version_capture v [(2, r); (1, o)]).
Proof.
  intros O R V.
  destruct (valid_name_class o O) as [No Ao].
  destruct (valid_name_class r R) as [Nr Ar].
  unfold repo_regex, reference_text.
  rewrite ReFacts.bt_seq, ReFacts.bt_bol, ReFacts.bt_seq, ReFacts.bt_lits_app. cbv beta.
  rewrite ReFacts.bt_seq.
  apply ReFacts.bt_group_plus with (o := o) (rest := "/" ++ r ++ version_suffix v);
    [reflexivity|exact No|exact Ao|reflexivity|].
  unfold repo_tail. rewrite ReFacts.bt_seq. cbn [append]. rewrite ReFacts.bt_chr_same, ReFacts.bt_seq.
  apply ReFacts.bt_group_plus with (o := r) (rest := version_suffix v);
    [reflexivity|exact Nr|exact Ar|apply version_suffix_stops|].
  now apply bt_version_tail.
Qed.

Lemma parse_complete o r v :
  valid_name o = true -> valid_name r = true -> valid_version v = true ->
  parseRepoURL (reference_text o r v) = Ok (mkRef o r (version_or_latest v)).
Proof.
  intros O R V. unfold parseRepoURL, exec.
  rewrite ReFacts.search_from_eq, bt_repo_regex by assumption.
  destruct v; reflexivity.
Qed.

(** the pattern is anchored: no match starts after the first position *)
Lemma search_repo_regex_later s :
  forall off, search_from false repo_regex false off s = None.
Proof.
  induction s as [|c s IH]; intro off; rewrite ReFacts.search_from_eq; [reflexivity|].
  unfold repo_regex at 1. rewrite ReFacts.bt_seq. cbn [bt]. apply IH.
Qed.

Lemma bt_repo_regex_inv s ans :
  bt false repo_regex true s [] accept = Some ans ->
  exists o r v,
    valid_name o = true /\ valid_name r = true /\ valid_version v = true
    /\ s = reference_text o r v.
Proof.
  unfold repo_regex. rewrite ReFacts.bt_seq, ReFacts.bt_bol, ReFacts.bt_seq. intro H.
  destruct (ReFacts.bt_lits_inv _ _ _ _ _ _ H) as [s1 [E1 H1]]. clear H.
  cbv beta in H1. rewrite ReFacts.bt_seq in H1.
  destruct (ReFacts.bt_group_plus_inv _ _ _ _ _ _ _ _ H1)
    as [o [rest1 [E2 [No [Ao H2]]]]]. clear H1.
  cbv beta in H2. unfold repo_tail in H2. rewrite ReFacts.bt_seq in H2.
  destruct (ReFacts.bt_chr_inv _ _ _ _ _ _ _ H2) as [x [s2 [E3 [X H3]]]]. clear H2.
  simpl in X. apply Ascii.eqb_eq in X. subst x.
  cbv beta in H3. rewrite ReFacts.bt_seq in H3.
  destruct (ReFacts.bt_group_plus_inv _ _ _ _ _ _ _ _ H3)
    as [r [rest2 [E4 [Nr [Ar H4]]]]]. clear H3.
  cbv beta in H4. unfold version_tail in H4. rewrite ReFacts.bt_seq, ReFacts.bt_opt in H4.
  destruct (bt false (Seq (Chr (CLit "@")) (Grp 3 (Plus name_class))) false rest2
              [(2, r); (1, o)]
              (fun bol' s' cs' => bt false Eol bol' s' cs' accept)) as [a|] eqn:HA.
  - clear H4. rewrite ReFacts.bt_seq in HA.
    destruct (ReFacts.bt_chr_inv _ _ _ _ _ _ _ HA) as [x [s3 [E5 [X H5]]]]. clear HA.
    simpl in X. apply Ascii.eqb_eq in X. subst x.
    cbv beta in H5.
    destruct (ReFacts.bt_group_plus_inv _ _ _ _ _ _ _ _ H5)
      as [v [rest3 [E6 [Nv [Av H6]]]]]. clear H5.
    cbv beta in H6. apply ReFacts.bt_eol_inv in H6. destruct H6 as [E7 _].
    exists o, r, (Some v).
    repeat split; try (apply class_valid_name; assumption).
    subst. unfold reference_text, version_suffix. cbn [append].
    now rewrite StrFacts.append_nil_r.
  - apply ReFacts.bt_eol_inv in H4. destruct H4 as [E5 _].
    exists o, r, None.
    repeat split; try (apply class_valid_name; assumption).
    subst. reflexivity.
Qed.

Lemma parse_sound input ref :
  parseRepoURL input = Ok ref ->
  exists o r v,
    valid_name o = true /\ valid_name r = true /\ valid_version v = true
    /\ input = reference_text o r v.
Proof.
  unfold parseRepoURL, exec. rewrite ReFacts.search_from_eq.
  destruct (bt false repo_regex true input [] accept) as [[rest cs]|] eqn:B.
  - intros _. eapply bt_repo_regex_inv. exact B.
  - destruct input as [|c s]; [discriminate|].
    now rewrite search_repo_regex_later.
Qed.

Lemma parse_error input e : parseRepoURL input = Err e -> e = InvalidReference input.
Proof.
  unfold parseRepoURL.
  destruct (exec false repo_regex input) as [[[off rest] m]|]; [|congruence].
  destruct (cap 1 m); [destruct (cap 2 m)|]; congruence.
Qed.
End ReferenceParser.

(** C5: a text of the form [github.com/<owner>/<repo>[@<version>]], with
    each part one or more characters of [[\w.-]], parses to that owner,
    repository and version, the version being ["latest"] when the suffix is
    absent; writing the parsed reference out again and parsing it gives the
    same reference; every other text is refused with [InvalidReference]. *)
Theorem parseRepoURL_grammar :
  forall input : string,
    (forall o r v,
        valid_name o = true -> valid_name r = true -> valid_version v = true ->
        input = reference_text o r v ->
        parseRepoURL input = Ok (mkRef o r (version_or_latest v)))
    /\ (forall ref,
          parseRepoURL input = Ok ref ->
          parseRepoURL (reference_text (owner ref) (repo ref) (Some (version ref))) = Ok ref)
    /\ ((forall o r v,
           valid_name o = true -> valid_name r = true -> valid_version v = true ->
           input <> reference_text o r v) ->
        parseRepoURL input = Err (InvalidReference input)).
Proof.
  intro input. split; [|split].
  - intros o r v O R V ->. now apply parse_complete.
  - intros ref P.
    destruct (parse_sound input ref P) as [o [r [v [O [R [V E]]]]]].
    subst input. rewrite parse_complete in P by assumption.
    injection P as <-. cbn [owner repo version].
    apply (parse_complete o r (Some (version_or_latest v))); auto.
    destruct v as [x|]; [exact V|reflexivity].
  - intro N. destruct (parseRepoURL input) as [ref|e] eqn:P.
    + destruct (parse_sound input ref P) as [o [r [v [O [R [V E]]]]]].
      exfalso. exact (N o r v O R V E).
    + now rewrite (parse_error input e P).
Qed.

Lemma parseRepoURL_grammar_witness :
  parseRepoURL "github.com/acme/widget@v1.2.0" = Ok (mkRef "acme" "widget" "v1.2.0")
  /\ parseRepoURL "github.com/acme/widget" = Ok (mkRef "acme" "widget" "latest")
  /\ parseRepoURL "github.com/acme/widget@latest" = Ok (mkRef "acme" "widget" "latest").
Proof.
  split; [|split].
  - exact (proj1 (parseRepoURL_grammar "github.com/acme/widget@v1.2.0")
             "acme" "widget" (Some "v1.2.0") eq_refl eq_refl eq_refl eq_refl).
  - exact (proj1 (parseRepoURL_grammar "github.com/acme/widget")
             "acme" "widget" None eq_refl eq_refl eq_refl eq_refl).
  - exact (proj1 (proj2 (parseRepoURL_grammar "github.com/acme/widget"))
             (mkRef "acme" "widget" "latest") eq_refl).
Defined.

Example parse_trailing_slash :
  parseRepoURL "github.com/acme/widget/" = Err (InvalidReference "github.com/acme/widget/").
Proof. reflexivity. Qed.

Example parse_partial_match :
  parseRepoURL "https://github.com/acme/widget" = Err (InvalidReference "https://github.com/acme/widget")
  /\ parseRepoURL "github.com/acme" = Err (InvalidReference "github.com/acme")
  /\ parseRepoURL "GitHub.com/acme/widget" = Err (InvalidReference "GitHub.com/acme/widget").
Proof. repeat split. Qed.

(* ================================================================= *)
(** ** The asset matcher *)

Lemma findByName_some re assets a :
  In a assets -> Re.test true re (name a) = true ->
  exists t, findByName re assets = Some t /\ In t assets /\ Re.test true re (name t) = true.
Proof.
  intros Hin Ht. unfold findByName.
  destruct (find (fun a0 => Re.test true re (name a0)) assets) as [t|] eqn:F.
  - exists t. apply find_some in F. tauto.
  - exfalso. eapply find_none in F; eauto. simpl in F. congruence.
Qed.

(** when one asset only passes the test, [find] returns that one *)
Lemma findByName_unique re assets a t :
  findByName re assets = Some t ->
  In a assets -> Re.test true re (name a) = true ->
  (forall b, In b assets -> Re.test true re (name b) = true -> b = a) ->
  t = a.
Proof.
  intros F _ _ U. apply find_some in F. destruct F as [Hin Ht]. now apply U.
Qed.


Section DocumentedNames.
Import Re RegExp.
Local Open Scope list_scope.

Lemma getSystemInfo_supported p a systemInfo :
  getSystemInfo p a = Ok systemInfo -> In systemInfo supported_systems.
Proof.
  unfold getSystemInfo.
  destruct (String.eqb_spec p "darwin") as [->|_];
    [|destruct (String.eqb_spec p "linux") as [->|_];
      [|destruct (String.eqb_spec p "win32") as [->|_]; [|discriminate]]];
  (destruct (a =? "x64")%string; [|destruct (a =? "arm64")%string;
    [|destruct (a =? "ia32")%string; [|discriminate]]]);
  intro H; injection H as <-; simpl; tauto.
Qed.

(** a character of a name is no syntax character of the pattern language,
    the dot apart *)
Lemma parse_name_char c src fr stack next :
  name_char c = true ->
  parse (String c src) fr stack next
  = parse src (push_term (name_atom c) fr) stack next.
Proof.
  intro N. cbn [parse]. unfold name_atom.
  assert (S : forall d, name_char d = false -> (c =? d)%char = false).
  { intros d D. destruct (Ascii.eqb_spec c d); [subst; congruence|reflexivity]. }
  rewrite (S "("%char), (S ")"%char), (S "|"%char), (S "?"%char) by reflexivity.
  destruct (c =? ".")%char; [reflexivity|].
  rewrite (S "^"%char), (S "$"%char) by reflexivity.
  replace (unsupported c) with false; [reflexivity|].
  unfold unsupported. cbn [existsb].
  rewrite (S "*"%char), (S "+"%char), (S "["%char), (S "]"%char), (S "{"%char),
    (S "}"%char), (S "\"%char) by reflexivity.
  reflexivity.
Qed.

Lemma parse_name repo :
  forall src fr stack next,
    Str.all name_char repo = true ->
    parse (repo ++ src)%string fr stack next
    = parse src (mkFrame (alts_rev fr) (push_atoms repo (cur_rev fr))) stack next.
Proof.
  induction repo as [|c repo IH]; intros src fr stack next A.
  - destruct fr; reflexivity.
  - simpl in A. apply andb_prop in A. destruct A as [C A].
    cbn [append]. rewrite parse_name_char by exact C.
    rewrite IH by exact A. reflexivity.
Qed.

Lemma seq_of_push_atoms repo :
  forall cur tail,
    fold_left (fun acc t => Seq t acc) (push_atoms repo cur) tail
    = fold_left (fun acc t => Seq t acc) cur (seq_atoms repo tail).
Proof.
  induction repo as [|c repo IH]; intros cur tail; [reflexivity|].
  cbn [push_atoms seq_atoms]. rewrite IH. reflexivity.
Qed.

Lemma cmatch_name_atom c :
  name_char c = true ->
  forall bol s cs k, bt true (name_atom c) bol (String c s) cs k = k false s cs.
Proof.
  intros N bol s cs k. unfold name_atom.
  destruct (Ascii.eqb_spec c "."%char) as [->|D]; [reflexivity|].
  cbn [bt cmatch]. now rewrite Ascii.eqb_refl.
Qed.

(** the terms of a name match the name itself *)
Lemma bt_seq_atoms repo :
  forall tail bol s cs k,
    Str.nonempty repo = true ->
    Str.all name_char repo = true ->
    bt true (seq_atoms repo tail) bol (repo ++ s)%string cs k
    = bt true tail false s cs k.
Proof.
  induction repo as [|c repo IH]; intros tail bol s cs k NE A; [discriminate|].
  simpl in A. apply andb_prop in A. destruct A as [C A].
  cbn [seq_atoms append]. rewrite ReFacts.bt_seq, cmatch_name_atom by exact C.
  destruct repo as [|d repo]; [reflexivity|].
  now rewrite IH.
Qed.

Lemma tarSource_split systemInfo repo :
  tarSource systemInfo repo = (repo ++ tarSource systemInfo "")%string.
Proof. reflexivity. Qed.

Lemma zipSource_split systemInfo repo :
  zipSource systemInfo repo = (repo ++ zipSource systemInfo "")%string.
Proof. reflexivity. Qed.

(** on the platforms known, the terms read before the rest of a source
    end up in front of the pattern of that rest *)
Lemma parse_rest_of_source :
  Forall (fun systemInfo =>
            forall cur,
              (parse (tarSource systemInfo "") (mkFrame [] cur) [] 1
               = option_map (fold_left (fun acc t => Seq t acc) cur)
                   (compile (tarSource systemInfo "")))
              /\ (parse (zipSource systemInfo "") (mkFrame [] cur) [] 1
                  = option_map (fold_left (fun acc t => Seq t acc) cur)
                      (compile (zipSource systemInfo ""))))
         supported_systems.
Proof. repeat constructor; vm_compute; reflexivity. Qed.

Lemma compile_after_name source repo :
  (forall cur,
      parse source (mkFrame [] cur) [] 1
      = option_map (fold_left (fun acc t => Seq t acc) cur) (compile source)) ->
  Str.all name_char repo = true ->
  compile (repo ++ source)%string = option_map (seq_atoms repo) (compile source).
Proof.
  intros P A. unfold compile at 1. rewrite parse_name by exact A.
  cbn [alts_rev cur_rev]. rewrite P.
  destruct (compile source) as [tail|]; [|reflexivity].
  cbn [option_map]. now rewrite seq_of_push_atoms.
Qed.

Lemma tails_match :
  forallb (fun systemInfo =>
             tail_matches (tarSource systemInfo "") systemInfo [".tar.gz"; ".tgz"]
             && tail_matches (zipSource systemInfo "") systemInfo [".zip"])
          supported_systems = true.
Proof. vm_compute. reflexivity. Qed.

(** an archive name of the documented form passes the test of the pattern
    compiled for its platform and repository *)
Lemma documented_name_matches source systemInfo exts repo os ext :
  (forall cur,
      parse source (mkFrame [] cur) [] 1
      = option_map (fold_left (fun acc t => Seq t acc) cur) (compile source)) ->
  tail_matches source systemInfo exts = true ->
  valid_name repo = true ->
  In os (os_names systemInfo) -> In ext exts ->
  exists re,
    compile (repo ++ source)%string = Some re
    /\ Re.test true re (archive_name repo os (archName systemInfo) ext) = true.
Proof.
  intros P T V Hos Hext.
  unfold valid_name in V. apply andb_prop in V. destruct V as [NE A].
  pose proof (compile_after_name source repo P A) as CA.
  unfold tail_matches in T.
  destruct (compile source) as [tail|] eqn:C; [|discriminate].
  rewrite forallb_forall in T. specialize (T os Hos).
  rewrite forallb_forall in T. specialize (T ext Hext).
  exists (seq_atoms repo tail). split.
  - exact CA.
  - unfold Re.test, exec, archive_name. rewrite ReFacts.search_from_eq.
    rewrite bt_seq_atoms by assumption.
    destruct (bt true tail false _ [] accept) as [[rest cs]|]; [reflexivity|discriminate].
Qed.

Lemma documented_tar_name_matches p a systemInfo repo os ext :
  getSystemInfo p a = Ok systemInfo ->
  valid_name repo = true ->
  In os (os_names systemInfo) -> In ext [".tar.gz"; ".tgz"]%string ->
  exists re,
    compile (tarSource systemInfo repo) = Some re
    /\ Re.test true re (archive_name repo os (archName systemInfo) ext) = true.
Proof.
  intros G V Hos Hext. apply getSystemInfo_supported in G.
  pose proof parse_rest_of_source as P. rewrite Forall_forall in P.
  pose proof tails_match as T. rewrite forallb_forall in T.
  specialize (P _ G). specialize (T _ G). apply andb_prop in T.
  rewrite tarSource_split.
  eapply documented_name_matches; eauto; [apply P | apply T].
Qed.

Lemma documented_zip_name_matches p a systemInfo repo os :
  getSystemInfo p a = Ok systemInfo ->
  valid_name repo = true ->
  In os (os_names systemInfo) ->
  exists re,
    compile (zipSource systemInfo repo) = Some re
    /\ Re.test true re (archive_name repo os (archName systemInfo) ".zip") = true.
Proof.
  intros G V Hos. apply getSystemInfo_supported in G.
  pose proof parse_rest_of_source as P. rewrite Forall_forall in P.
  pose proof tails_match as T. rewrite forallb_forall in T.
  specialize (P _ G). specialize (T _ G). apply andb_prop in T.
  rewrite zipSource_split.
  eapply documented_name_matches; eauto; [apply P | apply T | simpl; auto].
Qed.
End DocumentedNames.

(** the tar pattern is tried first: an asset that passes it is returned,
    flagged as a tar archive, whatever else the list holds *)
Lemma tar_found_first assets systemInfo repo tarRegex tarAsset :
  RegExp.compile (tarSource systemInfo repo) = Some tarRegex ->
  In tarAsset assets -> Re.test true tarRegex (name tarAsset) = true ->
  exists t,
    findMatchingAsset assets systemInfo repo = Ok (mkMatched t true false false)
    /\ In t assets
    /\ Re.test true tarRegex (name t) = true
    /\ ((forall b, In b assets -> Re.test true tarRegex (name b) = true -> b = tarAsset)
        -> t = tarAsset).
Proof.
  intros Ct Hin Ht.
  destruct (findByName_some tarRegex assets tarAsset Hin Ht) as [t [F [Hint Htt]]].
  exists t. unfold findMatchingAsset. rewrite Ct, F.
  split; [reflexivity|]. split; [exact Hint|]. split; [exact Htt|].
  intro U. eapply findByName_unique; eauto.
Qed.

(** for archives named as documented, [<repo>_<os>_<arch>] with the
    extension [.tar.gz] or [.tgz] and with [.zip]: the matcher returns an
    asset that passes the tar pattern, as a tar archive *)
Lemma documented_archives_prefer_tar :
  forall (assets : list asset) (p a : string) (systemInfo : SystemInfo) (repo : string)
         (tarAsset zipAsset : asset) (os os' ext : string),
    getSystemInfo p a = Ok systemInfo ->
    valid_name repo = true ->
    In os (os_names systemInfo) -> In ext [".tar.gz"; ".tgz"] ->
    In os' (os_names systemInfo) ->
    In tarAsset assets -> name tarAsset = archive_name repo os (archName systemInfo) ext ->
    In zipAsset assets -> name zipAsset = archive_name repo os' (archName systemInfo) ".zip" ->
    exists t tarRegex,
      RegExp.compile (tarSource systemInfo repo) = Some tarRegex
      /\ findMatchingAsset assets systemInfo repo = Ok (mkMatched t true false false)
      /\ In t assets
      /\ Re.test true tarRegex (name t) = true.
Proof.
  intros assets p a systemInfo repo tarAsset zipAsset os os' ext G V Hos Hext _ Hin N _ _.
  destruct (documented_tar_name_matches p a systemInfo repo os ext G V Hos Hext)
    as [tarRegex [C T]].
  rewrite <- N in T.
  destruct (tar_found_first assets systemInfo repo tarRegex tarAsset C Hin T)
    as [t [F [I [M _]]]].
  exists t, tarRegex. auto.
Qed.

(** C6: when the list holds an asset that passes the tar pattern and one
    that passes the zip pattern, wherever they stand in the list, the
    matcher returns an asset passing the tar pattern, flagged [isTar] and
    nothing else; it is the tar asset itself when only one asset passes the
    tar pattern. *)
Theorem tar_asset_preferred :
  forall (assets : list asset) (systemInfo : SystemInfo) (repo : string)
         (tarRegex zipRegex : Re.regex) (tarAsset zipAsset : asset),
    RegExp.compile (tarSource systemInfo repo) = Some tarRegex ->
    RegExp.compile (zipSource systemInfo repo) = Some zipRegex ->
    In tarAsset assets -> Re.test true tarRegex (name tarAsset) = true ->
    In zipAsset assets -> Re.test true zipRegex (name zipAsset) = true ->
    exists t,
      findMatchingAsset assets systemInfo repo = Ok (mkMatched t true false false)
      /\ In t assets
      /\ Re.test true tarRegex (name t) = true
      /\ ((forall b, In b assets -> Re.test true tarRegex (name b) = true -> b = tarAsset)
          -> t = tarAsset).
Proof.
  intros assets systemInfo repo tarRegex zipRegex tarAsset zipAsset Ct _ Hin Ht _ _.
  now apply tar_found_first.
Qed.

Lemma tar_asset_preferred_witness :
  exists t,
    findMatchingAsset
      [mkAsset "widget_Linux_x86_64.zip" "https://dl/z";
       mkAsset "widget_Linux_x86_64.tar.gz" "https://dl/t"] linux_x64 "widget"
    = Ok (mkMatched t true false false)
    /\ name t = "widget_Linux_x86_64.tar.gz".
Proof.
  destruct (tar_asset_preferred
              [mkAsset "widget_Linux_x86_64.zip" "https://dl/z";
               mkAsset "widget_Linux_x86_64.tar.gz" "https://dl/t"]
              linux_x64 "widget"
              (match RegExp.compile (tarSource linux_x64 "widget") with
               | Some r => r | None => Re.Eps end)
              (match RegExp.compile (zipSource linux_x64 "widget") with
               | Some r => r | None => Re.Eps end)
              (mkAsset "widget_Linux_x86_64.tar.gz" "https://dl/t")
              (mkAsset "widget_Linux_x86_64.zip" "https://dl/z")
              eq_refl eq_refl
              (or_intror (or_introl eq_refl)) eq_refl
              (or_introl eq_refl) eq_refl) as [t [H [_ [_ U]]]].
  exists t. split; [exact H|].
  rewrite U; [reflexivity|].
  intros b [Hb|[Hb|[]]] Hm; subst b; [vm_compute in Hm; discriminate | reflexivity].
Defined.

(** C9: the patterns are searched for anywhere in the name and their dots
    stand for any character: for repository [widget] on Linux/x86_64 the
    names [notwidget_Linux_x86_64.tar.gz] and [widget_Linux_x86_64xtarxgz]
    are matched and classified as tar archives. *)
Theorem loose_tar_pattern :
  forall url : string,
    getSystemInfo "linux" "x64" = Ok linux_x64
    /\ tarSource linux_x64 "widget" = "widget_Linux_x86_64(.tar.gz|.tgz)$"
    /\ findMatchingAsset [mkAsset "notwidget_Linux_x86_64.tar.gz" url] linux_x64 "widget"
       = Ok (mkMatched (mkAsset "notwidget_Linux_x86_64.tar.gz" url) true false false)
    /\ findMatchingAsset [mkAsset "widget_Linux_x86_64xtarxgz" url] linux_x64 "widget"
       = Ok (mkMatched (mkAsset "widget_Linux_x86_64xtarxgz" url) true false false).
Proof.
  intro url. repeat split; vm_compute; reflexivity.
Qed.

(* ================================================================= *)
(** ** The release resolver *)

(** C4 (as the code has it): on a 200 response [getLatestVersion] fails
    with [MalformedResponse] exactly when the body is not JSON or decodes to
    [null]; when the decoded value has no [tag_name] it succeeds, with the
    value [undefined]. *)
Theorem latest_version_of_body :
  forall (E : env) (owner repo body : string) (w : world),
    api E (latestPath owner repo) = Reply 200 body ->
    let result := fst (getLatestVersion E owner repo w) in
    (result = Err MalformedResponse <->
       Json.parse body = None \/ Json.parse body = Some Json.JNull)
    /\ (forall release,
          Json.parse body = Some release ->
          get_property release "tag_name" = Some Undefined ->
          result = Ok Undefined)
    /\ (forall fields,
          Json.parse body = Some (Json.JObj fields) ->
          result = Ok (own_property "tag_name" fields)).
Proof.
  intros E owner repo body w H result. subst result.
  unfold getLatestVersion. simpl. rewrite H. unfold onLatestResponse. simpl.
  split; [split|split].
  - destruct (Json.parse body) as [v|]; [|auto].
    destruct v; simpl; intro X; try discriminate; auto.
  - intros [P|P]; rewrite P; reflexivity.
  - intros release P G. rewrite P, G. reflexivity.
  - intros fields P. rewrite P. reflexivity.
Qed.

Lemma latest_version_of_body_witness :
  fst (getLatestVersion empty_release_host "acme" "widget" (mkWorld (Fs.Dir []) [] []))
  = Ok Undefined.
Proof.
  destruct (latest_version_of_body empty_release_host "acme" "widget" "{}"
              (mkWorld (Fs.Dir []) [] []) eq_refl) as [_ [_ H]].
  exact (H [] eq_refl).
Defined.

(** C4, refuted as stated: the body [{}] is JSON without a version tag, and
    [getLatestVersion] resolves, with [undefined], instead of failing with
    [MalformedResponse]. *)
Lemma latest_version_without_tag :
  Json.parse "{}" = Some (Json.JObj [])
  /\ get_property (Json.JObj []) "tag_name" = Some Undefined
  /\ onLatestResponse (Reply 200 "{}") = Ok Undefined
  /\ onLatestResponse (Reply 200 "{}") <> Err MalformedResponse.
Proof.
  repeat split; try (vm_compute; reflexivity).
  vm_compute. discriminate.
Qed.

(* ================================================================= *)
(** ** The file system: what a change leaves behind *)

Module FsFacts.
Import Fs.
Local Open Scope list_scope.

Lemma assoc_set_entry k v es : assoc k (set_entry k v es) = Some v.
Proof.
  induction es as [|[k' v'] es IH]; simpl.
  - now rewrite String.eqb_refl.
  - destruct (k =? k') eqn:K; simpl; rewrite ?String.eqb_refl, ?K; auto.
Qed.

Lemma assoc_del_entry k es : assoc k (del_entry k es) = None.
Proof.
  induction es as [|[k' v'] es IH]; simpl; auto.
  destruct (k =? k') eqn:K; simpl; rewrite ?K; auto.
Qed.

Lemma set_entry_same k v es : assoc k es = Some v -> set_entry k v es = es.
Proof.
  induction es as [|[k' v'] es IH]; simpl; [discriminate|].
  destruct (k =? k') eqn:K.
  - intro H. apply String.eqb_eq in K. congruence.
  - intro H. now rewrite IH.
Qed.

Lemma lookup_cons c p es :
  lookup (c :: p) (Dir es) =
  match assoc c es with Some ch => lookup p ch | None => None end.
Proof. reflexivity. Qed.

Lemma lookup_app p q n :
  lookup (p ++ q) n =
  match lookup p n with Some m => lookup q m | None => None end.
Proof.
  revert n. induction p as [|c p IH]; intro n; simpl; auto.
  destruct n as [d m|es]; auto.
  destruct (assoc c es); auto.
Qed.

(** what [alter] stores is what is found afterwards *)
Lemma lookup_alter p f n n' :
  alter p f n = Some n' ->
  exists r, f (lookup p n) = Some r /\ lookup p n' = r.
Proof.
  revert n n'. induction p as [|c p IH]; intros n n'; simpl; [discriminate|].
  destruct n as [d m|es]; [discriminate|].
  destruct p as [|c' p'].
  - destruct (assoc c es) as [ch|] eqn:A; simpl;
      (destruct (f _) as [[v|]|] eqn:F; [| |discriminate]);
      intro H; inversion H; subst; eexists; split; eauto; simpl;
      rewrite ?assoc_set_entry, ?assoc_del_entry; reflexivity.
  - destruct (assoc c es) as [ch|] eqn:A; [|discriminate].
    destruct (alter (c' :: p') f ch) as [ch'|] eqn:R; [|discriminate].
    intro H; inversion H; subst.
    destruct (IH _ _ R) as [r [F L]].
    exists r. split; [exact F|].
    cbn [lookup]. rewrite assoc_set_entry. exact L.
Qed.

(** whether [alter] succeeds depends on the tree and on whether the change
    is accepted, not on what is stored *)
Lemma alter_succeeds p f g n n' :
  alter p f n = Some n' ->
  (forall x, f x <> None -> g x <> None) ->
  exists n'', alter p g n = Some n''.
Proof.
  revert n n'. induction p as [|c p IH]; intros n n'; simpl; [discriminate|].
  destruct n as [d m|es]; [discriminate|].
  destruct p as [|c' p'].
  - intros H FG.
    assert (F : f (assoc c es) <> None) by (destruct (f (assoc c es)); congruence).
    apply FG in F. destruct (g (assoc c es)) as [[v|]|]; [eauto|eauto|congruence].
  - destruct (assoc c es) as [ch|]; [|discriminate].
    destruct (alter (c' :: p') f ch) as [ch'|] eqn:R; [|discriminate].
    intros _ FG. destruct (IH _ _ R FG) as [n'' G]. rewrite G. eauto.
Qed.

(** a change that accepts what is there succeeds *)
Lemma alter_defined p f n x :
  p <> [] -> lookup p n = Some x -> f (Some x) <> None ->
  exists n', alter p f n = Some n'.
Proof.
  revert n. induction p as [|c p IH]; intros n NE L F; [congruence|].
  destruct n as [d m|es]; [discriminate|].
  rewrite lookup_cons in L. simpl.
  destruct (assoc c es) as [ch|] eqn:A; [|discriminate].
  destruct p as [|c' p'].
  - simpl in L. inversion L; subst.
    destruct (f (Some x)) as [[v|]|]; [eauto|eauto|congruence].
  - destruct (IH ch) as [ch' R]; [discriminate|exact L|exact F|].
    rewrite R. eauto.
Qed.


Lemma readFile_writeFile p d n n' :
  writeFile p d n = Some n' -> readFile p n' = Some d.
Proof.
  unfold writeFile, readFile. intro H.
  destruct (lookup_alter _ _ _ _ H) as [r [F L]]. rewrite L.
  destruct (lookup p n) as [[d0 m0|es]|]; inversion F; reflexivity.
Qed.

(** opening a file for writing succeeds or fails whatever is written *)
Lemma writeFile_any p d d' n n' :
  writeFile p d n = Some n' -> exists n'', writeFile p d' n = Some n''.
Proof.
  unfold writeFile. intro H. eapply alter_succeeds; [exact H|].
  intros [[d0 m0|es]|]; simpl; congruence.
Qed.

Lemma lookup_chmod p m n n' d m0 :
  lookup p n = Some (File d m0) -> chmod p m n = Some n' ->
  lookup p n' = Some (File d m).
Proof.
  unfold chmod. intros L H.
  destruct (lookup_alter _ _ _ _ H) as [r [F R]]. rewrite L in F.
  injection F as <-. exact R.
Qed.

Lemma chmod_defined p m n x :
  p <> [] -> lookup p n = Some x -> exists n', chmod p m n = Some n'.
Proof.
  intros NE L. unfold chmod. eapply alter_defined; eauto.
  destruct x; discriminate.
Qed.


(** [mkdir -p] of a directory that is there changes nothing *)
Lemma mkdir_p_existing p n es :
  lookup p n = Some (Dir es) -> mkdir_p p n = Some n.
Proof.
  revert n. induction p as [|c p IH]; intros n L; simpl in *.
  - inversion L; reflexivity.
  - destruct n as [d m|es0]; [discriminate|].
    destruct (assoc c es0) as [ch|] eqn:A; [|discriminate].
    rewrite (IH _ L). now rewrite set_entry_same.
Qed.

(** the directory of a path that names something is a directory *)
Lemma lookup_parent p c n x :
  lookup (p ++ [c]) n = Some x -> exists es, lookup p n = Some (Dir es).
Proof.
  rewrite lookup_app. destruct (lookup p n) as [[d m|es]|]; simpl; try discriminate.
  eauto.
Qed.

End FsFacts.

(* ================================================================= *)
(** ** The downloader *)

Section Downloader.
Variable E : env.
Variable destPath : Fs.path.

Lemma redirectTarget_200 location : redirectTarget 200 location = None.
Proof. reflexivity. Qed.

(** a terminal 200 response: the body is piped to the destination *)
Lemma downloadFile_terminal url limit w location body fin :
  web E url = Response 200 location body fin ->
  downloadFile E url destPath limit w
  = pipeToFile destPath body fin (emit (HttpsGet url) w).
Proof.
  intro H. destruct limit; simpl; rewrite H, redirectTarget_200; reflexivity.
Qed.

(** the redirects of a chain within the limit are followed; they leave
    the file system and the pending requests alone *)
Lemma downloadFile_follows n :
  forall limit url target w,
    followRedirects E n url = Some target ->
    n <= limit ->
    exists w1,
      downloadFile E url destPath limit w
      = downloadFile E target destPath (limit - n) w1
      /\ fs w1 = fs w /\ pending w1 = pending w.
Proof.
  induction n as [|n IH]; intros limit url target w F L.
  - simpl in F. injection F as <-. exists w. rewrite Nat.sub_0_r. auto.
  - destruct limit as [|limit]; [lia|].
    simpl in F. simpl.
    destruct (web E url) as [|st loc body fin]; [discriminate|].
    destruct (redirectTarget st loc) as [t|]; [|discriminate].
    destruct (IH limit t target (emit (HttpsGet url) w) F) as [w1 [R [Hfs Hp]]]; [lia|].
    exists w1. auto.
Qed.

(** one redirect more than the limit allows is refused *)
Lemma downloadFile_too_many limit :
  forall url target w,
    followRedirects E (S limit) url = Some target ->
    fst (downloadFile E url destPath limit w) = Err TooManyRedirects.
Proof.
  induction limit as [|limit IH]; intros url target w F; simpl in F; simpl;
    destruct (web E url) as [|st loc body fin]; try discriminate;
    destruct (redirectTarget st loc) as [t|]; try discriminate.
  - reflexivity.
  - eapply IH. exact F.
Qed.

Lemma followRedirects_shorter n :
  forall m url target,
    followRedirects E n url = Some target -> m <= n ->
    exists t, followRedirects E m url = Some t.
Proof.
  induction n as [|n IH]; intros m url target F L.
  - assert (m = 0) by lia. subst. simpl. eauto.
  - destruct m as [|m]; [simpl; eauto|].
    simpl in F. simpl.
    destruct (web E url) as [|st loc body fin]; [discriminate|].
    destruct (redirectTarget st loc) as [t|]; [|discriminate].
    eapply IH; [exact F|lia].
Qed.

Lemma pipeToFile_finished body w :
  Fs.writeFile destPath "" (fs w) <> None ->
  exists n,
    Fs.writeFile destPath body (fs w) = Some n
    /\ pipeToFile destPath body Finished w = (Ok tt, set_fs n w).
Proof.
  intro O. unfold pipeToFile.
  destruct (Fs.writeFile destPath "" (fs w)) as [n0|] eqn:W0; [|congruence].
  destruct (FsFacts.writeFile_any _ _ body _ _ W0) as [n W].
  exists n. rewrite W. auto.
Qed.



End Downloader.

(** C7: with redirect limit 5, a chain of more than five redirects makes
    the download fail with [TooManyRedirects]; a chain of at most five
    redirects that ends in a 200 response whose body is written out makes it
    succeed, and the destination then holds the body of that response. *)
Theorem redirect_limit_five :
  forall (E : env) (url : string) (destPath : Fs.path) (w : world)
         (n : nat) (target : string),
    followRedirects E n url = Some target ->
    (5 < n -> fst (downloadFile E url destPath 5 w) = Err TooManyRedirects)
    /\ (forall location body,
          n <= 5 ->
          web E target = Response 200 location body Finished ->
          Fs.writeFile destPath "" (fs w) <> None ->
          fst (downloadFile E url destPath 5 w) = Ok tt
          /\ Fs.readFile destPath (fs (snd (downloadFile E url destPath 5 w))) = Some body).
Proof.
  intros E url destPath w n target F. split.
  - intro L. destruct (followRedirects_shorter E n 6 url target F) as [t T]; [lia|].
    eapply downloadFile_too_many. exact T.
  - intros location body L T O.
    destruct (downloadFile_follows E destPath n 5 url target w F L) as [w1 [R [Hfs Hp]]].
    rewrite R, (downloadFile_terminal E destPath target _ _ _ _ _ T).
    destruct (pipeToFile_finished destPath body (emit (HttpsGet target) w1)) as [m [W P]].
    + simpl. rewrite Hfs. exact O.
    + rewrite P. simpl. split; [reflexivity|].
      eapply FsFacts.readFile_writeFile. exact W.
Qed.

Lemma redirect_limit_five_witness :
  fst (downloadFile (hops_host Finished) "https://dl/loop" ["cache"; "file"] 5 empty_cache_world)
  = Err TooManyRedirects
  /\ fst (downloadFile (hops_host Finished) "https://dl/5" ["cache"; "file"] 5 empty_cache_world)
     = Ok tt
  /\ Fs.readFile ["cache"; "file"]
       (fs (snd (downloadFile (hops_host Finished) "https://dl/5" ["cache"; "file"] 5
                   empty_cache_world)))
     = Some "BINARY-DATA".
Proof.
  split.
  - apply (redirect_limit_five (hops_host Finished) "https://dl/loop" ["cache"; "file"]
             empty_cache_world 6 "https://dl/loop" eq_refl).
    lia.
  - apply (redirect_limit_five (hops_host Finished) "https://dl/5" ["cache"; "file"]
             empty_cache_world 5 "https://dl/0" eq_refl) with (location := None).
    + lia.
    + reflexivity.
    + vm_compute. discriminate.
Defined.




(* ================================================================= *)
(** ** The binary locator *)

Section Locator.
Local Open Scope list_scope.
Variable repoName : string.

Lemma nest_is_dir ds leaf : exists es, nest ds leaf = Fs.Dir es.
Proof. destruct ds; simpl; eauto. Qed.

Lemma lookup_nest ds leaf : Fs.lookup ds (nest ds leaf) = Some (Fs.Dir leaf).
Proof.
  induction ds as [|d ds IH]; simpl; auto.
  now rewrite String.eqb_refl.
Qed.

Lemma sortFiles_one (x : string * entry_kind) : sortFiles repoName [x] = [x].
Proof. reflexivity. Qed.

(** [searchDir] on a directory, unfolded once *)
Lemma searchDir_dir es dir depth bp :
  searchDir repoName (Fs.Dir es) dir depth bp
  = if (3 <? depth)%nat then bp
    else scan repoName dir depth
           (sortFiles repoName
              (map (fun e : string * Fs.node =>
                      (fst e,
                       match snd e with
                       | Fs.Dir _ =>
                           IsDirectory (fun p d b => searchDir repoName (snd e) p d b)
                       | Fs.File _ m => IsFile m
                       end)) es)) bp.
Proof. reflexivity. Qed.

(** the scan of a directory that holds one directory is the scan of that
    directory, one level down *)
Lemma searchDir_nest_step d ds leaf dir depth :
  searchDir repoName (nest (d :: ds) leaf) dir depth None
  = if (3 <? depth)%nat then None
    else searchDir repoName (nest ds leaf) (dir ++ [d]) (S depth) None.
Proof.
  destruct (nest_is_dir ds leaf) as [es N].
  cbn [nest]. rewrite searchDir_dir.
  destruct (3 <? depth)%nat; [reflexivity|].
  cbn [map fst snd]. rewrite sortFiles_one. rewrite N.
  cbn [scan visit].
  destruct (searchDir repoName (Fs.Dir es) (dir ++ [d]) (S depth) None); reflexivity.
Qed.

(** the first pass does not look below depth 3, whatever is there *)
Lemma searchDir_depth_bound ds :
  forall leaf dir depth,
    3 < depth + List.length ds ->
    searchDir repoName (nest ds leaf) dir depth None = None.
Proof.
  induction ds as [|d ds IH]; intros leaf dir depth L.
  - cbn [nest]. rewrite searchDir_dir.
    replace (3 <? depth)%nat with true; [reflexivity|].
    symmetry. apply Nat.ltb_lt. simpl in L. lia.
  - rewrite searchDir_nest_step.
    destruct (3 <? depth)%nat; [reflexivity|].
    apply IH. simpl in L. lia.
Qed.

Lemma license_mit_common : isCommonNonBinary "LICENSE-MIT" = true.
Proof. vm_compute. reflexivity. Qed.

Lemma license_mit_loose : looseCandidate "LICENSE-MIT" = true.
Proof. vm_compute. reflexivity. Qed.

(** the first pass passes over a file named [LICENSE-MIT], at any depth *)
Lemma searchDir_license_mit ds :
  forall data mode dir depth,
    searchDir repoName (nest ds [("LICENSE-MIT", Fs.File data mode)]) dir depth None = None.
Proof.
  induction ds as [|d ds IH]; intros data mode dir depth.
  - cbn [nest]. rewrite searchDir_dir.
    destruct (3 <? depth)%nat; [reflexivity|].
    cbn [map fst snd]. rewrite sortFiles_one. cbn [scan visit].
    rewrite license_mit_common.
    destruct (Fs.has_exec_bit mode); rewrite ?andb_false_r; reflexivity.
  - rewrite searchDir_nest_step.
    destruct (3 <? depth)%nat; [reflexivity|]. apply IH.
Qed.

(** [finalSearch], unfolded by the first entry of the directory *)
Lemma finalSearch_nil dir bp :
  finalSearch repoName (Fs.Dir []) dir bp = (bp, bp).
Proof. reflexivity. Qed.

Lemma finalSearch_file file data mode rest dir bp :
  finalSearch repoName (Fs.Dir ((file, Fs.File data mode) :: rest)) dir bp
  = if looseCandidate file then
      if looseRepoMatch repoName file then (Some (dir ++ [file]), bp)
      else finalSearch repoName (Fs.Dir rest) dir (keep_if_unset bp (dir ++ [file]))
    else finalSearch repoName (Fs.Dir rest) dir bp.
Proof. reflexivity. Qed.

Lemma finalSearch_subdir file es rest dir bp :
  finalSearch repoName (Fs.Dir ((file, Fs.Dir es) :: rest)) dir bp
  = match finalSearch repoName (Fs.Dir es) (dir ++ [file]) bp with
    | (Some result, bp') => (Some result, bp')
    | (None, bp') => finalSearch repoName (Fs.Dir rest) dir bp'
    end.
Proof. reflexivity. Qed.

(** the second pass returns it, from any depth *)
Lemma finalSearch_license_mit ds :
  forall data mode dir,
    fst (finalSearch repoName (nest ds [("LICENSE-MIT", Fs.File data mode)]) dir None)
    = Some (dir ++ ds ++ ["LICENSE-MIT"]).
Proof.
  induction ds as [|d ds IH]; intros data mode dir.
  - cbn [nest]. rewrite finalSearch_file, license_mit_loose.
    destruct (looseRepoMatch repoName "LICENSE-MIT"); reflexivity.
  - specialize (IH data mode (dir ++ [d])).
    destruct (nest_is_dir ds [("LICENSE-MIT", Fs.File data mode)]) as [es N].
    cbn [nest]. rewrite N in *. rewrite finalSearch_subdir.
    destruct (finalSearch repoName (Fs.Dir es) (dir ++ [d]) None) as [[r|] bp];
      simpl in IH; [|discriminate].
    injection IH as ->. simpl. now rewrite <- app_assoc.
Qed.

End Locator.

(** C10: the second pass has no depth bound, does not look at permission
    bits and excludes the non-binary basenames by exact match only.  For a
    tree that holds nothing but a file [LICENSE-MIT], of any mode and below
    any number of directories, the first pass finds nothing, and
    [findBinaryInDir] returns that file, with its mode set to [0o755]. *)
Theorem second_pass_returns_license_mit :
  forall (repoName : string) (ds : list string) (data : string) (mode : Z)
         (dir : Fs.path) (w : world),
    Fs.lookup dir (fs w) = Some (nest ds [("LICENSE-MIT", Fs.File data mode)]) ->
    let tree := nest ds [("LICENSE-MIT", Fs.File data mode)] in
    let binaryPath := (dir ++ ds ++ ["LICENSE-MIT"])%list in
    searchDir repoName tree dir 0 None = None
    /\ fst (findBinaryInDir dir repoName w) = Ok (Fs.string_of_path binaryPath)
    /\ Fs.lookup binaryPath (fs (snd (findBinaryInDir dir repoName w)))
       = Some (Fs.File data 493)
    /\ isCommonNonBinary "LICENSE-MIT" = true
    /\ looseCandidate "LICENSE-MIT" = true
    /\ (forall leaf, 3 < List.length ds -> searchDir repoName (nest ds leaf) dir 0 None = None).
Proof.
  intros repoName ds data mode dir w L tree binaryPath.
  assert (S1 : searchDir repoName tree dir 0 None = None)
    by apply searchDir_license_mit.
  assert (F : Fs.lookup binaryPath (fs w) = Some (Fs.File data mode)).
  { unfold binaryPath. rewrite FsFacts.lookup_app, L, FsFacts.lookup_app, lookup_nest.
    simpl. reflexivity. }
  assert (NE : binaryPath <> []).
  { unfold binaryPath. destruct dir; simpl; [destruct ds|]; discriminate. }
  destruct (FsFacts.chmod_defined binaryPath 493 (fs w) _ NE F) as [n' C].
  assert (R : findBinaryInDir dir repoName w = (Ok (Fs.string_of_path binaryPath), set_fs n' w)).
  { unfold findBinaryInDir. rewrite L.
    destruct (nest_is_dir ds [("LICENSE-MIT", Fs.File data mode)]) as [es N].
    fold tree in N |- *. rewrite N. rewrite <- N.
    unfold locate. rewrite S1.
    unfold tree. rewrite finalSearch_license_mit. fold binaryPath. rewrite C. reflexivity. }
  split; [exact S1|]. rewrite R. simpl.
  split; [reflexivity|].
  split; [eapply FsFacts.lookup_chmod; eauto|].
  split; [apply license_mit_common|].
  split; [apply license_mit_loose|].
  intros leaf D. apply searchDir_depth_bound. simpl. exact D.
Qed.

Lemma second_pass_returns_license_mit_witness :
  fst (findBinaryInDir ["x"] "widget" license_only_world) = Ok "/x/a/b/c/d/e/LICENSE-MIT"
  /\ Fs.lookup ["x"; "a"; "b"; "c"; "d"; "e"; "LICENSE-MIT"]
       (fs (snd (findBinaryInDir ["x"] "widget" license_only_world)))
     = Some (Fs.File "MIT License" 493)
  /\ Fs.has_exec_bit 420 = false.
Proof.
  destruct (second_pass_returns_license_mit "widget" ["a"; "b"; "c"; "d"; "e"]
              "MIT License" 420 ["x"] license_only_world eq_refl)
    as [_ [R [M _]]].
  split; [exact R|]. split; [exact M|reflexivity].
Defined.

(** C3 (as the code has it): in the first pass an accepted candidate, a
    file with an execute bit whose name passes both exclusion tests, becomes
    the pass's [binaryPath], and it ends the loop at once exactly when its
    name matches the repository name (exactly, as a substring, or as an
    [.exe] name containing it) or has no dot and is neither [LICENSE] nor
    [COPYING]; the entries after such a candidate are not looked at. *)
Theorem first_pass_short_circuit :
  forall (repoName : string) (currentDir : Fs.path) (depth : nat)
         (file : string) (mode : Z),
    Fs.has_exec_bit mode = true ->
    isLikelyNonBinary file = false ->
    isCommonNonBinary file = false ->
    visit repoName currentDir depth file (IsFile mode) None
    = (if matchesRepoName repoName file || plainName file then Break else Next,
       Some (currentDir ++ [file])%list)
    /\ (matchesRepoName repoName file || plainName file = true ->
        forall rest,
          scan repoName currentDir depth ((file, IsFile mode) :: rest) None
          = Some (currentDir ++ [file])%list).
Proof.
  intros repoName currentDir depth file mode X L C.
  assert (V : visit repoName currentDir depth file (IsFile mode) None
              = (if matchesRepoName repoName file || plainName file then Break else Next,
                 Some (currentDir ++ [file])%list)).
  { unfold visit. rewrite X, L, C. cbn [negb andb]. unfold goodMatch.
    destruct (matchesRepoName repoName file || plainName file); reflexivity. }
  split; [exact V|].
  intros G rest. cbn [scan]. rewrite V, G. reflexivity.
Qed.

Lemma first_pass_short_circuit_witness :
  visit "widget" ["x"] 0 "widget" (IsFile 493) None = (Break, Some ["x"; "widget"])
  /\ visit "widget" ["x"] 0 "tool.bin" (IsFile 493) None = (Next, Some ["x"; "tool.bin"]).
Proof.
  split.
  - exact (proj1 (first_pass_short_circuit "widget" ["x"] 0 "widget" 493
                    eq_refl eq_refl eq_refl)).
  - exact (proj1 (first_pass_short_circuit "widget" ["x"] 0 "tool.bin" 493
                    eq_refl eq_refl eq_refl)).
Defined.

(** what the guard at the top of the loop makes of a recorded candidate:
    the round after it ends the loop, so an accepted candidate is the
    result of the scan whatever its name and whatever follows it *)
Lemma scan_ends_with_candidate :
  forall (repoName : string) (currentDir : Fs.path) (depth : nat)
         (file : string) (mode : Z) (rest : list (string * entry_kind)),
    Fs.has_exec_bit mode = true ->
    isLikelyNonBinary file = false ->
    isCommonNonBinary file = false ->
    scan repoName currentDir depth ((file, IsFile mode) :: rest) None
    = Some (currentDir ++ [file])%list.
Proof.
  intros repoName currentDir depth file mode rest X L C.
  cbn [scan]. unfold visit at 1. rewrite X, L, C. cbn [negb andb].
  destruct (goodMatch repoName file); [reflexivity|].
  destruct rest as [|[f k] rest]; reflexivity.
Qed.

Example recorded_candidate_is_final :
  searchDir "widget"
    (Fs.Dir [("tool.bin", Fs.File "" 493); ("sub", Fs.Dir [("widget", Fs.File "" 493)])])
    ["x"] 0 None
  = Some ["x"; "tool.bin"].
Proof. vm_compute. reflexivity. Qed.

(** C3, refuted as stated: the executable file [tool] is an accepted
    candidate whose name does not match the repository name [widget], and it
    ends the scan at once: the loop breaks on it, and the file [widget] in
    the directory listed after it is never looked at. *)
Lemma unrelated_name_short_circuits :
  Fs.has_exec_bit 493 = true
  /\ isLikelyNonBinary "tool" = false
  /\ isCommonNonBinary "tool" = false
  /\ matchesRepoName "widget" "tool" = false
  /\ visit "widget" ["x"] 0 "tool" (IsFile 493) None = (Break, Some ["x"; "tool"])
  /\ searchDir "widget"
       (Fs.Dir [("tool", Fs.File "" 493); ("sub", Fs.Dir [("widget", Fs.File "" 493)])])
       ["x"] 0 None
     = Some ["x"; "tool"].
Proof.
  repeat split; vm_compute; reflexivity.
Qed.

(* ================================================================= *)
(** ** The cache and the run *)

Section Cache.
Local Open Scope list_scope.

Lemma set_fs_same w : set_fs (fs w) w = w.
Proof. destruct w; reflexivity. Qed.

Lemma network_calls_app es es' :
  network_calls (es ++ es') = network_calls es + network_calls es'.
Proof. unfold network_calls. now rewrite filter_app, length_app. Qed.

Lemma access_names_executable text p n :
  Fs.resolve text = Some p ->
  Fs.access p Fs.X_OK n = names_executable text n.
Proof.
  intro R. unfold names_executable, Fs.access. rewrite R.
  destruct (Fs.lookup p n) as [[d m|es]|]; reflexivity.
Qed.

Lemma access_names_existing text p n :
  Fs.resolve text = Some p ->
  Fs.access p Fs.F_OK n = names_existing text n.
Proof.
  intro R. unfold names_existing, Fs.access. rewrite R.
  destruct (Fs.lookup p n) as [[d m|es]|]; reflexivity.
Qed.

(** the [try] block on the whole-entry marker, by what the marker holds *)
Lemma tryCachedBinary_eq marker w :
  tryCachedBinary marker w
  = match Fs.readFile marker (fs w) with
    | Some text => if names_executable text (fs w) then (Ok text, w) else (Err FsError, w)
    | None => (Err FsError, w)
    end.
Proof.
  unfold tryCachedBinary, bind, fs_get, fs_access, ret.
  destruct (Fs.readFile marker (fs w)) as [text|]; [|reflexivity].
  unfold names_executable.
  destruct (Fs.resolve text) as [p|] eqn:R; [|reflexivity].
  unfold Fs.access.
  destruct (Fs.lookup p (fs w)) as [[d m|es]|]; try reflexivity.
  destruct (Z.testbit m 6); reflexivity.
Qed.


(** the directories of a cache entry whose marker can be read exist *)
Lemma marker_directories E o r v text n :
  Fs.readFile (binDir E o r v ++ [".binary_path"]) n = Some text ->
  Fs.mkdir_p (cacheDir E) n = Some n /\ Fs.mkdir_p (binDir E o r v) n = Some n.
Proof.
  unfold Fs.readFile. intro H.
  destruct (Fs.lookup (binDir E o r v ++ [".binary_path"]) n) as [x|] eqn:L; [|discriminate].
  destruct (FsFacts.lookup_parent _ _ _ _ L) as [es B].
  split; [|eapply FsFacts.mkdir_p_existing; exact B].
  unfold binDir in B.
  destruct (FsFacts.lookup_parent _ _ _ _ B) as [es' C].
  eapply FsFacts.mkdir_p_existing; exact C.
Qed.

End Cache.

(** C1 (as the code has it): for a reference with an explicit version whose
    whole-entry marker names an executable file, a re-invocation makes
    exactly one outbound network call, the listing of the release's assets,
    which comes before the cache is looked at; when that listing succeeds
    and an asset matches, the run then spawns the cached binary without a
    download, an extraction or a change to the file system. *)
Theorem cached_run_lists_assets_once :
  forall (E : env) (repoInput : string) (args : list string) (w : world)
         (ref : RepositoryReference) (assets : jsval) (assetList : list asset)
         (systemInfo : SystemInfo) (asset : MatchedAsset) (cachedPath : string),
    parseRepoURL repoInput = Ok ref ->
    version ref <> "latest" ->
    Fs.readFile (binDir E (owner ref) (repo ref) (version ref) ++ [".binary_path"])%list (fs w)
      = Some cachedPath ->
    names_executable cachedPath (fs w) = true ->
    onAssetsResponse (api E (assetsPath (owner ref) (repo ref) (version ref))) = Ok assets ->
    getSystemInfo (os_platform E) (os_arch E) = Ok systemInfo ->
    asset_list assets = Ok assetList ->
    findMatchingAsset assetList systemInfo (repo ref) = Ok asset ->
    let settled := run E repoInput args w in
    events (snd settled)
      = (events w ++
         [HttpsGet (api_host ++ assetsPath (owner ref) (repo ref) (version ref));
          Spawned cachedPath args])%list
    /\ network_calls (events (snd settled)) = network_calls (events w) + 1
    /\ fs (snd settled) = fs w.
Proof.
  intros E repoInput args w ref assets assetList systemInfo asset cachedPath
         P V M X A S L F settled.
  assert (R : run E repoInput args w
              = spawnAndWait E cachedPath args
                  (emit (HttpsGet (api_host ++ assetsPath (owner ref) (repo ref) (version ref))) w)).
  { unfold run, bind, lift. rewrite P.
    apply String.eqb_neq in V. rewrite V. unfold ret at 1.
    unfold getReleaseAssets. rewrite A, S, L, F.
    destruct (marker_directories E _ _ _ _ _ M) as [D1 D2].
    unfold fs_do. cbn [fs emit]. rewrite D1. cbn [fs set_fs]. rewrite D2.
    unfold catch. rewrite tryCachedBinary_eq. cbn [fs set_fs]. rewrite M, X.
    reflexivity. }
  subst settled. rewrite R. unfold spawnAndWait.
  destruct (child E cachedPath args) as [[|c|c]|]; cbn [snd events emit fs];
    rewrite <- ?app_assoc; cbn [app];
    (split; [reflexivity|]; split; [|reflexivity]);
    rewrite network_calls_app; reflexivity.
Qed.

Lemma cached_run_lists_assets_once_witness :
  let settled := run widget_host "github.com/acme/widget@v1.2.0" [] cached_world in
  events (snd settled)
    = [HttpsGet "https://api.github.com/repos/acme/widget/releases/tags/v1.2.0";
       Spawned "/home/u/.binrun/cache/acme_widget_v1.2.0/bin/widget" []]
  /\ network_calls (events (snd settled)) = 1
  /\ fs (snd settled) = fs cached_world.
Proof.
  apply (cached_run_lists_assets_once widget_host "github.com/acme/widget@v1.2.0" []
           cached_world (mkRef "acme" "widget" "v1.2.0")
           (J (Json.JArr
                 [Json.JObj [("name", Json.JStr "widget_Darwin_arm64.tar.gz");
                             ("browser_download_url", Json.JStr "https://dl/darwin")];
                  Json.JObj [("name", Json.JStr "widget_Linux_x86_64.tar.gz");
                             ("browser_download_url", Json.JStr "https://dl/linux")]]))
           [mkAsset "widget_Darwin_arm64.tar.gz" "https://dl/darwin";
            mkAsset "widget_Linux_x86_64.tar.gz" "https://dl/linux"]
           darwin_arm64
           (mkMatched (mkAsset "widget_Darwin_arm64.tar.gz" "https://dl/darwin")
                      true false false)
           "/home/u/.binrun/cache/acme_widget_v1.2.0/bin/widget").
  - reflexivity.
  - discriminate.
  - reflexivity.
  - reflexivity.
  - reflexivity.
  - reflexivity.
  - reflexivity.
  - reflexivity.
Defined.

(** C1, refuted as stated: the first run of [github.com/acme/widget@v1.2.0]
    leaves a whole-entry marker that names an executable file; the second
    run spawns that file, and before it asks the API for the release once
    more: one network call, not none. *)
Lemma cached_run_calls_network :
  fst (run widget_host "github.com/acme/widget@v1.2.0" [] fresh_world) = Ok tt
  /\ Fs.readFile ["home"; "u"; ".binrun"; "cache"; "acme_widget_v1.2.0"; ".binary_path"]
       (fs cached_world)
     = Some "/home/u/.binrun/cache/acme_widget_v1.2.0/bin/widget"
  /\ names_executable "/home/u/.binrun/cache/acme_widget_v1.2.0/bin/widget" (fs cached_world)
     = true
  /\ events (snd (run widget_host "github.com/acme/widget@v1.2.0" [] cached_world))
     = [HttpsGet "https://api.github.com/repos/acme/widget/releases/tags/v1.2.0";
        Spawned "/home/u/.binrun/cache/acme_widget_v1.2.0/bin/widget" []]
  /\ network_calls
       (events (snd (run widget_host "github.com/acme/widget@v1.2.0" [] cached_world)))
     <> 0.
Proof.
  repeat split; try (vm_compute; reflexivity).
  vm_compute. discriminate.
Qed.

(** without the listing there is no run, cached binary or not *)
Lemma cached_run_needs_listing :
  forall (E : env) (repoInput : string) (args : list string) (w : world)
         (ref : RepositoryReference),
    parseRepoURL repoInput = Ok ref ->
    version ref <> "latest" ->
    api E (assetsPath (owner ref) (repo ref) (version ref)) = NoReply ->
    run E repoInput args w
    = (Err NetworkError,
       emit (HttpsGet (api_host ++ assetsPath (owner ref) (repo ref) (version ref))) w).
Proof.
  intros E repoInput args w ref P V A.
  unfold run, bind, lift. rewrite P.
  apply String.eqb_neq in V. rewrite V. unfold ret at 1.
  unfold getReleaseAssets. rewrite A. reflexivity.
Qed.


(* ================================================================= *)
(** ** Further properties: references and cache keys *)

Lemma reference_text_latest o r :
  reference_text o r (Some "latest") = reference_text o r None ++ "@latest".
Proof.
  unfold reference_text, version_suffix.
  rewrite StrFacts.append_nil_r, ?StrFacts.append_assoc. reflexivity.
Qed.

Lemma version_or_latest_eq v v' :
  version_or_latest v = version_or_latest v' ->
  v = v' \/ (v = None /\ v' = Some "latest") \/ (v = Some "latest" /\ v' = None).
Proof.
  destruct v as [x|], v' as [y|]; simpl; intro H; subst; auto.
Qed.

(** X1: two texts that parse to the same reference are the same text, or
    one is the other followed by [@latest]: the suffix [@latest] is read as
    no version at all. *)
Theorem same_reference_same_text :
  forall (a b : string) (ref : RepositoryReference),
    parseRepoURL a = Ok ref ->
    parseRepoURL b = Ok ref ->
    a = b \/ a = b ++ "@latest" \/ b = a ++ "@latest".
Proof.
  intros a b ref Pa Pb.
  destruct (parse_sound a ref Pa) as [o [r [v [O [R [V Ea]]]]]].
  destruct (parse_sound b ref Pb) as [o' [r' [v' [O' [R' [V' Eb]]]]]].
  subst a b. rewrite parse_complete in Pa, Pb by assumption.
  rewrite <- Pb in Pa. injection Pa as <- <- Hv.
  destruct (version_or_latest_eq _ _ Hv) as [->|[[-> ->]|[-> ->]]].
  - left. reflexivity.
  - right. right. apply reference_text_latest.
  - right. left. apply reference_text_latest.
Qed.

Lemma same_reference_same_text_witness :
  "github.com/acme/widget@latest" = "github.com/acme/widget"
  \/ "github.com/acme/widget@latest" = "github.com/acme/widget" ++ "@latest"
  \/ "github.com/acme/widget" = "github.com/acme/widget@latest" ++ "@latest".
Proof.
  apply (same_reference_same_text "github.com/acme/widget@latest" "github.com/acme/widget"
           (mkRef "acme" "widget" "latest")); reflexivity.
Defined.
(* ================================================================= *)
(** ** Further properties: a run over a trusted marker *)

Section MarkerRuns.
Local Open Scope list_scope.
Variable E : env.

(** a run up to the cache: one request for an explicit version *)
Lemma run_versioned_eq repoInput args w ref assets assetList systemInfo asset :
  parseRepoURL repoInput = Ok ref ->
  version ref <> "latest"%string ->
  onAssetsResponse (api E (assetsPath (owner ref) (repo ref) (version ref))) = Ok assets ->
  getSystemInfo (os_platform E) (os_arch E) = Ok systemInfo ->
  asset_list assets = Ok assetList ->
  findMatchingAsset assetList systemInfo (repo ref) = Ok asset ->
  run E repoInput args w
  = (let dir := binDir E (owner ref) (repo ref) (version ref) in
     fs_do (Fs.mkdir_p (cacheDir E)) ;;;
     fs_do (Fs.mkdir_p dir) ;;;
     executablePath <-
       catch (tryCachedBinary (dir ++ [".binary_path"]))
             (resolveBinary E (repo ref) asset dir) ;;
     spawnAndWait E executablePath args)
      (emit (HttpsGet (api_host ++ assetsPath (owner ref) (repo ref) (version ref))) w).
Proof.
  intros P V A S L F.
  unfold run at 1. unfold bind at 1. unfold lift at 1. rewrite P.
  apply String.eqb_neq in V. rewrite V.
  unfold bind at 1. unfold ret at 1.
  unfold bind at 1. unfold getReleaseAssets at 1. rewrite A.
  unfold bind at 1. unfold lift at 1. rewrite S.
  unfold bind at 1. unfold lift at 1. rewrite L.
  unfold bind at 1. unfold lift at 1. rewrite F.
  reflexivity.
Qed.

(** a run over a trusted whole-entry marker spawns what the marker names *)
Lemma run_hits_marker repoInput args w ref assets assetList systemInfo asset cachedPath :
  parseRepoURL repoInput = Ok ref ->
  version ref <> "latest"%string ->
  onAssetsResponse (api E (assetsPath (owner ref) (repo ref) (version ref))) = Ok assets ->
  getSystemInfo (os_platform E) (os_arch E) = Ok systemInfo ->
  asset_list assets = Ok assetList ->
  findMatchingAsset assetList systemInfo (repo ref) = Ok asset ->
  Fs.readFile (binDir E (owner ref) (repo ref) (version ref) ++ [".binary_path"]) (fs w)
    = Some cachedPath ->
  names_executable cachedPath (fs w) = true ->
  run E repoInput args w
  = spawnAndWait E cachedPath args
      (emit (HttpsGet (api_host ++ assetsPath (owner ref) (repo ref) (version ref))) w).
Proof.
  intros P V A S L F M X.
  rewrite (run_versioned_eq repoInput args w ref assets assetList systemInfo asset)
    by assumption.
  cbv zeta. unfold bind, fs_do. cbn [fs emit].
  destruct (marker_directories E _ _ _ _ _ M) as [D1 D2].
  rewrite D1. cbn [fs set_fs]. rewrite D2.
  unfold catch. rewrite tryCachedBinary_eq. cbn [fs set_fs]. rewrite M, X.
  reflexivity.
Qed.

End MarkerRuns.

Section KeysAndStages.
Local Open Scope list_scope.
Variable E : env.

Lemma valid_name_app a b :
  valid_name a = true -> Str.all name_char b = true -> valid_name (a ++ b)%string = true.
Proof.
  unfold valid_name. intro H. apply andb_prop in H. destruct H as [N A]. intro B.
  destruct a as [|c a]; [discriminate|]. cbn [append Str.nonempty andb].
  simpl in A. apply andb_prop in A. destruct A as [C A].
  cbn [Str.all]. rewrite C. cbn [andb].
  clear N C c. induction a as [|c a IH]; simpl; [exact B|].
  simpl in A. apply andb_prop in A. destruct A as [C A]. rewrite C. now apply IH.
Qed.

Lemma cacheKey_shift o x r v :
  cacheKey (o ++ "_" ++ x) r v = cacheKey o (x ++ "_" ++ r) v.
Proof. unfold cacheKey. now rewrite !StrFacts.append_assoc. Qed.

(** a run whose asset stage fails ends there *)
Lemma run_versioned_stops repoInput args w ref e :
  parseRepoURL repoInput = Ok ref ->
  version ref <> "latest"%string ->
  selectAsset E (api E (assetsPath (owner ref) (repo ref) (version ref))) (repo ref) = Err e ->
  run E repoInput args w
  = (Err e, emit (HttpsGet (api_host ++ assetsPath (owner ref) (repo ref) (version ref))) w).
Proof.
  intros P V S. unfold selectAsset in S.
  unfold run, bind, lift. rewrite P.
  apply String.eqb_neq in V. rewrite V. unfold ret at 1.
  unfold getReleaseAssets.
  destruct (onAssetsResponse _) as [assets|e1]; [|congruence].
  destruct (getSystemInfo _ _) as [systemInfo|e2]; [|congruence].
  destruct (asset_list assets) as [assetList|e3]; [|congruence].
  rewrite S. reflexivity.
Qed.

End KeysAndStages.

(** X2: the cache key joins owner, repository and version with [_], which
    names may contain: the references [<o>_<x>/<r>] and [<o>/<x>_<r>] share
    one cache entry, and a run for the second spawns the binary that the
    marker of the first names. *)
Theorem cache_key_collision :
  forall (E : env) (o x r v : string) (args : list string) (w : world)
         (assets : jsval) (assetList : list asset) (systemInfo : SystemInfo)
         (asset : MatchedAsset) (cachedPath : string),
    valid_name o = true -> valid_name x = true -> valid_name r = true ->
    valid_name v = true -> v <> "latest" ->
    Fs.readFile (binDir E (o ++ "_" ++ x) r v ++ [".binary_path"])%list (fs w)
      = Some cachedPath ->
    names_executable cachedPath (fs w) = true ->
    onAssetsResponse (api E (assetsPath o (x ++ "_" ++ r) v)) = Ok assets ->
    getSystemInfo (os_platform E) (os_arch E) = Ok systemInfo ->
    asset_list assets = Ok assetList ->
    findMatchingAsset assetList systemInfo (x ++ "_" ++ r) = Ok asset ->
    parseRepoURL (reference_text (o ++ "_" ++ x) r (Some v)) = Ok (mkRef (o ++ "_" ++ x) r v)
    /\ parseRepoURL (reference_text o (x ++ "_" ++ r) (Some v)) = Ok (mkRef o (x ++ "_" ++ r) v)
    /\ binDir E (o ++ "_" ++ x) r v = binDir E o (x ++ "_" ++ r) v
    /\ run E (reference_text o (x ++ "_" ++ r) (Some v)) args w
       = spawnAndWait E cachedPath args
           (emit (HttpsGet (api_host ++ assetsPath o (x ++ "_" ++ r) v)) w).
Proof.
  intros E o x r v args w assets assetList systemInfo asset cachedPath
         O X R V NL M XO A S L F.
  assert (VX : Str.all name_char x = true)
    by (unfold valid_name in X; apply andb_prop in X; tauto).
  assert (VR : Str.all name_char r = true)
    by (unfold valid_name in R; apply andb_prop in R; tauto).
  assert (P1 : parseRepoURL (reference_text (o ++ "_" ++ x) r (Some v))
               = Ok (mkRef (o ++ "_" ++ x) r v)).
  { apply (parse_complete (o ++ "_" ++ x) r (Some v)); auto.
    apply valid_name_app; [exact O|]. cbn [append Str.all]. exact VX. }
  assert (P2 : parseRepoURL (reference_text o (x ++ "_" ++ r) (Some v))
               = Ok (mkRef o (x ++ "_" ++ r) v)).
  { apply (parse_complete o (x ++ "_" ++ r) (Some v)); auto.
    apply valid_name_app; [exact X|]. cbn [append Str.all]. exact VR. }
  assert (K : binDir E (o ++ "_" ++ x) r v = binDir E o (x ++ "_" ++ r) v).
  { unfold binDir. fold (cacheKey (o ++ "_" ++ x) r v). fold (cacheKey o (x ++ "_" ++ r) v).
    now rewrite cacheKey_shift. }
  split; [exact P1|]. split; [exact P2|]. split; [exact K|].
  rewrite K in M.
  apply (run_hits_marker E _ args w (mkRef o (x ++ "_" ++ r) v)
           assets assetList systemInfo asset cachedPath); auto.
Qed.

(** X3: when the listing of an explicit version fails, or the platform is
    not supported, or no asset matches, the run ends with that error after
    its one request: no directory is made, nothing is spawned, and a cached
    binary is not looked for. *)
Theorem failed_asset_stage_ends_run :
  forall (E : env) (repoInput : string) (args : list string) (w : world)
         (ref : RepositoryReference) (e : error),
    parseRepoURL repoInput = Ok ref ->
    version ref <> "latest" ->
    selectAsset E (api E (assetsPath (owner ref) (repo ref) (version ref))) (repo ref) = Err e ->
    let settled := run E repoInput args w in
    fst settled = Err e
    /\ fs (snd settled) = fs w
    /\ events (snd settled)
       = (events w ++ [HttpsGet (api_host ++ assetsPath (owner ref) (repo ref) (version ref))])%list.
Proof.
  intros E repoInput args w ref e P V S settled. subst settled.
  rewrite (run_versioned_stops E repoInput args w ref e P V S). auto.
Qed.

Lemma cache_key_collision_witness :
  binDir me_widget_host "ac_me" "widget" "v1" = binDir me_widget_host "ac" "me_widget" "v1"
  /\ events (snd (run me_widget_host "github.com/ac/me_widget@v1" [] ac_me_world))
     = [HttpsGet "https://api.github.com/repos/ac/me_widget/releases/tags/v1";
        Spawned "/home/u/.binrun/cache/ac_me_widget_v1/widget" []].
Proof.
  destruct (cache_key_collision me_widget_host "ac" "me" "widget" "v1" [] ac_me_world
              (J (Json.JArr
                    [Json.JObj [("name", Json.JStr "me_widget_Linux_x86_64.tar.gz");
                                ("browser_download_url", Json.JStr "https://dl/me")]]))
              [mkAsset "me_widget_Linux_x86_64.tar.gz" "https://dl/me"]
              linux_x64
              (mkMatched (mkAsset "me_widget_Linux_x86_64.tar.gz" "https://dl/me")
                         true false false)
              "/home/u/.binrun/cache/ac_me_widget_v1/widget")
    as [_ [_ [K R]]];
    try reflexivity; try discriminate.
  split; [exact K|].
  change (reference_text "ac" ("me" ++ "_" ++ "widget") (Some "v1"))
    with "github.com/ac/me_widget@v1" in R.
  rewrite R. reflexivity.
Defined.

Lemma failed_asset_stage_ends_run_witness :
  names_executable "/home/u/.binrun/cache/acme_widget_v1.2.0/bin/widget" (fs cached_world)
  = true
  /\ fst (run windows_host "github.com/acme/widget@v1.2.0" [] cached_world)
     = Err NoMatchingAsset
  /\ fs (snd (run windows_host "github.com/acme/widget@v1.2.0" [] cached_world))
     = fs cached_world.
Proof.
  split; [vm_compute; reflexivity|].
  destruct (failed_asset_stage_ends_run windows_host "github.com/acme/widget@v1.2.0" []
              cached_world (mkRef "acme" "widget" "v1.2.0") NoMatchingAsset)
    as [R [F _]].
  - reflexivity.
  - discriminate.
  - vm_compute. reflexivity.
  - split; [exact R|exact F].
Defined.

(* ================================================================= *)
(** ** Further properties: the asset matcher *)

Section MatcherTiers.
Local Open Scope list_scope.

Lemma find_first {A} (f : A -> bool) (l : list A) x :
  find f l = Some x ->
  exists l1 l2, l = l1 ++ x :: l2 /\ f x = true /\ forall y, In y l1 -> f y = false.
Proof.
  induction l as [|a l IH]; simpl; [discriminate|].
  destruct (f a) eqn:Fa.
  - intro H. injection H as <-. exists [], l. simpl. tauto.
  - intro H. destruct (IH H) as [l1 [l2 [E [Fx N]]]].
    exists (a :: l1), l2. subst l. simpl. split; [reflexivity|]. split; [exact Fx|].
    intros y [<-|Hy]; auto.
Qed.

Lemma find_nothing {A} (f : A -> bool) (l : list A) :
  find f l = None <-> forall y, In y l -> f y = false.
Proof.
  split.
  - intros H y Hy. eapply find_none in H; eauto.
  - intro H. destruct (find f l) as [x|] eqn:F; [|reflexivity].
    apply find_some in F. destruct F as [Hin Fx]. rewrite (H x Hin) in Fx. discriminate.
Qed.

End MatcherTiers.

(** X4: the asset the matcher returns is in the list, passes the pattern of
    its tier and is the first in list order to pass it; it is flagged as a
    zip archive only when no asset passes the tar pattern, and as a direct
    binary only when no asset passes the tar or the zip pattern. *)
Theorem matched_asset_first_of_tier :
  forall (assets : list asset) (systemInfo : SystemInfo) (repo : string) (m : MatchedAsset),
    findMatchingAsset assets systemInfo repo = Ok m ->
    exists tarRegex re before after,
      RegExp.compile (tarSource systemInfo repo) = Some tarRegex
      /\ assets = (before ++ found m :: after)%list
      /\ Re.test true re (name (found m)) = true
      /\ (forall a, In a before -> Re.test true re (name a) = false)
      /\ ((re = tarRegex /\ (isTar m, isZip m, isBinary m) = (true, false, false))
          \/ (RegExp.compile (zipSource systemInfo repo) = Some re
              /\ (isTar m, isZip m, isBinary m) = (false, true, false)
              /\ forall a, In a assets -> Re.test true tarRegex (name a) = false)
          \/ (RegExp.compile (binarySource systemInfo repo) = Some re
              /\ (isTar m, isZip m, isBinary m) = (false, false, true)
              /\ (forall a, In a assets -> Re.test true tarRegex (name a) = false)
              /\ exists zipRegex,
                   RegExp.compile (zipSource systemInfo repo) = Some zipRegex
                   /\ forall a, In a assets -> Re.test true zipRegex (name a) = false)).
Proof.
  intros assets systemInfo repo m. unfold findMatchingAsset, findByName.
  destruct (RegExp.compile (tarSource systemInfo repo)) as [tarRegex|]; [|discriminate].
  destruct (find (fun a => Re.test true tarRegex (name a)) assets) as [t|] eqn:Ft.
  { intro H. injection H as <-.
    destruct (find_first _ _ _ Ft) as [l1 [l2 [E [T N]]]].
    exists tarRegex, tarRegex, l1, l2. cbn [found isTar isZip isBinary]. auto 10. }
  rewrite find_nothing in Ft.
  destruct (RegExp.compile (zipSource systemInfo repo)) as [zipRegex|]; [|discriminate].
  destruct (find (fun a => Re.test true zipRegex (name a)) assets) as [z|] eqn:Fz.
  { intro H. injection H as <-.
    destruct (find_first _ _ _ Fz) as [l1 [l2 [E [T N]]]].
    exists tarRegex, zipRegex, l1, l2. cbn [found isTar isZip isBinary]. auto 10. }
  rewrite find_nothing in Fz.
  destruct (RegExp.compile (binarySource systemInfo repo)) as [binaryRegex|]; [|discriminate].
  destruct (find (fun a => Re.test true binaryRegex (name a)) assets) as [b|] eqn:Fb; [|discriminate].
  intro H. injection H as <-.
  destruct (find_first _ _ _ Fb) as [l1 [l2 [E [T N]]]].
  exists tarRegex, binaryRegex, l1, l2. cbn [found isTar isZip isBinary].
  repeat (split; [solve [auto]|]). right. right. eauto 10.
Qed.

Lemma matched_asset_first_of_tier_witness :
  exists tarRegex re before after,
    RegExp.compile (tarSource linux_x64 "widget") = Some tarRegex
    /\ [mkAsset "widget_Darwin_arm64.zip" "d"; mkAsset "widget_Linux_x86_64.zip" "a";
        mkAsset "WIDGET_linux_x86_64.ZIP" "b"]
       = (before ++ mkAsset "widget_Linux_x86_64.zip" "a" :: after)%list
    /\ Re.test true re "widget_Linux_x86_64.zip" = true
    /\ (forall a, In a before -> Re.test true re (name a) = false).
Proof.
  destruct (matched_asset_first_of_tier
              [mkAsset "widget_Darwin_arm64.zip" "d"; mkAsset "widget_Linux_x86_64.zip" "a";
               mkAsset "WIDGET_linux_x86_64.ZIP" "b"] linux_x64 "widget"
              (mkMatched (mkAsset "widget_Linux_x86_64.zip" "a") false true false) eq_refl)
    as [tarRegex [re [before [after [C [E [T [N _]]]]]]]].
  exists tarRegex, re, before, after. auto.
Defined.

(** X5: the matcher fails with [NoMatchingAsset] exactly when its three
    patterns compile and no asset of the list passes any of them. *)
Theorem no_matching_asset_iff :
  forall (assets : list asset) (systemInfo : SystemInfo) (repo : string),
    findMatchingAsset assets systemInfo repo = Err NoMatchingAsset
    <-> exists tarRegex zipRegex binaryRegex,
          RegExp.compile (tarSource systemInfo repo) = Some tarRegex
          /\ RegExp.compile (zipSource systemInfo repo) = Some zipRegex
          /\ RegExp.compile (binarySource systemInfo repo) = Some binaryRegex
          /\ forall a, In a assets ->
               Re.test true tarRegex (name a) = false
               /\ Re.test true zipRegex (name a) = false
               /\ Re.test true binaryRegex (name a) = false.
Proof.
  intros assets systemInfo repo. unfold findMatchingAsset, findByName. split.
  - destruct (RegExp.compile (tarSource systemInfo repo)) as [tarRegex|]; [|discriminate].
    destruct (find (fun a => Re.test true tarRegex (name a)) assets) as [t|] eqn:Ft; [discriminate|].
    destruct (RegExp.compile (zipSource systemInfo repo)) as [zipRegex|]; [|discriminate].
    destruct (find (fun a => Re.test true zipRegex (name a)) assets) as [z|] eqn:Fz; [discriminate|].
    destruct (RegExp.compile (binarySource systemInfo repo)) as [binaryRegex|]; [|discriminate].
    destruct (find (fun a => Re.test true binaryRegex (name a)) assets) as [b|] eqn:Fb; [discriminate|].
    intros _. rewrite find_nothing in Ft, Fz, Fb.
    exists tarRegex, zipRegex, binaryRegex. auto 10.
  - intros [tarRegex [zipRegex [binaryRegex [Ct [Cz [Cb N]]]]]].
    rewrite Ct, Cz, Cb.
    replace (find (fun a => Re.test true tarRegex (name a)) assets) with (@None asset)
      by (symmetry; apply find_nothing; intros y Hy; apply N; exact Hy).
    replace (find (fun a => Re.test true zipRegex (name a)) assets) with (@None asset)
      by (symmetry; apply find_nothing; intros y Hy; apply N; exact Hy).
    replace (find (fun a => Re.test true binaryRegex (name a)) assets) with (@None asset)
      by (symmetry; apply find_nothing; intros y Hy; apply N; exact Hy).
    reflexivity.
Qed.

Section NameLengths.
Import Re RegExp.
Local Open Scope list_scope.

(** a successful match hands on a text that is shorter by the least length
    of the pattern, or more *)
Lemma bt_consumes ic r :
  forall bol s cs k ans,
    bt ic r bol s cs k = Some ans ->
    exists bol' s' cs',
      k bol' s' cs' = Some ans /\ String.length s' + min_length r <= String.length s.
Proof.
  induction r as [|cl|a IHa b IHb|a IHa b IHb|a IHa|cl|i a IHa| |];
    intros bol s cs k ans H.
  - exists bol, s, cs. simpl in *. split; [exact H|lia].
  - destruct (ReFacts.bt_chr_inv _ _ _ _ _ _ _ H) as [x [s' [-> [_ K]]]].
    exists false, s', cs. simpl. split; [exact K|lia].
  - rewrite ReFacts.bt_seq in H.
    destruct (IHa _ _ _ _ _ H) as [b1 [s1 [c1 [H1 L1]]]].
    destruct (IHb _ _ _ _ _ H1) as [b2 [s2 [c2 [H2 L2]]]].
    exists b2, s2, c2. simpl. split; [exact H2|lia].
  - cbn [bt] in H. destruct (bt ic a bol s cs k) as [x|] eqn:A.
    + destruct (IHa _ _ _ _ _ A) as [b1 [s1 [c1 [H1 L1]]]].
      exists b1, s1, c1. rewrite H1. split; [congruence|]. simpl. lia.
    + destruct (IHb _ _ _ _ _ H) as [b1 [s1 [c1 [H1 L1]]]].
      exists b1, s1, c1. split; [exact H1|]. simpl. lia.
  - rewrite ReFacts.bt_opt in H. destruct (bt ic a bol s cs k) as [x|] eqn:A.
    + destruct (IHa _ _ _ _ _ A) as [b1 [s1 [c1 [H1 L1]]]].
      exists b1, s1, c1. rewrite H1. split; [congruence|]. simpl. lia.
    + exists bol, s, cs. split; [exact H|]. simpl. lia.
  - cbn [bt] in H.
    destruct (ReFacts.plus_loop_inv _ _ _ _ _ _ H) as [o [rest [-> [N [_ K]]]]].
    exists false, rest, cs. split; [exact K|].
    rewrite StrFacts.length_append. destruct o; [discriminate|]. simpl. lia.
  - cbn [bt] in H. destruct (IHa _ _ _ _ _ H) as [b1 [s1 [c1 [H1 L1]]]].
    eexists b1, s1, _. split; [exact H1|]. simpl. exact L1.
  - cbn [bt] in H. destruct bol; [|discriminate].
    exists true, s, cs. split; [exact H|]. simpl. lia.
  - destruct (ReFacts.bt_eol_inv _ _ _ _ _ _ H) as [-> K].
    exists bol, "", cs. split; [exact K|]. simpl. lia.
Qed.

Lemma search_from_min_length ic r s :
  forall bol off x,
    search_from ic r bol off s = Some x -> min_length r <= String.length s.
Proof.
  induction s as [|c s IH]; intros bol off x; rewrite ReFacts.search_from_eq;
    destruct (bt ic r bol _ [] accept) as [[rest cs]|] eqn:B.
  - intros _. destruct (bt_consumes _ _ _ _ _ _ _ B) as [b1 [s1 [c1 [_ L]]]]. lia.
  - discriminate.
  - intros _. destruct (bt_consumes _ _ _ _ _ _ _ B) as [b1 [s1 [c1 [_ L]]]]. lia.
  - intro H. apply IH in H. simpl. lia.
Qed.

(** a text shorter than the least match of a pattern does not pass its test *)
Lemma test_too_short ic r s :
  String.length s < min_length r -> test ic r s = false.
Proof.
  intro L. unfold test, exec.
  destruct (search_from ic r true 0 s) as [x|] eqn:S; [|reflexivity].
  apply search_from_min_length in S. lia.
Qed.

Lemma min_length_seq_atoms repo tail :
  min_length (seq_atoms repo tail) = String.length repo + min_length tail.
Proof.
  induction repo as [|c repo IH]; [reflexivity|].
  cbn [seq_atoms min_length String.length]. rewrite IH.
  unfold name_atom. destruct (c =? ".")%char; reflexivity.
Qed.

Lemma binarySource_split systemInfo repo :
  binarySource systemInfo repo = (repo ++ binarySource systemInfo "")%string.
Proof. reflexivity. Qed.

Lemma parse_rest_of_binarySource :
  Forall (fun systemInfo =>
            forall cur,
              parse (binarySource systemInfo "") (mkFrame [] cur) [] 1
              = option_map (fold_left (fun acc t => Seq t acc) cur)
                  (compile (binarySource systemInfo "")))
         supported_systems.
Proof. repeat constructor; vm_compute; reflexivity. Qed.

Lemma tails_all_checked : forallb tails_checked supported_systems = true.
Proof. vm_compute. reflexivity. Qed.

(** the three patterns of a supported platform, for a valid name: the
    terms of the name before the pattern of the rest of the source *)
Lemma compiled_patterns systemInfo repo :
  In systemInfo supported_systems ->
  Str.all name_char repo = true ->
  exists t z b,
    compile (tarSource systemInfo "") = Some t
    /\ compile (zipSource systemInfo "") = Some z
    /\ compile (binarySource systemInfo "") = Some b
    /\ compile (tarSource systemInfo repo) = Some (seq_atoms repo t)
    /\ compile (zipSource systemInfo repo) = Some (seq_atoms repo z)
    /\ compile (binarySource systemInfo repo) = Some (seq_atoms repo b).
Proof.
  intros G A.
  pose proof parse_rest_of_source as P. rewrite Forall_forall in P. specialize (P _ G).
  pose proof parse_rest_of_binarySource as Q. rewrite Forall_forall in Q. specialize (Q _ G).
  pose proof tails_all_checked as T. rewrite forallb_forall in T. specialize (T _ G).
  pose proof (compile_after_name (tarSource systemInfo "") repo (fun c => proj1 (P c)) A) as Ct.
  pose proof (compile_after_name (zipSource systemInfo "") repo (fun c => proj2 (P c)) A) as Cz.
  pose proof (compile_after_name (binarySource systemInfo "") repo Q A) as Cb.
  unfold tails_checked in T.
  destruct (compile (tarSource systemInfo "")) as [t|]; [|discriminate].
  destruct (compile (zipSource systemInfo "")) as [z|]; [|discriminate].
  destruct (compile (binarySource systemInfo "")) as [b|]; [|discriminate].
  exists t, z, b. rewrite tarSource_split, zipSource_split, binarySource_split. auto 10.
Qed.

End NameLengths.

(** X6: an asset named exactly as the repository is selected as a direct
    binary on Darwin and Linux, and is not selected on Windows, where the
    pattern asks for four more characters ([.exe], the dot standing for any
    character). *)
Theorem same_named_asset :
  forall (p a : string) (systemInfo : SystemInfo) (repo url : string),
    getSystemInfo p a = Ok systemInfo ->
    valid_name repo = true ->
    findMatchingAsset [mkAsset repo url] systemInfo repo
    = if p =? "win32" then Err NoMatchingAsset
      else Ok (mkMatched (mkAsset repo url) false false true).
Proof.
  intros p a systemInfo repo url G V.
  assert (Pl : platform systemInfo = p).
  { unfold getSystemInfo in G.
    destruct (if p =? "darwin" then _ else _); [|discriminate].
    destruct (if a =? "x64" then _ else _); [|discriminate].
    injection G as <-. reflexivity. }
  apply getSystemInfo_supported in G.
  unfold valid_name in V. apply andb_prop in V. destruct V as [NE A].
  destruct (compiled_patterns systemInfo repo G A) as [t [z [b [Ct [Cz [Cb [Et [Ez Eb]]]]]]]].
  pose proof tails_all_checked as T. rewrite forallb_forall in T. specialize (T _ G).
  unfold tails_checked in T. rewrite Ct, Cz, Cb, Pl in T.
  apply andb_prop in T. destruct T as [T Tb]. apply andb_prop in T. destruct T as [Tt Tz].
  apply Nat.leb_le in Tt, Tz.
  unfold findMatchingAsset, findByName. rewrite Et, Ez, Eb. cbn [find name].
  rewrite (test_too_short true (seq_atoms repo t) repo)
    by (rewrite min_length_seq_atoms; lia).
  rewrite (test_too_short true (seq_atoms repo z) repo)
    by (rewrite min_length_seq_atoms; lia).
  destruct (p =? "win32").
  - apply Nat.leb_le in Tb.
    rewrite (test_too_short true (seq_atoms repo b) repo)
      by (rewrite min_length_seq_atoms; lia).
    reflexivity.
  - replace (Re.test true (seq_atoms repo b) repo) with true; [reflexivity|].
    symmetry. unfold Re.test, Re.exec. rewrite ReFacts.search_from_eq.
    replace (Re.bt true (seq_atoms repo b) true repo [] Re.accept)
      with (Re.bt true (seq_atoms repo b) true (repo ++ "") [] Re.accept)
      by (now rewrite StrFacts.append_nil_r).
    rewrite bt_seq_atoms by assumption.
    destruct (Re.bt true b false "" [] Re.accept) as [[rest cs]|]; [reflexivity|discriminate].
Qed.

Lemma same_named_asset_witness :
  findMatchingAsset [mkAsset "widget" "https://dl/w"] (mkSys "Windows" "x86_64" "win32") "widget"
  = Err NoMatchingAsset
  /\ findMatchingAsset [mkAsset "widget" "https://dl/w"] linux_x64 "widget"
     = Ok (mkMatched (mkAsset "widget" "https://dl/w") false false true).
Proof.
  split.
  - exact (same_named_asset "win32" "x64" (mkSys "Windows" "x86_64" "win32") "widget"
             "https://dl/w" eq_refl eq_refl).
  - exact (same_named_asset "linux" "x64" linux_x64 "widget" "https://dl/w" eq_refl eq_refl).
Defined.

(* ================================================================= *)
(** ** Further properties: the downloader *)

Section DownloadFootprint.
Local Open Scope list_scope.
Variable E : env.
Variable destPath : Fs.path.

Lemma pipeToFile_events body fin w :
  events (snd (pipeToFile destPath body fin w)) = events w.
Proof.
  unfold pipeToFile.
  destruct (Fs.writeFile destPath "" (fs w)); [|reflexivity].
  destruct fin; destruct (Fs.writeFile destPath _ (fs w)); reflexivity.
Qed.

(** what a download adds to the record: its requests, one per hop *)
Lemma downloadFile_requests limit :
  forall url w,
    exists l,
      events (snd (downloadFile E url destPath limit w)) = events w ++ l
      /\ forallb is_get l = true
      /\ 1 <= List.length l <= limit + 1.
Proof.
  induction limit as [|limit IH]; intros url w; cbn [downloadFile];
    destruct (web E url) as [|st loc body fin];
    try (exists [HttpsGet url]; simpl; repeat split; lia);
    destruct (redirectTarget st loc) as [t|].
  - exists [HttpsGet url]. simpl. repeat split; lia.
  - exists [HttpsGet url].
    destruct (negb (st =? 200)%Z); [simpl; repeat split; lia|].
    rewrite pipeToFile_events. simpl. repeat split; lia.
  - destruct (IH t (emit (HttpsGet url) w)) as [l [El [G [L1 L2]]]].
    exists (HttpsGet url :: l). rewrite El. cbn [events emit].
    rewrite <- app_assoc. simpl. rewrite G. repeat split; lia.
  - exists [HttpsGet url].
    destruct (negb (st =? 200)%Z); [simpl; repeat split; lia|].
    rewrite pipeToFile_events. simpl. repeat split; lia.
Qed.

(** a download that ends before the destination is opened leaves the file
    system and the pending deletions as they were *)
Lemma downloadFile_untouched limit :
  forall url w e,
    fst (downloadFile E url destPath limit w) = Err e ->
    e <> StreamError ->
    fs (snd (downloadFile E url destPath limit w)) = fs w
    /\ pending (snd (downloadFile E url destPath limit w)) = pending w.
Proof.
  induction limit as [|limit IH]; intros url w e; cbn [downloadFile];
    destruct (web E url) as [|st loc body fin]; try (simpl; auto; fail);
    destruct (redirectTarget st loc) as [t|]; try (simpl; auto; fail).
  - destruct (negb (st =? 200)%Z); [simpl; auto|].
    unfold pipeToFile.
    destruct (Fs.writeFile destPath "" (fs (emit (HttpsGet url) w))); [|simpl; congruence].
    destruct fin; destruct (Fs.writeFile destPath _ (fs (emit (HttpsGet url) w)));
      simpl; congruence.
  - intros H N. destruct (IH t (emit (HttpsGet url) w) e H N) as [F P]. auto.
  - destruct (negb (st =? 200)%Z); [simpl; auto|].
    unfold pipeToFile.
    destruct (Fs.writeFile destPath "" (fs (emit (HttpsGet url) w))); [|simpl; congruence].
    destruct fin; destruct (Fs.writeFile destPath _ (fs (emit (HttpsGet url) w)));
      simpl; congruence.
Qed.

End DownloadFootprint.

(** X7: a download makes at least one request and at most one more than
    its redirect limit, six with the limit of [run], whatever the servers
    answer; it adds nothing else to the record. *)
Theorem download_requests_bounded :
  forall (E : env) (url : string) (destPath : Fs.path) (redirectLimit : nat) (w : world),
    exists l,
      events (snd (downloadFile E url destPath redirectLimit w)) = (events w ++ l)%list
      /\ forallb is_get l = true
      /\ 1 <= List.length l <= redirectLimit + 1.
Proof.
  intros E url destPath redirectLimit w.
  destruct (downloadFile_requests E destPath redirectLimit url w) as [l [El [G L]]].
  exists l. split; [exact El|]. split; [exact G|exact L].
Qed.

(** X8: a download that fails with anything but a stream error, that is
    with a network error, too many redirects or a status other than 200 at
    the end of the chain, has not opened the destination: the file system is
    as before, a file already at the destination included, and no deletion
    is pending. *)
Theorem failed_download_leaves_files :
  forall (E : env) (url : string) (destPath : Fs.path) (redirectLimit : nat)
         (w : world) (e : error),
    fst (downloadFile E url destPath redirectLimit w) = Err e ->
    e <> StreamError ->
    fs (snd (downloadFile E url destPath redirectLimit w)) = fs w
    /\ pending (snd (downloadFile E url destPath redirectLimit w)) = pending w
    /\ (e = NetworkError \/ e = TooManyRedirects \/ exists status, e = DownloadFailed status).
Proof.
  intros E url destPath redirectLimit w e H N.
  destruct (downloadFile_untouched E destPath redirectLimit url w e H N) as [F P].
  split; [exact F|]. split; [exact P|].
  clear F P. revert url w H.
  induction redirectLimit as [|limit IH]; intros url w; cbn [downloadFile];
    destruct (web E url) as [|st loc body fin];
    try (simpl; intro H; injection H as <-; auto; fail);
    destruct (redirectTarget st loc) as [t|];
    try (simpl; intro H; injection H as <-; auto; fail);
    try (apply IH);
    (destruct (negb (st =? 200)%Z); [simpl; intro H; injection H as <-; eauto|]);
    unfold pipeToFile;
    (destruct (Fs.writeFile destPath "" (fs (emit (HttpsGet url) w)));
       [|simpl; congruence]);
    destruct fin; destruct (Fs.writeFile destPath _ (fs (emit (HttpsGet url) w)));
    simpl; congruence.
Qed.

Lemma failed_download_leaves_files_witness :
  fst (downloadFile (hops_host Finished) "https://dl/loop" ["cache"; "file"] 5 empty_cache_world)
  = Err TooManyRedirects
  /\ fs (snd (downloadFile (hops_host Finished) "https://dl/loop" ["cache"; "file"] 5
                empty_cache_world))
     = fs empty_cache_world.
Proof.
  split; [reflexivity|].
  apply (failed_download_leaves_files (hops_host Finished) "https://dl/loop" ["cache"; "file"]
           5 empty_cache_world TooManyRedirects); [reflexivity|discriminate].
Defined.

(* ================================================================= *)
(** ** Further properties: what the stages add to the record *)

Section Footprints.
Local Open Scope list_scope.
Variable q : event -> bool.

(** a computation that adds nothing to the record *)
Lemma emits_silent {A} (m : M A) :
  (forall w, events (snd (m w)) = events w) -> emits_only q m.
Proof. intros H w. exists []. rewrite H, app_nil_r. auto. Qed.

Lemma emits_ret {A} (a : A) : emits_only q (ret a).
Proof. apply emits_silent. reflexivity. Qed.

Lemma emits_lift {A} (r : res A) : emits_only q (lift r).
Proof. apply emits_silent. reflexivity. Qed.

Lemma emits_fs_do f : emits_only q (fs_do f).
Proof. apply emits_silent. intro w. unfold fs_do. destruct (f (fs w)); reflexivity. Qed.

Lemma emits_fs_get {A} (f : Fs.node -> option A) : emits_only q (fs_get f).
Proof. apply emits_silent. intro w. unfold fs_get. destruct (f (fs w)); reflexivity. Qed.

Lemma emits_fs_access text m : emits_only q (fs_access text m).
Proof.
  apply emits_silent. intro w. unfold fs_access.
  destruct (Fs.resolve text); [destruct (Fs.access _ _ _)|]; reflexivity.
Qed.

Lemma emits_chmod_text text : emits_only q (chmod_text text).
Proof.
  apply emits_silent. intro w. unfold chmod_text, fs_do.
  destruct (Fs.resolve text); [destruct (Fs.chmod _ _ _)|]; reflexivity.
Qed.

Lemma emits_findBinaryInDir dir repoName : emits_only q (findBinaryInDir dir repoName).
Proof.
  apply emits_silent. intro w. unfold findBinaryInDir.
  destruct (Fs.lookup dir (fs w)) as [[d m|es]|]; try reflexivity.
  destruct (locate _ _ _); [destruct (Fs.chmod _ _ _)|]; reflexivity.
Qed.

Lemma emits_bind {A B} (m : M A) (k : A -> M B) :
  emits_only q m -> (forall a, emits_only q (k a)) -> emits_only q (bind m k).
Proof.
  intros Hm Hk w. unfold bind.
  destruct (Hm w) as [l1 [E1 Q1]].
  destruct (m w) as [[a|e] w1]; simpl in E1.
  - destruct (Hk a w1) as [l2 [E2 Q2]].
    exists (l1 ++ l2). rewrite E2, E1, app_assoc, forallb_app, Q1, Q2. auto.
  - exists l1. simpl. auto.
Qed.

Lemma emits_catch {A} (m h : M A) :
  emits_only q m -> emits_only q h -> emits_only q (catch m h).
Proof.
  intros Hm Hh w. unfold catch.
  destruct (Hm w) as [l1 [E1 Q1]].
  destruct (m w) as [[a|e] w1]; simpl in E1.
  - exists l1. simpl. auto.
  - destruct (Hh w1) as [l2 [E2 Q2]].
    exists (l1 ++ l2). rewrite E2, E1, app_assoc, forallb_app, Q1, Q2. auto.
Qed.

Lemma emits_tryCachedBinary marker : emits_only q (tryCachedBinary marker).
Proof.
  unfold tryCachedBinary.
  apply emits_bind; [apply emits_fs_get|]. intro t.
  apply emits_bind; [apply emits_fs_access|]. intros _. apply emits_ret.
Qed.

Lemma emits_tryExtractedBinary dir : emits_only q (tryExtractedBinary dir).
Proof.
  unfold tryExtractedBinary.
  apply emits_bind; [apply emits_fs_get|]. intro t.
  apply emits_bind; [apply emits_fs_access|]. intros _. apply emits_ret.
Qed.

Section WithExtraction.
Hypothesis q_extracted : forall a d, q (Extracted a d) = true.

Lemma emits_extractWith unpack archivePath extractDir repoName :
  emits_only q (extractWith unpack archivePath extractDir repoName).
Proof.
  unfold extractWith.
  apply emits_bind; [apply emits_fs_do|]. intros _.
  apply emits_bind; [|intros _; apply emits_findBinaryInDir].
  intro w. destruct (Fs.readFile archivePath (fs w)) as [data|];
    [|exists []; rewrite app_nil_r; auto].
  destruct (unpack data) as [es|]; [|exists []; rewrite app_nil_r; auto].
  destruct (Fs.unpack_into extractDir es (fs w)) as [n|];
    [|exists []; rewrite app_nil_r; auto].
  exists [Extracted archivePath extractDir]. simpl. rewrite q_extracted. auto.
Qed.

(** [resolveBinary] after its download step *)
Lemma emits_resolve_after_download E repo asset dir :
  emits_only q
    (executablePath <-
       (if isTar asset || isZip asset then
          extractedBinaryPath <-
            catch (tryExtractedBinary (dir ++ ["bin"]))
              (fs_do (Fs.mkdir_p (dir ++ ["bin"])) ;;;
               extractedBinaryPath <-
                 (if isTar asset
                  then extractTarGz E (dir ++ [name (found asset)]) (dir ++ ["bin"]) repo
                  else extractZip E (dir ++ [name (found asset)]) (dir ++ ["bin"]) repo) ;;
               fs_do (Fs.writeFile ((dir ++ ["bin"]) ++ [".extracted_binary_path"])
                        extractedBinaryPath) ;;;
               ret extractedBinaryPath) ;;
          chmod_text extractedBinaryPath ;;;
          ret extractedBinaryPath
        else
          fs_do (Fs.chmod (dir ++ [name (found asset)]) 493) ;;;
          ret (Fs.string_of_path (dir ++ [name (found asset)]))) ;;
     fs_do (Fs.writeFile (dir ++ [".binary_path"]) executablePath) ;;;
     ret executablePath).
Proof.
  apply emits_bind.
  - destruct (isTar asset || isZip asset).
    + apply emits_bind.
      * apply emits_catch; [apply emits_tryExtractedBinary|].
        apply emits_bind; [apply emits_fs_do|]. intros _.
        apply emits_bind.
        { destruct (isTar asset); apply emits_extractWith. }
        intro p. apply emits_bind; [apply emits_fs_do|]. intros _. apply emits_ret.
      * intro p. apply emits_bind; [apply emits_chmod_text|]. intros _. apply emits_ret.
    + apply emits_bind; [apply emits_fs_do|]. intros _. apply emits_ret.
  - intro p. apply emits_bind; [apply emits_fs_do|]. intros _. apply emits_ret.
Qed.

End WithExtraction.
End Footprints.

Section ResolveFootprint.
Local Open Scope list_scope.

Lemma needToDownload_nonempty p data n :
  Fs.readFile p n = Some data -> Str.nonempty data = true -> needToDownload p n = false.
Proof.
  unfold Fs.readFile, needToDownload.
  destruct (Fs.lookup p n) as [[d m|es]|]; try discriminate.
  intro H. injection H as ->. destruct data; [discriminate|reflexivity].
Qed.

Lemma resolveBinary_skips_download E repo asset dir w :
  needToDownload (dir ++ [name (found asset)]) (fs w) = false ->
  resolveBinary E repo asset dir w
  = (executablePath <-
       (if isTar asset || isZip asset then
          extractedBinaryPath <-
            catch (tryExtractedBinary (dir ++ ["bin"]))
              (fs_do (Fs.mkdir_p (dir ++ ["bin"])) ;;;
               extractedBinaryPath <-
                 (if isTar asset
                  then extractTarGz E (dir ++ [name (found asset)]) (dir ++ ["bin"]) repo
                  else extractZip E (dir ++ [name (found asset)]) (dir ++ ["bin"]) repo) ;;
               fs_do (Fs.writeFile ((dir ++ ["bin"]) ++ [".extracted_binary_path"])
                        extractedBinaryPath) ;;;
               ret extractedBinaryPath) ;;
          chmod_text extractedBinaryPath ;;;
          ret extractedBinaryPath
        else
          fs_do (Fs.chmod (dir ++ [name (found asset)]) 493) ;;;
          ret (Fs.string_of_path (dir ++ [name (found asset)]))) ;;
     fs_do (Fs.writeFile (dir ++ [".binary_path"]) executablePath) ;;;
     ret executablePath) w.
Proof.
  intro N. unfold resolveBinary. cbv zeta. unfold bind at 1. rewrite N. reflexivity.
Qed.

Lemma no_get_in_extractions l :
  forallb is_extracted l = true -> network_calls l = 0.
Proof.
  induction l as [|e l IH]; [reflexivity|]. simpl. intro H.
  apply andb_prop in H. destruct H as [X H].
  destruct e; try discriminate. exact (IH H).
Qed.

End ResolveFootprint.

(** X9: when a non-empty file is at the asset's place in the cache entry,
    whatever it holds, the resolution of the binary does not download: it
    adds nothing but extractions to the record and makes no network call. *)
Theorem asset_on_disk_no_download :
  forall (E : env) (repo : string) (asset : MatchedAsset) (dir : Fs.path)
         (w : world) (data : string),
    Fs.readFile (dir ++ [name (found asset)])%list (fs w) = Some data ->
    Str.nonempty data = true ->
    exists l,
      events (snd (resolveBinary E repo asset dir w)) = (events w ++ l)%list
      /\ forallb is_extracted l = true
      /\ network_calls (events (snd (resolveBinary E repo asset dir w)))
         = network_calls (events w).
Proof.
  intros E repo asset dir w data R N.
  rewrite (resolveBinary_skips_download E repo asset dir w
             (needToDownload_nonempty _ _ _ R N)).
  destruct (emits_resolve_after_download is_extracted (fun _ _ => eq_refl) E repo asset dir w)
    as [l [El X]].
  exists l. split; [exact El|]. split; [exact X|].
  rewrite El, network_calls_app, (no_get_in_extractions l X). lia.
Qed.

Lemma asset_on_disk_no_download_witness :
  exists l,
    events (snd (resolveBinary widget_host "widget"
                   (mkMatched (mkAsset "widget_Darwin_arm64.tar.gz" "https://dl/darwin")
                              true false false)
                   ["home"; "u"; ".binrun"; "cache"; "acme_widget_v1.2.0"]
                   unexecutable_world))
    = (events unexecutable_world ++ l)%list
    /\ forallb is_extracted l = true.
Proof.
  destruct (asset_on_disk_no_download widget_host "widget"
              (mkMatched (mkAsset "widget_Darwin_arm64.tar.gz" "https://dl/darwin")
                         true false false)
              ["home"; "u"; ".binrun"; "cache"; "acme_widget_v1.2.0"]
              unexecutable_world "TARDATA" eq_refl eq_refl) as [l [El [X _]]].
  exists l. auto.
Defined.

(* ================================================================= *)
(** ** Further properties: what a resolution leaves in the cache *)

Section CacheWrites.
Import Fs.
Local Open Scope list_scope.

Lemma assoc_set_entry_other k k' v es :
  (k =? k')%string = false -> assoc k' (set_entry k v es) = assoc k' es.
Proof.
  intro N. induction es as [|[k0 v0] es IH]; simpl.
  - rewrite String.eqb_sym, N. reflexivity.
  - destruct (k =? k0)%string eqn:K; simpl.
    + apply String.eqb_eq in K. subst k0. rewrite String.eqb_sym, N. reflexivity.
    + destruct (k' =? k0)%string; [reflexivity|exact IH].
Qed.

Lemma executable_at_cons c p es :
  executable_at (c :: p) (Dir es)
  = match assoc c es with Some ch => executable_at p ch | None => false end.
Proof. unfold executable_at. cbn [lookup]. destruct (assoc c es); reflexivity. Qed.

Lemma names_executable_at text n :
  names_executable text n
  = match resolve text with Some p => executable_at p n | None => false end.
Proof. reflexivity. Qed.

(** a change that replaces a node by one at least as executable, and
    removes nothing, keeps every path executable *)
Lemma alter_keeps_executable q f :
  (forall x, f x <> Some None) ->
  (forall x v p, f x = Some (Some v) ->
     match x with Some n => executable_at p n | None => false end = true ->
     executable_at p v = true) ->
  forall n n' p,
    alter q f n = Some n' -> executable_at p n = true -> executable_at p n' = true.
Proof.
  intros ND K. induction q as [|c q IH]; intros n n' p; simpl; [discriminate|].
  destruct n as [d m|es]; [discriminate|].
  destruct q as [|c' q'].
  - destruct (f (assoc c es)) as [[v|]|] eqn:F; [| |discriminate].
    + intro H. injection H as <-.
      destruct p as [|c0 p]; [reflexivity|].
      rewrite !executable_at_cons.
      destruct (c =? c0)%string eqn:C.
      * apply String.eqb_eq in C. subst c0. rewrite FsFacts.assoc_set_entry.
        intro X. eapply K; eauto.
      * rewrite assoc_set_entry_other by exact C. auto.
    + exfalso. exact (ND _ F).
  - destruct (assoc c es) as [ch|] eqn:A; [|discriminate].
    destruct (alter (c' :: q') f ch) as [ch'|] eqn:R; [|discriminate].
    intro H. injection H as <-.
    destruct p as [|c0 p]; [reflexivity|].
    rewrite !executable_at_cons.
    destruct (c =? c0)%string eqn:C.
    + apply String.eqb_eq in C. subst c0. rewrite FsFacts.assoc_set_entry, A.
      eapply IH; eauto.
    + rewrite assoc_set_entry_other by exact C. auto.
Qed.

(** writing a file takes the execute permission from no path *)
Lemma writeFile_keeps_executable q d n n' p :
  writeFile q d n = Some n' -> executable_at p n = true -> executable_at p n' = true.
Proof.
  unfold writeFile. apply alter_keeps_executable.
  - intros [[d0 m0|es]|]; discriminate.
  - intros [[d0 m0|es]|] v p0 H X; try discriminate;
      injection H as <-; unfold executable_at in *; destruct p0; simpl in *; auto.
Qed.

Lemma chmod_makes_executable p n n' :
  chmod p 493 n = Some n' -> executable_at p n' = true.
Proof.
  unfold chmod. intro H. destruct (FsFacts.lookup_alter _ _ _ _ H) as [r [F L]].
  unfold executable_at. rewrite L.
  destruct (lookup p n) as [[d m|es]|]; [| |discriminate]; injection F as <-; reflexivity.
Qed.

Lemma tryCachedBinary_ok marker w text w' :
  tryCachedBinary marker w = (Ok text, w') ->
  w' = w /\ readFile marker (fs w) = Some text /\ names_executable text (fs w) = true.
Proof.
  rewrite tryCachedBinary_eq.
  destruct (readFile marker (fs w)) as [t|]; [|discriminate].
  destruct (names_executable t (fs w)) eqn:X; [|discriminate].
  intro H. injection H as <- <-. auto.
Qed.

(** the marker a resolution writes is one the next look at the cache trusts *)
Lemma resolveBinary_leaves_marker E repo asset dir w exe w' :
  (isTar asset || isZip asset = false ->
   resolve (string_of_path (dir ++ [name (found asset)])) = Some (dir ++ [name (found asset)])) ->
  resolveBinary E repo asset dir w = (Ok exe, w') ->
  readFile (dir ++ [".binary_path"]) (fs w') = Some exe
  /\ names_executable exe (fs w') = true.
Proof.
  intros Hplain. unfold resolveBinary. cbv zeta. unfold bind at 1.
  match goal with
  | |- (match ?first with _ => _ end) = _ -> _ =>
      destruct first as [[[]|e0] w1]; [|discriminate]
  end.
  unfold bind at 1.
  match goal with
  | |- (match ?branch w1 with _ => _ end) = _ -> _ =>
      destruct (branch w1) as [[exe0|e1] w2] eqn:B; [|discriminate]
  end.
  unfold bind, fs_do, ret.
  destruct (writeFile (dir ++ [".binary_path"]) exe0 (fs w2)) as [n3|] eqn:W; [|discriminate].
  intro H. injection H as <- <-. cbn [fs set_fs].
  split; [eapply FsFacts.readFile_writeFile; exact W|].
  assert (X : names_executable exe0 (fs w2) = true).
  { clear W. destruct (isTar asset || isZip asset).
    - unfold bind at 1 in B.
      destruct (catch _ _ w1) as [[p|e2] wa]; [|discriminate].
      unfold bind, chmod_text, fs_do, ret in B.
      destruct (resolve p) as [pp|] eqn:R; [|discriminate].
      destruct (chmod pp 493 (fs wa)) as [n|] eqn:C; [|discriminate].
      injection B as <- <-. cbn [fs set_fs].
      rewrite names_executable_at, R. eapply chmod_makes_executable. exact C.
    - unfold bind, fs_do, ret in B.
      destruct (chmod (dir ++ [name (found asset)]) 493 (fs w1)) as [n|] eqn:C; [|discriminate].
      injection B as <- <-. cbn [fs set_fs].
      rewrite names_executable_at, (Hplain eq_refl).
      eapply chmod_makes_executable. exact C. }
  rewrite names_executable_at in *.
  destruct (resolve exe0) as [pp|]; [|discriminate].
  eapply writeFile_keeps_executable; eauto.
Qed.

End CacheWrites.

Section PathText.
Import Fs.
Local Open Scope list_scope.

Lemma split_acc_component c :
  forall rest cur,
    Str.all (fun x => negb (x =? "/")%char) c = true ->
    split_acc (c ++ rest)%string cur = split_acc rest (cur ++ c)%string.
Proof.
  induction c as [|x c IH]; intros rest cur A.
  - simpl. now rewrite StrFacts.append_nil_r.
  - simpl in A. apply andb_prop in A. destruct A as [X A].
    cbn [append split_acc]. apply negb_true_iff in X. rewrite X.
    rewrite IH by exact A. rewrite StrFacts.append_assoc. reflexivity.
Qed.

Lemma split_string_of_path p :
  forallb plain_component p = true ->
  forall cur, Str.nonempty cur = true ->
    split_acc (string_of_path p) cur = cur :: p.
Proof.
  induction p as [|c p IH]; intros A cur N.
  - simpl. rewrite N. reflexivity.
  - simpl in A. apply andb_prop in A. destruct A as [C A].
    unfold plain_component in C. apply andb_prop in C. destruct C as [NC AC].
    cbn [string_of_path append split_acc]. cbn [Ascii.eqb Bool.eqb]. rewrite N.
    cbn [app]. f_equal.
    rewrite split_acc_component by exact AC. cbn [append].
    apply IH; assumption.
Qed.

(** the text of a path of plain components names that path *)
Lemma resolve_string_of_path p :
  p <> [] -> forallb plain_component p = true ->
  resolve (string_of_path p) = Some p.
Proof.
  destruct p as [|c p]; [congruence|]. intros _ A.
  simpl in A. apply andb_prop in A. destruct A as [C A].
  unfold plain_component in C. apply andb_prop in C. destruct C as [NC AC].
  unfold resolve. cbn [string_of_path append Str.startsWith].
  cbn [Ascii.eqb Bool.eqb andb]. cbn [split_acc]. cbn [Ascii.eqb Bool.eqb Str.nonempty app].
  rewrite split_acc_component by exact AC. cbn [append].
  rewrite split_string_of_path by assumption.
  destruct (c ++ string_of_path p)%string; reflexivity.
Qed.

End PathText.

(** X10: the resolution of a binary that succeeds leaves a whole-entry
    marker that the next look at the cache trusts: it holds the path
    returned, and that path names something executable. *)
Theorem resolved_binary_is_trusted :
  forall (E : env) (repo : string) (asset : MatchedAsset) (dir : Fs.path)
         (w w' : world) (exe : string),
    forallb plain_component (dir ++ [name (found asset)])%list = true ->
    resolveBinary E repo asset dir w = (Ok exe, w') ->
    tryCachedBinary (dir ++ [".binary_path"])%list w' = (Ok exe, w').
Proof.
  intros E repo asset dir w w' exe Hp R.
  destruct (resolveBinary_leaves_marker E repo asset dir w exe w') as [M X].
  - intros _. apply resolve_string_of_path; [|exact Hp].
    destruct dir; discriminate.
  - exact R.
  - rewrite tryCachedBinary_eq, M, X. reflexivity.
Qed.

Lemma resolved_binary_is_trusted_witness :
  tryCachedBinary ["home"; "u"; ".binrun"; "cache"; "acme_widget_v1.2.0"; ".binary_path"]
    (snd (resolveBinary widget_host "widget"
            (mkMatched (mkAsset "widget_Darwin_arm64.tar.gz" "https://dl/darwin")
                       true false false)
            ["home"; "u"; ".binrun"; "cache"; "acme_widget_v1.2.0"] unexecutable_world))
  = (Ok "/home/u/.binrun/cache/acme_widget_v1.2.0/bin/widget",
     snd (resolveBinary widget_host "widget"
            (mkMatched (mkAsset "widget_Darwin_arm64.tar.gz" "https://dl/darwin")
                       true false false)
            ["home"; "u"; ".binrun"; "cache"; "acme_widget_v1.2.0"] unexecutable_world)).
Proof.
  apply (resolved_binary_is_trusted widget_host "widget"
           (mkMatched (mkAsset "widget_Darwin_arm64.tar.gz" "https://dl/darwin")
                      true false false)
           ["home"; "u"; ".binrun"; "cache"; "acme_widget_v1.2.0"] unexecutable_world).
  - reflexivity.
  - vm_compute. reflexivity.
Defined.

Section SecondRun.
Local Open Scope list_scope.

Lemma selectAsset_ok E rp repo asset :
  selectAsset E rp repo = Ok asset ->
  exists assets systemInfo assetList,
    onAssetsResponse rp = Ok assets
    /\ getSystemInfo (os_platform E) (os_arch E) = Ok systemInfo
    /\ asset_list assets = Ok assetList
    /\ findMatchingAsset assetList systemInfo repo = Ok asset.
Proof.
  unfold selectAsset.
  destruct (onAssetsResponse rp) as [assets|] eqn:A; [|discriminate].
  destruct (getSystemInfo _ _) as [systemInfo|] eqn:G; [|discriminate].
  destruct (asset_list assets) as [assetList|] eqn:L; [|discriminate].
  intro H. exists assets, systemInfo, assetList. auto.
Qed.

(** a run that got as far as the child leaves a trusted marker behind *)
Lemma run_leaves_marker E repoInput args w ref asset :
  parseRepoURL repoInput = Ok ref ->
  version ref <> "latest"%string ->
  selectAsset E (api E (assetsPath (owner ref) (repo ref) (version ref))) (repo ref) = Ok asset ->
  forallb plain_component
    (binDir E (owner ref) (repo ref) (version ref) ++ [name (found asset)]) = true ->
  fst (run E repoInput args w) = Ok tt ->
  exists exe w3,
    snd (run E repoInput args w) = emit (Spawned exe args) w3
    /\ (exists l,
          events w3
          = events w
            ++ HttpsGet (api_host ++ assetsPath (owner ref) (repo ref) (version ref)) :: l)
    /\ Fs.readFile (binDir E (owner ref) (repo ref) (version ref) ++ [".binary_path"]) (fs w3)
       = Some exe
    /\ names_executable exe (fs w3) = true.
Proof.
  intros P V S Hp.
  destruct (selectAsset_ok _ _ _ _ S) as [assets [systemInfo [assetList [A [G [L F]]]]]].
  rewrite (run_versioned_eq E repoInput args w ref assets assetList systemInfo asset)
    by assumption.
  cbv zeta.
  set (w0 := emit (HttpsGet (api_host ++ assetsPath (owner ref) (repo ref) (version ref))) w).
  set (dir := binDir E (owner ref) (repo ref) (version ref)) in *.
  intro Hok. unfold bind, fs_do in Hok |- *.
  destruct (Fs.mkdir_p (cacheDir E) (fs w0)) as [n1|]; [|discriminate].
  cbn [fs set_fs] in Hok |- *.
  destruct (Fs.mkdir_p dir n1) as [n2|]; [|discriminate].
  destruct (catch (tryCachedBinary (dir ++ [".binary_path"])) (resolveBinary E (repo ref) asset dir)
              (set_fs n2 (set_fs n1 w0))) as [[exe|e] w3] eqn:C; [|discriminate].
  exists exe, w3.
  assert (T : Fs.readFile (dir ++ [".binary_path"]) (fs w3) = Some exe
              /\ names_executable exe (fs w3) = true
              /\ exists l, events w3 = events (set_fs n2 (set_fs n1 w0)) ++ l).
  { unfold catch in C.
    destruct (tryCachedBinary (dir ++ [".binary_path"]) (set_fs n2 (set_fs n1 w0)))
      as [[p|e] wx] eqn:T.
    - injection C as <- <-.
      destruct (tryCachedBinary_ok _ _ _ _ T) as [-> [M X]].
      split; [exact M|]. split; [exact X|]. exists []. now rewrite app_nil_r.
    - destruct (emits_tryCachedBinary (fun _ => true) (dir ++ [".binary_path"])
                  (set_fs n2 (set_fs n1 w0))) as [l1 [E1 _]].
      rewrite T in E1. simpl in E1.
      destruct (resolveBinary_leaves_marker E (repo ref) asset dir wx exe w3) as [M X].
      + intros _. apply resolve_string_of_path; [|exact Hp].
        destruct dir; discriminate.
      + exact C.
      + split; [exact M|]. split; [exact X|].
        assert (R : exists l2, events w3 = events wx ++ l2).
        { pose proof (f_equal snd C) as C'. simpl in C'. rewrite <- C'.
          unfold resolveBinary. cbv zeta.
          assert (Hall : emits_only (fun _ => true)
                           (resolveBinary E (repo ref) asset dir)).
          { unfold resolveBinary. cbv zeta. apply emits_bind.
            - intro w1. destruct (needToDownload _ (fs w1)).
              + destruct (downloadFile_requests E (dir ++ [name (found asset)]) 5
                            (browser_download_url (found asset)) w1) as [l [El _]].
                exists l. split; [exact El|]. apply forallb_forall. auto.
              + exists []. rewrite app_nil_r. auto.
            - intros _. apply emits_resolve_after_download. auto. }
          destruct (Hall wx) as [l2 [E2 _]]. exists l2. exact E2. }
        destruct R as [l2 E2]. exists (l1 ++ l2). rewrite E2, E1, app_assoc. reflexivity. }
  destruct T as [M [X [l El]]].
  split.
  - unfold spawnAndWait in *. destruct (child E exe args) as [[|c|c]|]; reflexivity.
  - split; [|auto]. exists l. rewrite El. subst w0. cbn [events set_fs emit].
    rewrite <- app_assoc. reflexivity.
Qed.

End SecondRun.

(** X11: after a run for an explicit version that ended with the child's
    exit code 0, whether it resolved the binary or found it cached, the next
    run for the same reference makes one network call, the listing, and
    spawns the same executable without a download, an extraction or a change
    to the file system. *)
Theorem second_run_uses_cache :
  forall (E : env) (repoInput : string) (args args' : list string) (w : world)
         (ref : RepositoryReference) (asset : MatchedAsset),
    parseRepoURL repoInput = Ok ref ->
    version ref <> "latest" ->
    selectAsset E (api E (assetsPath (owner ref) (repo ref) (version ref))) (repo ref)
      = Ok asset ->
    forallb plain_component
      (binDir E (owner ref) (repo ref) (version ref) ++ [name (found asset)])%list = true ->
    fst (run E repoInput args w) = Ok tt ->
    let w' := snd (run E repoInput args w) in
    exists exe before,
      events w' = (before ++ [Spawned exe args])%list
      /\ events (snd (run E repoInput args' w'))
         = (events w'
            ++ [HttpsGet (api_host ++ assetsPath (owner ref) (repo ref) (version ref));
                Spawned exe args'])%list
      /\ fs (snd (run E repoInput args' w')) = fs w'.
Proof.
  intros E repoInput args args' w ref asset P V S Hp Hok w'.
  destruct (run_leaves_marker E repoInput args w ref asset P V S Hp Hok)
    as [exe [w3 [W [_ [M X]]]]].
  destruct (selectAsset_ok _ _ _ _ S) as [assets [systemInfo [assetList [A [G [L F]]]]]].
  subst w'. rewrite W.
  exists exe, (events w3). split; [reflexivity|].
  rewrite (run_hits_marker E repoInput args' (emit (Spawned exe args) w3) ref
             assets assetList systemInfo asset exe) by assumption.
  unfold spawnAndWait.
  destruct (child E exe args') as [[|c|c]|]; cbn [snd events emit fs];
    rewrite <- ?app_assoc; auto.
Qed.

Lemma second_run_uses_cache_witness :
  let w' := snd (run widget_host "github.com/acme/widget@v1.2.0" [] fresh_world) in
  exists exe before,
    events w' = (before ++ [Spawned exe []])%list
    /\ events (snd (run widget_host "github.com/acme/widget@v1.2.0" ["--help"] w'))
       = (events w'
          ++ [HttpsGet "https://api.github.com/repos/acme/widget/releases/tags/v1.2.0";
              Spawned exe ["--help"]])%list
    /\ fs (snd (run widget_host "github.com/acme/widget@v1.2.0" ["--help"] w')) = fs w'.
Proof.
  apply (second_run_uses_cache widget_host "github.com/acme/widget@v1.2.0" [] ["--help"]
           fresh_world (mkRef "acme" "widget" "v1.2.0")
           (mkMatched (mkAsset "widget_Darwin_arm64.tar.gz" "https://dl/darwin")
                      true false false)).
  - reflexivity.
  - discriminate.
  - vm_compute. reflexivity.
  - reflexivity.
  - vm_compute. reflexivity.
Defined.



(* ================================================================= *)
(** ** Further properties: the command line *)

Section CommandLine.
Local Open Scope list_scope.
Variable E : env.

Lemma emits_request q (f : world -> res jsval * world) u r :
  q (HttpsGet u) = true ->
  (forall w, f w = (r, emit (HttpsGet u) w)) ->
  emits_only q f.
Proof.
  intros Q H w. rewrite H. exists [HttpsGet u]. simpl. rewrite Q. auto.
Qed.

Lemma emits_run args repoInput :
  emits_only (spawns_with args) (run E repoInput args).
Proof.
  unfold run.
  apply emits_bind; [apply emits_lift|]. intro ref.
  apply emits_bind.
  { destruct (version ref =? "latest")%string; [|apply emits_ret].
    apply emits_bind; [|intro; apply emits_ret].
    eapply emits_request; [reflexivity|]. intro w. reflexivity. }
  intro actualVersion.
  apply emits_bind; [eapply emits_request; [reflexivity|]; intro w; reflexivity|].
  intro assets.
  apply emits_bind; [apply emits_lift|]. intro systemInfo.
  apply emits_bind; [apply emits_lift|]. intro assetList.
  apply emits_bind; [apply emits_lift|]. intro asset.
  apply emits_bind; [apply emits_fs_do|]. intros _.
  apply emits_bind; [apply emits_fs_do|]. intros _.
  apply emits_bind.
  { apply emits_catch; [apply emits_tryCachedBinary|].
    unfold resolveBinary. cbv zeta. apply emits_bind.
    - intro w1. destruct (needToDownload _ (fs w1)).
      + destruct (downloadFile_requests E
                    (binDir E (owner ref) (repo ref) actualVersion ++ [name (found asset)]) 5
                    (browser_download_url (found asset)) w1) as [l [El [G _]]].
        exists l. split; [exact El|].
        rewrite forallb_forall in G |- *. intros e He. specialize (G e He).
        destruct e; [reflexivity|discriminate|discriminate].
      + exists []. rewrite app_nil_r. auto.
    - intros _. apply emits_resolve_after_download. reflexivity. }
  intro exe. intro w. unfold spawnAndWait.
  exists [Spawned exe args].
  split; [destruct (child E exe args) as [[|c|c]|]; reflexivity|].
  simpl. destruct (list_eq_dec String.string_dec args args); [reflexivity|congruence].
Qed.

Lemma repoArgOf_none args :
  (forall a, In a args -> a = "--debug"%string \/ Str.includes a "github.com/" = false) ->
  repoArgOf args = None.
Proof.
  intro H. unfold repoArgOf. apply find_nothing. intros a Ha.
  unfold isRepoArg. destruct (H a Ha) as [->|I]; [reflexivity|].
  rewrite I. apply andb_false_r.
Qed.

Lemma repoArgOf_first before r after :
  (forall a, In a before -> a = "--debug"%string \/ Str.includes a "github.com/" = false) ->
  r <> "--debug"%string -> Str.includes r "github.com/" = true ->
  repoArgOf (before ++ r :: after) = Some r.
Proof.
  intros H N I. unfold repoArgOf.
  induction before as [|b before IH]; simpl.
  - unfold isRepoArg. rewrite I. apply String.eqb_neq in N. rewrite N. reflexivity.
  - replace (isRepoArg b) with false.
    + apply IH. intros a Ha. apply H. now right.
    + unfold isRepoArg. destruct (H b (or_introl eq_refl)) as [->|Ib]; [reflexivity|].
      rewrite Ib. symmetry. apply andb_false_r.
Qed.

End CommandLine.

(** X13: whatever the command line, if the child is spawned it receives
    the arguments without any [--debug] and without any copy of the
    repository argument; every other argument reaches it, in order, those
    before the repository argument included. *)
Theorem main_forwards_arguments :
  forall (E : env) (args : list string) (w : world),
    exists l,
      events (snd (main E args w)) = (events w ++ l)%list
      /\ forall exe a,
           In (Spawned exe a) l ->
           a = binaryArgsOf args (repoArgOf args)
           /\ ~ In "--debug" a
           /\ (forall r, repoArgOf args = Some r -> ~ In r a)
           /\ (forall x, In x args -> x <> "--debug" -> repoArgOf args <> Some x -> In x a).
Proof.
  intros E args w. unfold main.
  destruct (repoArgOf args) as [r|] eqn:R.
  - destruct (emits_run E (binaryArgsOf args (Some r)) r w) as [l [El Q]].
    exists l. split.
    + destruct (run E r (binaryArgsOf args (Some r)) w) as [[[]|e] w1]; exact El.
    + intros exe a Ha. rewrite forallb_forall in Q. specialize (Q _ Ha). simpl in Q.
      destruct (list_eq_dec String.string_dec a (binaryArgsOf args (Some r))) as [->|];
        [|discriminate].
      unfold binaryArgsOf. split; [reflexivity|]. split; [|split].
      * rewrite filter_In. intros [_ F]. discriminate.
      * intros r' Hr'. injection Hr' as <-. rewrite filter_In. intros [_ F].
        rewrite String.eqb_refl in F. rewrite andb_false_r in F. discriminate.
      * intros x Hx Nd Nr. rewrite filter_In. split; [exact Hx|].
        apply String.eqb_neq in Nd. rewrite Nd.
        destruct (String.eqb_spec x r) as [->|]; [congruence|reflexivity].
  - exists []. rewrite app_nil_r. split; [reflexivity|]. intros exe a [].
Qed.

(** X14: when no argument other than [--debug] contains [github.com/], the
    command prints its usage line; when the first such argument is not a
    reference of the grammar, it reports the invalid reference, whatever
    follows it.  Both exit with code 1 before any request, file operation or
    spawn. *)
Theorem main_without_reference :
  forall (E : env) (w : world),
    (forall args,
        (forall a, In a args -> a = "--debug" \/ Str.includes a "github.com/" = false) ->
        main E args w = (Exited 1 (Some UsageLine), w))
    /\ (forall before r after e,
          (forall a, In a before -> a = "--debug" \/ Str.includes a "github.com/" = false) ->
          r <> "--debug" -> Str.includes r "github.com/" = true ->
          parseRepoURL r = Err e ->
          main E (before ++ r :: after)%list w
          = (Exited 1 (Some (ErrorLine (InvalidReference r))), w)).
Proof.
  intros E w. split.
  - intros args H. unfold main. rewrite (repoArgOf_none args H). reflexivity.
  - intros before r after e H N I P. unfold main.
    rewrite (repoArgOf_first before r after H N I).
    unfold run, bind, lift. rewrite P.
    rewrite (parse_error r e P). reflexivity.
Qed.

Lemma main_without_reference_witness :
  main widget_host ["--debug"; "--version"] fresh_world = (Exited 1 (Some UsageLine), fresh_world)
  /\ main widget_host ["https://github.com/acme/widget"; "github.com/acme/widget@v1.2.0"]
       fresh_world
     = (Exited 1 (Some (ErrorLine (InvalidReference "https://github.com/acme/widget"))),
        fresh_world).
Proof.
  split.
  - apply (proj1 (main_without_reference widget_host fresh_world)).
    intros a [<-|[<-|[]]]; [left|right]; reflexivity.
  - apply (proj2 (main_without_reference widget_host fresh_world)
             [] "https://github.com/acme/widget" ["github.com/acme/widget@v1.2.0"]
             (InvalidReference "https://github.com/acme/widget")).
    + intros a [].
    + discriminate.
    + reflexivity.
    + reflexivity.
Defined.

Example main_forwards_example :
  events (snd (main widget_host
                 ["-v"; "--debug"; "github.com/acme/widget@v1.2.0"; "serve"; "--debug";
                  "github.com/acme/widget@v1.2.0"; "--port=1"]
                 cached_world))
  = [HttpsGet "https://api.github.com/repos/acme/widget/releases/tags/v1.2.0";
     Spawned "/home/u/.binrun/cache/acme_widget_v1.2.0/bin/widget" ["-v"; "serve"; "--port=1"]].
Proof. vm_compute. reflexivity. Qed.

(* ================================================================= *)
(** ** Further properties: the outcome of the binary locator *)

Section LocatorOutcome.
Local Open Scope list_scope.
Variable repoName : string.

Lemma node_induction (P : Fs.node -> Prop) :
  (forall d m, P (Fs.File d m)) ->
  (forall es, Forall (fun e => P (snd e)) es -> P (Fs.Dir es)) ->
  forall n, P n.
Proof.
  intros HF HD. fix IH 1. intros [d m|es]; [apply HF|].
  apply HD. induction es as [|[k v] es IHes]; constructor; [apply IH|exact IHes].
Qed.

Lemma In_insert_sorted {A} (cmp : A -> A -> Z) x y l :
  In y (insert_sorted cmp x l) <-> y = x \/ In y l.
Proof.
  induction l as [|z l IH]; simpl.
  - intuition.
  - destruct (cmp x z <=? 0)%Z; simpl; [intuition|]. rewrite IH. intuition.
Qed.

Lemma In_stable_sort {A} (cmp : A -> A -> Z) y l :
  In y (stable_sort cmp l) <-> In y l.
Proof.
  unfold stable_sort. induction l as [|x l IH]; simpl; [reflexivity|].
  rewrite In_insert_sorted, IH. intuition.
Qed.

Lemma scan_some dir depth l p :
  scan repoName dir depth l (Some p) = Some p.
Proof. destruct l as [|[f k] l]; reflexivity. Qed.

(** a round that starts without a path stops the loop only with one *)
Lemma visit_break dir depth file k bp :
  visit repoName dir depth file k None = (Break, bp) -> bp = Some (dir ++ [file]).
Proof.
  unfold visit. destruct k as [descend|mode]; [discriminate|].
  destruct (Fs.has_exec_bit mode); [|discriminate].
  destruct (negb (isLikelyNonBinary file) && negb (isCommonNonBinary file)); [|discriminate].
  destruct (goodMatch repoName file); [|discriminate].
  now intros [= <-].
Qed.

Lemma scan_cons dir depth file k l bp :
  scan repoName dir depth ((file, k) :: l) bp
  = match visit repoName dir depth file k bp with
    | (Break, bp') => bp'
    | (Next, bp') => scan repoName dir depth l bp'
    end.
Proof. reflexivity. Qed.

Lemma scan_none_iff dir depth l :
  scan repoName dir depth l None = None
  <-> forall file k, In (file, k) l -> snd (visit repoName dir depth file k None) = None.
Proof.
  induction l as [|[f k] l IH].
  - simpl. split; [intros _ ? ? []|reflexivity].
  - rewrite scan_cons. destruct (visit repoName dir depth f k None) as [[|] bp] eqn:V.
    + destruct bp as [p|].
      * rewrite scan_some. split; [discriminate|].
        intro H. specialize (H f k (or_introl eq_refl)). rewrite V in H. exact H.
      * rewrite IH. split.
        -- intros H file k' [[= <- <-]|I]; [now rewrite V|now apply H].
        -- intros H file k' I. apply H. now right.
    + pose proof (visit_break _ _ _ _ _ V) as B. subst bp. split; [discriminate|].
      intro H. specialize (H f k (or_introl eq_refl)). rewrite V in H. discriminate.
Qed.

Lemma existsb_false {A} (f : A -> bool) l :
  existsb f l = false <-> forall x, In x l -> f x = false.
Proof.
  induction l as [|y l IH]; simpl.
  - split; [intros _ ? []|reflexivity].
  - rewrite orb_false_iff, IH. split.
    + intros [Y H] x [<-|I]; auto.
    + intro H. split; [apply H; now left|]. intros x I. apply H. now right.
Qed.

Lemma has_file_dir P es levels :
  has_file P (Fs.Dir es) levels
  = match levels with
    | Some O => false
    | _ => existsb (fun e : string * Fs.node =>
                      match snd e with
                      | Fs.File _ m => P (fst e) m
                      | Fs.Dir _ => has_file P (snd e) (option_map Nat.pred levels)
                      end) es
    end.
Proof. reflexivity. Qed.

Lemma visit_file dir depth file mode :
  snd (visit repoName dir depth file (IsFile mode) None)
  = if firstCandidate file mode then Some (dir ++ [file]) else None.
Proof.
  unfold visit, firstCandidate.
  destruct (Fs.has_exec_bit mode); [|reflexivity].
  destruct (isLikelyNonBinary file); [reflexivity|].
  destruct (isCommonNonBinary file); [reflexivity|].
  simpl. destruct (goodMatch repoName file); reflexivity.
Qed.

(** the entries the loop of [searchDir] goes through are those of the
    directory, each with its kind *)
Lemma In_sortFiles file k es :
  In (file, k)
     (sortFiles repoName
        (map (fun e : string * Fs.node =>
                (fst e,
                 match snd e with
                 | Fs.Dir _ => IsDirectory (fun p d b => searchDir repoName (snd e) p d b)
                 | Fs.File _ m => IsFile m
                 end)) es))
  <-> exists ch, In (file, ch) es
                 /\ k = match ch with
                        | Fs.Dir _ => IsDirectory (fun p d b => searchDir repoName ch p d b)
                        | Fs.File _ m => IsFile m
                        end.
Proof.
  unfold sortFiles. rewrite In_stable_sort, in_map_iff. split.
  - intros [[f ch] [[= <- <-] I]]. exists ch. split; [exact I|reflexivity].
  - intros [ch [I ->]]. exists (file, ch). split; [reflexivity|exact I].
Qed.

(** the first pass finds nothing exactly when no file of the four levels
    it reads passes its test *)
Lemma searchDir_none_iff n :
  forall dir depth,
    searchDir repoName n dir depth None = None
    <-> has_file firstCandidate n (Some (4 - depth)) = false.
Proof.
  induction n as [d m|es IH] using node_induction; intros dir depth.
  - split; reflexivity.
  - rewrite searchDir_dir, has_file_dir. rewrite Forall_forall in IH.
    destruct (3 <? depth)%nat eqn:D.
    + apply Nat.ltb_lt in D. replace (4 - depth) with 0 by lia. split; reflexivity.
    + apply Nat.ltb_ge in D. replace (4 - depth) with (S (3 - depth)) by lia.
      rewrite scan_none_iff, existsb_false. cbn [option_map Nat.pred]. split.
      * intros H [f ch] I. cbn [fst snd].
        specialize (H f _ (proj2 (In_sortFiles f _ es) (ex_intro _ ch (conj I eq_refl)))).
        destruct ch as [d m|es'].
        -- rewrite visit_file in H. destruct (firstCandidate f m); [discriminate|reflexivity].
        -- cbn [visit snd] in H. apply (IH _ I) in H.
           cbn [snd] in H. replace (4 - S depth) with (3 - depth) in H by lia. exact H.
      * intros H f k I. apply In_sortFiles in I. destruct I as [ch [I ->]].
        specialize (H _ I). cbn [fst snd] in H. destruct ch as [d m|es'].
        -- rewrite visit_file, H. reflexivity.
        -- cbn [visit snd]. apply (IH _ I). cbn [snd].
           replace (4 - S depth) with (3 - depth) by lia. exact H.
Qed.

Lemma keep_if_unset_some bp p : keep_if_unset bp p <> None.
Proof. destruct bp; discriminate. Qed.

(** the second pass finds nothing exactly when it starts without a path
    and no file of the tree passes its test; the shared variable is then
    still unset *)
Lemma finalSearch_none_iff n :
  forall dir bp,
    (fst (finalSearch repoName n dir bp) = None
     <-> bp = None /\ has_file (fun f _ => looseCandidate f) n None = false)
    /\ (fst (finalSearch repoName n dir bp) = None
        -> snd (finalSearch repoName n dir bp) = None).
Proof.
  induction n as [d m|es IH] using node_induction.
  - intros dir bp. cbn. intuition.
  - induction IH as [|[f ch] rest Hch _ IHrest]; intros dir bp.
    + rewrite finalSearch_nil. cbn. intuition.
    + cbn [snd] in Hch. rewrite has_file_dir. cbn [existsb fst snd option_map].
      rewrite has_file_dir in IHrest. cbn [option_map] in IHrest.
      destruct ch as [d m|es'].
      * rewrite finalSearch_file. destruct (looseCandidate f).
        -- destruct (looseRepoMatch repoName f).
           ++ cbn. split; [split; [discriminate|intros [_ [=]]]|discriminate].
           ++ destruct (IHrest dir (keep_if_unset bp (dir ++ [f]))) as [I1 I2].
              split; [|exact I2]. split.
              ** intro H. apply I1 in H. destruct H as [H _].
                 now apply keep_if_unset_some in H.
              ** intros [_ [=]].
        -- apply IHrest.
      * rewrite finalSearch_subdir.
        destruct (Hch (dir ++ [f]) bp) as [S1 S2].
        destruct (finalSearch repoName (Fs.Dir es') (dir ++ [f]) bp) as [[r|] bp'] eqn:F;
          cbn [fst snd] in *.
        -- split; [split; [discriminate|]|discriminate].
           intros [B H]. apply orb_false_iff in H. destruct H as [H _].
           assert (X : Some r = None) by (apply S1; auto). discriminate.
        -- specialize (S2 eq_refl). subst bp'.
           destruct (proj1 S1 eq_refl) as [B H]. subst bp. rewrite H. cbn [orb].
           apply IHrest.
Qed.

Lemma locate_none_iff es dir :
  locate repoName (Fs.Dir es) dir = None
  <-> has_file firstCandidate (Fs.Dir es) (Some 4) = false
      /\ has_file (fun f _ => looseCandidate f) (Fs.Dir es) None = false.
Proof.
  unfold locate.
  pose proof (searchDir_none_iff (Fs.Dir es) dir 0) as S. cbn [Nat.sub] in S.
  pose proof (proj1 (finalSearch_none_iff (Fs.Dir es) dir None)) as F.
  destruct (searchDir repoName (Fs.Dir es) dir 0 None) as [p|].
  - split; [discriminate|]. intros [H _]. apply S in H. discriminate.
  - rewrite F. split.
    + intros [_ H]. split; [now apply S|exact H].
    + intros [_ H]. auto.
Qed.

End LocatorOutcome.

(** X15: the search of an extraction directory fails for want of a binary
    exactly when no file of its first four levels has an execute bit and
    a name the first pass accepts, and no file at any depth has a name the
    second pass accepts. *)
Theorem binary_not_found_iff :
  forall (repoName : string) (dir : Fs.path) (w : world) (es : Fs.entries_t),
    Fs.lookup dir (fs w) = Some (Fs.Dir es) ->
    (fst (findBinaryInDir dir repoName w) = Err BinaryNotFound
     <-> has_file firstCandidate (Fs.Dir es) (Some 4) = false
         /\ has_file (fun f _ => looseCandidate f) (Fs.Dir es) None = false).
Proof.
  intros repoName dir w es L. rewrite <- locate_none_iff with (repoName := repoName) (dir := dir).
  unfold findBinaryInDir. rewrite L.
  destruct (locate repoName (Fs.Dir es) dir) as [p|].
  - destruct (Fs.chmod p 493 (fs w)); cbn [fst]; split; discriminate.
  - cbn [fst]. split; reflexivity.
Qed.

Lemma binary_not_found_iff_witness :
  fst (findBinaryInDir [] "widget" empty_cache_world) = Err BinaryNotFound.
Proof.
  apply (proj2 (binary_not_found_iff "widget" [] empty_cache_world
                  [("cache", Fs.Dir [])] eq_refl)).
  split; reflexivity.
Defined.

(* ================================================================= *)
(** ** Further properties: what the binary locator returns *)

Section LocatorSound.
Local Open Scope list_scope.
Variable repoName : string.

Lemma assoc_unique k v es :
  distinct (map fst es) = true -> In (k, v) es -> Fs.assoc k es = Some v.
Proof.
  induction es as [|[k' v'] es IH]; simpl; [intros _ []|].
  intros D [[= -> ->]|I].
  - now rewrite String.eqb_refl.
  - apply andb_prop in D. destruct D as [N D].
    destruct (String.eqb_spec k k') as [->|]; [|auto].
    exfalso. apply negb_true_iff in N. rewrite existsb_false in N.
    specialize (N k' (in_map fst _ _ I)). rewrite String.eqb_refl in N. discriminate.
Qed.

Lemma unique_names_dir es :
  unique_names (Fs.Dir es) = true ->
  distinct (map fst es) = true /\ forall f ch, In (f, ch) es -> unique_names ch = true.
Proof.
  cbn [unique_names]. intro U. apply andb_prop in U. destruct U as [D F].
  split; [exact D|]. intros f ch I. rewrite forallb_forall in F. exact (F _ I).
Qed.

Lemma file_below_here P es dir f d m :
  distinct (map fst es) = true -> In (f, Fs.File d m) es -> P f m = true ->
  file_below P (Fs.Dir es) dir (dir ++ [f]).
Proof.
  intros D I H. exists [], f, d, m. split; [reflexivity|]. split; [|exact H].
  cbn. now rewrite (assoc_unique _ _ _ D I).
Qed.

Lemma file_below_lift P es dir f ch p :
  distinct (map fst es) = true -> In (f, ch) es ->
  file_below P ch (dir ++ [f]) p -> file_below P (Fs.Dir es) dir p.
Proof.
  intros D I [rel [file [d [m [-> [L H]]]]]].
  exists (f :: rel), file, d, m. split; [now rewrite <- app_assoc|]. split; [|exact H].
  cbn [app]. rewrite FsFacts.lookup_cons, (assoc_unique _ _ _ D I). exact L.
Qed.

Lemma scan_some_inv dir depth l p :
  scan repoName dir depth l None = Some p ->
  exists file k, In (file, k) l /\ snd (visit repoName dir depth file k None) = Some p.
Proof.
  induction l as [|[f k] l IH]; [discriminate|].
  rewrite scan_cons. destruct (visit repoName dir depth f k None) as [[|] bp] eqn:V.
  - destruct bp as [q|].
    + rewrite scan_some. intros [= ->]. exists f, k. rewrite V. split; [now left|reflexivity].
    + intro H. destruct (IH H) as [file [k' [I S]]]. exists file, k'. split; [now right|exact S].
  - intros ->. exists f, k. rewrite V. split; [now left|reflexivity].
Qed.

(** what the first pass returns is a file of the tree that passes its test *)
Lemma searchDir_sound n :
  unique_names n = true ->
  forall dir depth p,
    searchDir repoName n dir depth None = Some p ->
    file_below firstCandidate n dir p.
Proof.
  induction n as [d m|es IH] using node_induction; intros U dir depth p.
  - discriminate.
  - rewrite (searchDir_dir repoName). destruct (3 <? depth)%nat; [discriminate|].
    intro S. apply scan_some_inv in S. destruct S as [f [k [I V]]].
    apply (In_sortFiles repoName) in I. destruct I as [ch [I ->]].
    destruct (unique_names_dir es U) as [D Uch].
    rewrite Forall_forall in IH.
    destruct ch as [d m|es'].
    + rewrite visit_file in V. destruct (firstCandidate f m) eqn:C; [|discriminate].
      injection V as <-. eapply file_below_here; eauto.
    + cbn [visit snd] in V. eapply file_below_lift; [exact D|exact I|].
      eapply (IH _ I); [exact (Uch _ _ I)|exact V].
Qed.

(** what the second pass returns, and what it leaves in the shared
    variable, is the path it started with or a file of the tree that passes
    its test *)
Lemma finalSearch_loop_sound es :
  Forall (fun e : string * Fs.node =>
            unique_names (snd e) = true ->
            forall dir bp p,
              (fst (finalSearch repoName (snd e) dir bp) = Some p
               \/ snd (finalSearch repoName (snd e) dir bp) = Some p) ->
              bp = Some p \/ file_below (fun f _ => looseCandidate f) (snd e) dir p) es ->
  unique_names (Fs.Dir es) = true ->
  forall rest, incl rest es ->
  forall dir bp p,
    (fst (finalSearch repoName (Fs.Dir rest) dir bp) = Some p
     \/ snd (finalSearch repoName (Fs.Dir rest) dir bp) = Some p) ->
    bp = Some p \/ file_below (fun f _ => looseCandidate f) (Fs.Dir es) dir p.
Proof.
  intros IH U. destruct (unique_names_dir es U) as [D Uch].
  rewrite Forall_forall in IH.
  induction rest as [|[f ch] rest IHrest]; intros Inc dir bp p.
  - rewrite finalSearch_nil. cbn. intuition.
  - assert (I : In (f, ch) es) by (apply Inc; now left).
    assert (Inc' : incl rest es) by (intros x Hx; apply Inc; now right).
    specialize (IHrest Inc').
    destruct ch as [d m|es'].
    + rewrite finalSearch_file. destruct (looseCandidate f) eqn:C.
      * destruct (looseRepoMatch repoName f).
        -- cbn [fst snd]. intros [[= <-]|H]; [|now left].
           right. eapply file_below_here; eauto.
        -- intro H. apply IHrest in H. destruct H as [H|H]; [|now right].
           destruct bp as [q|]; cbn in H; [now left|].
           injection H as <-. right. eapply file_below_here; eauto.
      * apply IHrest.
    + rewrite finalSearch_subdir.
      pose proof (IH _ I (Uch _ _ I) (dir ++ [f]) bp) as Sub. cbn [snd] in Sub.
      destruct (finalSearch repoName (Fs.Dir es') (dir ++ [f]) bp) as [[r|] bp'] eqn:F;
        cbn [fst snd] in *.
      * intro H. destruct (Sub p H) as [B|B]; [now left|right].
        eapply file_below_lift; eauto.
      * intro H. apply IHrest in H. destruct H as [H|H]; [|now right].
        destruct (Sub p (or_intror H)) as [B|B]; [now left|right].
        eapply file_below_lift; eauto.
Qed.

Lemma finalSearch_sound n :
  unique_names n = true ->
  forall dir bp p,
    (fst (finalSearch repoName n dir bp) = Some p
     \/ snd (finalSearch repoName n dir bp) = Some p) ->
    bp = Some p \/ file_below (fun f _ => looseCandidate f) n dir p.
Proof.
  induction n as [d m|es IH] using node_induction; intros U dir bp p.
  - cbn. intuition.
  - apply (finalSearch_loop_sound es IH U es (incl_refl es)).
Qed.

Lemma locate_sound es dir p :
  unique_names (Fs.Dir es) = true ->
  locate repoName (Fs.Dir es) dir = Some p ->
  file_below firstCandidate (Fs.Dir es) dir p
  \/ file_below (fun f _ => looseCandidate f) (Fs.Dir es) dir p.
Proof.
  intros U. unfold locate.
  destruct (searchDir repoName (Fs.Dir es) dir 0 None) as [q|] eqn:S.
  - intros [= <-]. left. eapply searchDir_sound; eauto.
  - intro F. right.
    destruct (finalSearch_sound (Fs.Dir es) U dir None p (or_introl F)) as [B|B];
      [discriminate|exact B].
Qed.

End LocatorSound.

(** X16: on a directory without duplicate names the search either fails
    for want of a binary or returns the path of a regular file below the
    directory, a file that has an execute bit and a name the first pass
    accepts, or a name the second pass accepts; afterwards that file has
    mode [0o755] and its contents are unchanged.  It never returns a
    directory or a path outside the directory, and the [chmod] never
    fails. *)
Theorem located_binary_is_a_file :
  forall (repoName : string) (dir : Fs.path) (w : world) (es : Fs.entries_t),
    Fs.lookup dir (fs w) = Some (Fs.Dir es) ->
    unique_names (Fs.Dir es) = true ->
    findBinaryInDir dir repoName w = (Err BinaryNotFound, w)
    \/ exists rel file data mode n',
         findBinaryInDir dir repoName w
         = (Ok (Fs.string_of_path (dir ++ rel ++ [file])%list), set_fs n' w)
         /\ Fs.lookup (dir ++ rel ++ [file])%list (fs w) = Some (Fs.File data mode)
         /\ Fs.lookup (dir ++ rel ++ [file])%list n' = Some (Fs.File data 493)
         /\ (firstCandidate file mode = true \/ looseCandidate file = true).
Proof.
  intros repoName dir w es L U. unfold findBinaryInDir. rewrite L.
  destruct (locate repoName (Fs.Dir es) dir) as [p|] eqn:Loc; [right|now left].
  assert (B : exists rel file data mode,
             p = (dir ++ rel ++ [file])%list
             /\ Fs.lookup (rel ++ [file])%list (Fs.Dir es) = Some (Fs.File data mode)
             /\ (firstCandidate file mode = true \/ looseCandidate file = true)).
  { destruct (locate_sound repoName es dir p U Loc)
      as [[rel [file [d [m [P [Lk H]]]]]]|[rel [file [d [m [P [Lk H]]]]]]];
      exists rel, file, d, m; auto. }
  destruct B as [rel [file [d [m [-> [Lk H]]]]]].
  assert (Lw : Fs.lookup (dir ++ rel ++ [file])%list (fs w) = Some (Fs.File d m))
    by (rewrite FsFacts.lookup_app, L; exact Lk).
  assert (NE : (dir ++ rel ++ [file])%list <> [])
    by (intro E; apply app_eq_nil in E; destruct E as [_ E];
        apply app_eq_nil in E; destruct E as [_ E]; discriminate).
  destruct (FsFacts.chmod_defined _ 493 _ _ NE Lw) as [n' C]. rewrite C.
  exists rel, file, d, m, n'. split; [reflexivity|]. split; [exact Lw|]. split; [|exact H].
  eapply FsFacts.lookup_chmod; eauto.
Qed.

Lemma located_binary_is_a_file_witness :
  findBinaryInDir ["x"] "widget" license_only_world = (Err BinaryNotFound, license_only_world)
  \/ exists rel file data mode n',
       findBinaryInDir ["x"] "widget" license_only_world
       = (Ok (Fs.string_of_path (["x"] ++ rel ++ [file])%list), set_fs n' license_only_world)
       /\ Fs.lookup (["x"] ++ rel ++ [file])%list (fs license_only_world)
          = Some (Fs.File data mode)
       /\ Fs.lookup (["x"] ++ rel ++ [file])%list n' = Some (Fs.File data 493)
       /\ (firstCandidate file mode = true \/ looseCandidate file = true).
Proof.
  apply (located_binary_is_a_file "widget" ["x"] license_only_world
           [("a", nest ["b"; "c"; "d"; "e"] [("LICENSE-MIT", Fs.File "MIT License" 420)])]).
  - reflexivity.
  - reflexivity.
Defined.

(* ================================================================= *)
(** ** Further properties: the order of the first pass *)

Section ScanOrder.
Local Open Scope list_scope.
Variable repoName : string.
Variable A : Type.

Lemma compareFiles_rank a b :
  (compareFiles repoName a b <=? 0)%Z
  = (sortRank repoName a <=? sortRank repoName b)%nat.
Proof.
  unfold compareFiles, sortRank. cbv zeta.
  destruct (Str.includes (Str.toLowerCase a) (Str.toLowerCase repoName));
    destruct (Str.includes (Str.toLowerCase b) (Str.toLowerCase repoName));
    destruct (isCommonNonBinary a); destruct (isCommonNonBinary b); reflexivity.
Qed.

Lemma sortRank_bound a : sortRank repoName a < 4.
Proof.
  unfold sortRank.
  destruct (Str.includes (Str.toLowerCase a) (Str.toLowerCase repoName));
    destruct (isCommonNonBinary a); lia.
Qed.

Lemma insert_sorted_after (x : string * A) l1 l2 :
  (forall y, In y l1 -> sortRank repoName (fst y) < sortRank repoName (fst x)) ->
  insert_sorted (fun a b : string * A => compareFiles repoName (fst a) (fst b)) x (l1 ++ l2)
  = l1 ++ insert_sorted (fun a b : string * A => compareFiles repoName (fst a) (fst b)) x l2.
Proof.
  induction l1 as [|y l1 IH]; intro H; [reflexivity|].
  cbn [app insert_sorted]. cbv beta. rewrite compareFiles_rank.
  pose proof (H y (or_introl eq_refl)) as Y.
  destruct (Nat.leb_spec (sortRank repoName (fst x)) (sortRank repoName (fst y))); [lia|].
  f_equal. apply IH. intros z I. apply H. now right.
Qed.

Lemma insert_sorted_before (x : string * A) l :
  (forall y, In y l -> sortRank repoName (fst x) <= sortRank repoName (fst y)) ->
  insert_sorted (fun a b : string * A => compareFiles repoName (fst a) (fst b)) x l = x :: l.
Proof.
  destruct l as [|y l]; intro H; [reflexivity|].
  cbn [insert_sorted]. cbv beta. rewrite compareFiles_rank.
  pose proof (H y (or_introl eq_refl)) as Y.
  destruct (Nat.leb_spec (sortRank repoName (fst x)) (sortRank repoName (fst y)));
    [reflexivity|lia].
Qed.

Lemma ranked_cons r (x : string * A) l :
  ranked repoName r (x :: l)
  = if Nat.eqb (sortRank repoName (fst x)) r
    then x :: ranked repoName r l else ranked repoName r l.
Proof. reflexivity. Qed.

Lemma ranked_rank r (y : string * A) l :
  In y (ranked repoName r l) -> sortRank repoName (fst y) = r.
Proof.
  unfold ranked. rewrite filter_In. intros [_ H]. now apply Nat.eqb_eq in H.
Qed.

Lemma sortFiles_groups (l : list (string * A)) :
  stable_sort (fun a b : string * A => compareFiles repoName (fst a) (fst b)) l
  = ranked repoName 0 l ++ ranked repoName 1 l ++ ranked repoName 2 l ++ ranked repoName 3 l.
Proof.
  induction l as [|x l IH]; [reflexivity|].
  unfold stable_sort in *. cbn [fold_right]. rewrite IH. rewrite !ranked_cons.
  pose proof (sortRank_bound (fst x)) as B.
  destruct (sortRank repoName (fst x)) as [|[|[|[|k]]]] eqn:R; [| | | |lia]; cbn [Nat.eqb].
  - apply insert_sorted_before. rewrite R. intros; lia.
  - rewrite insert_sorted_after
      by (intros y I; apply ranked_rank in I; rewrite I, R; lia).
    f_equal. apply insert_sorted_before. intros y I. rewrite R.
    rewrite !in_app_iff in I. destruct I as [I|[I|I]]; apply ranked_rank in I; lia.
  - rewrite insert_sorted_after
      by (intros y I; apply ranked_rank in I; rewrite I, R; lia).
    f_equal.
    rewrite insert_sorted_after
      by (intros y I; apply ranked_rank in I; rewrite I, R; lia).
    f_equal. apply insert_sorted_before. intros y I. rewrite R.
    rewrite !in_app_iff in I. destruct I as [I|I]; apply ranked_rank in I; lia.
  - rewrite insert_sorted_after
      by (intros y I; apply ranked_rank in I; rewrite I, R; lia).
    f_equal.
    rewrite insert_sorted_after
      by (intros y I; apply ranked_rank in I; rewrite I, R; lia).
    f_equal.
    rewrite insert_sorted_after
      by (intros y I; apply ranked_rank in I; rewrite I, R; lia).
    f_equal. apply insert_sorted_before. intros y I. rewrite R.
    apply ranked_rank in I; lia.
Qed.

End ScanOrder.

(** X17: the first pass goes through the entries of a directory in four
    groups: names that hold the repository name and do not start like a
    documentation file, names that hold it and do, names that do not hold
    it and do not start like one, and the rest; within a group the order of
    the directory listing is kept. *)
Theorem sorted_entries_in_four_groups :
  forall (repoName : string) (files : list (string * entry_kind)),
    sortFiles repoName files
    = (ranked repoName 0 files ++ ranked repoName 1 files
       ++ ranked repoName 2 files ++ ranked repoName 3 files)%list.
Proof.
  intros repoName files. unfold sortFiles.
  rewrite <- (sortFiles_groups repoName entry_kind files). reflexivity.
Qed.

(* ================================================================= *)
(** ** Further properties: the exit code *)

Section ExitCode.
Variable E : env.

Lemma bind_ok_inv {A B} (m : M A) (f : A -> M B) w b w' :
  bind m f w = (Ok b, w') ->
  exists a w1, m w = (Ok a, w1) /\ f a w1 = (Ok b, w').
Proof.
  unfold bind. destruct (m w) as [[a|e] w1]; [|discriminate].
  intro H. exists a, w1. split; [reflexivity|exact H].
Qed.

Lemma spawnAndWait_ok exe args w u w' :
  spawnAndWait E exe args w = (Ok u, w') ->
  child E exe args = Some 0%Z /\ w' = emit (Spawned exe args) w.
Proof.
  unfold spawnAndWait. destruct (child E exe args) as [[|c|c]|]; try discriminate.
  intros [= _ <-]. split; reflexivity.
Qed.

(** a run that resolves has spawned the child as its last action, and the
    child has exited with code 0 *)
Lemma run_ok_inv repoInput args w u w' :
  run E repoInput args w = (Ok u, w') ->
  exists exe w1, child E exe args = Some 0%Z /\ w' = emit (Spawned exe args) w1.
Proof.
  unfold run. cbv zeta. intro H.
  do 9 (apply bind_ok_inv in H; destruct H as [? [? [_ H]]]).
  apply spawnAndWait_ok in H. eauto.
Qed.

End ExitCode.

(** X18: the command exits with code 0 or 1 only.  It exits with 0, and
    writes nothing to the error stream, only when the last thing it did was
    to spawn the binary with the forwarded arguments and the child exited
    with code 0; every other outcome, the child's own non-zero exit code
    included, becomes exit code 1 with one line on the error stream. *)
Theorem exit_code_zero_or_one :
  forall (E : env) (args : list string) (w : world),
    let forwarded := binaryArgsOf args (repoArgOf args) in
    (fst (main E args w) = Exited 0 None
     /\ exists exe w1,
          child E exe forwarded = Some 0%Z
          /\ snd (main E args w) = emit (Spawned exe forwarded) w1)
    \/ (exists line, fst (main E args w) = Exited 1 (Some line)).
Proof.
  intros E args w forwarded. unfold main, forwarded.
  destruct (repoArgOf args) as [r|]; [|right; eexists; reflexivity].
  destruct (run E r (binaryArgsOf args (Some r)) w) as [[u|e] w'] eqn:R.
  - left. split; [reflexivity|]. cbn [snd]. eapply run_ok_inv. exact R.
  - right. eexists. reflexivity.
Qed.
